(** * cytoscape.js-layers: layer stack, plugin accessor and per-node rendering

    A shallow embedding of [src/LayersPlugin.ts], [src/layers/HTMLLayer.ts],
    [src/layers/SVGLayer.ts] and [src/elements/nodes.ts].

    - [Dom]     : the part of the browser DOM the plugin manipulates
                  (parent pointers, ordered children, the [__cy_layer]
                  expando property), with the primitives [appendChild],
                  [insertBefore] and [insertAdjacentElement].
    - [Stack]   : the layer classes and [LayersPlugin]: [layers], [move],
                  [append], [insert], [getFirst], [getLast]; sessions of
                  a caller driving one stack.
    - [Accessor]: the host core with its scratch storage, the
                  constructor of the plugin and the accessor [layers(cy)].
    - [Binding] : [renderPerNode]: the host's emitter, the listener
                  bookkeeping, the debounced re-evaluation, the canvas
                  render pass and the HTML / SVG update functions.
    - [StackFacts], [AccessorFacts], [BindingFacts]: the properties.

    JavaScript exceptions are values of [Result]; code that mutates the
    document runs in the state-and-exception monad [M]. *)


From Stdlib Require Import ZArith Lia.
From stdpp Require Import gmap list strings pretty.

Local Open Scope Z_scope.

(** ** Exceptions and the state-and-exception monad *)

Inductive Error : Type :=
| TypeError        (* property access on [undefined] / [null] *)
| NotFoundError    (* DOM: reference child is not a child of the parent *)
| HeadlessError.   (* 'layers plugin does not work in headless environments' *)

Inductive Result (A : Type) : Type :=
| Ok (a : A)
| Throw (e : Error).
Arguments Ok {A} a.
Arguments Throw {A} e.

Definition M (S A : Type) : Type := S -> Result A * S.

Definition ret {S A} (a : A) : M S A := fun s => (Ok a, s).
Definition throw {S A} (e : Error) : M S A := fun s => (Throw e, s).
Definition bind {S A B} (m : M S A) (k : A -> M S B) : M S B :=
  fun s => match m s with
           | (Ok a, s') => k a s'
           | (Throw e, s') => (Throw e, s')
           end.
Definition gets {S A} (f : S -> A) : M S A := fun s => (Ok (f s), s).
Definition modify {S} (f : S -> S) : M S unit := fun s => (Ok tt, f s).
(** [x!] on a nullable value: dereferencing [null] raises a TypeError. *)
Definition nonnull {S A} (o : option A) : M S A :=
  match o with Some a => ret a | None => throw TypeError end.

Declare Scope m_scope.
Delimit Scope m_scope with M.
Notation "x <- m ;; k" := (bind m (fun x => k))
  (at level 100, m at next level, right associativity) : m_scope.
Notation "m ;;; k" := (bind m (fun _ => k))
  (at level 100, right associativity) : m_scope.

(** ** The DOM fragment *)

Module Dom.

Abbreviation elem := nat.

(** The [type] field of the layer classes. *)
Inductive LayerType : Type :=
| TSvg | THtml | TCanvas | TSvgStatic | THtmlStatic
| TCyNode | TCyDrag | TCySelectBox.

(** A layer object: [l_id] is the identity of the object itself,
    [l_root] and [l_node] are its [root] and [node] elements. *)
Record Layer : Type := mkLayer {
  l_id   : nat;
  l_root : elem;
  l_node : elem;
  l_type : LayerType }.

#[export] Instance LayerType_eq_dec : EqDecision LayerType.
Proof. solve_decision. Defined.
#[export] Instance Layer_eq_dec : EqDecision Layer.
Proof. solve_decision. Defined.

Record Document : Type := mkDocument {
  d_parent   : gmap nat nat;          (* parentElement *)
  d_children : gmap nat (list nat);   (* children, in document order *)
  d_layer    : gmap nat Layer;        (* the __cy_layer property *)
  d_dataid   : gmap nat string;       (* the data-id attribute *)
  d_next     : nat }.                 (* next fresh element *)

Definition kids (d : Document) (p : elem) : list nat :=
  default [] (d_children d !! p).

Definition set_kids (p : elem) (l : list nat) (d : Document) : Document :=
  mkDocument (d_parent d) (<[p := l]> (d_children d)) (d_layer d)
             (d_dataid d) (d_next d).

Definition set_parent (n : elem) (p : option nat) (d : Document) : Document :=
  mkDocument (match p with
              | Some q => <[n := q]> (d_parent d)
              | None => delete n (d_parent d)
              end)
             (d_children d) (d_layer d) (d_dataid d) (d_next d).

(** Removing a node from its current parent, the first step of every
    DOM insertion of an already attached node. *)
Definition detach (n : elem) (d : Document) : Document :=
  match d_parent d !! n with
  | Some p => set_parent n None (set_kids p (filter (fun c => c ≠ n) (kids d p)) d)
  | None => d
  end.

Fixpoint insert_before_in (n ref : elem) (l : list nat) : list nat :=
  match l with
  | [] => [n]
  | c :: r => if decide (c = ref) then n :: c :: r
              else c :: insert_before_in n ref r
  end.

Fixpoint insert_after_in (n ref : elem) (l : list nat) : list nat :=
  match l with
  | [] => [n]
  | c :: r => if decide (c = ref) then c :: n :: r
              else c :: insert_after_in n ref r
  end.

(** [document.createElement] / [createElementNS]: a fresh detached
    element.  Objects created with [new] draw their identity from the
    same counter. *)
Definition createElement : M Document nat :=
  fun d => (Ok (d_next d),
            mkDocument (d_parent d) (d_children d) (d_layer d)
                       (d_dataid d) (S (d_next d))).

Definition newObject : M Document nat := createElement.

(** [e.__cy_layer = l] *)
Definition set_cy_layer (e : elem) (l : Layer) : M Document unit :=
  modify (fun d => mkDocument (d_parent d) (d_children d)
                              (<[e := l]> (d_layer d)) (d_dataid d) (d_next d)).

(** [p.appendChild(n)] *)
Definition appendChild (p n : elem) : M Document unit :=
  modify (fun d => let d' := detach n d in
                   set_parent n (Some p) (set_kids p (kids d' p ++ [n]) d')).

(** [p.insertBefore(n, ref)]: [ref] must be a child of [p]; inserting a
    node before itself leaves the tree as it is. *)
Definition insertBefore (p n ref : elem) : M Document unit :=
  fun d =>
    if decide (ref ∈ kids d p) then
      if decide (n = ref) then (Ok tt, d)
      else let d' := detach n d in
           (Ok tt, set_parent n (Some p)
                     (set_kids p (insert_before_in n ref (kids d' p)) d'))
    else (Throw NotFoundError, d).

Inductive Where : Type := Before | After.

(** [ref.insertAdjacentElement(where === 'before' ? 'beforebegin' : 'afterend', n)]:
    returns [null] and inserts nothing when [ref] has no parent. *)
Definition insertAdjacentElement (ref : elem) (w : Where) (n : elem)
  : M Document (option nat) :=
  fun d =>
    match d_parent d !! ref with
    | None => (Ok None, d)
    | Some p =>
        if decide (n = ref) then (Ok (Some n), d)
        else let d' := detach n d in
             let l := match w with
                      | Before => insert_before_in n ref (kids d' p)
                      | After => insert_after_in n ref (kids d' p)
                      end in
             (Ok (Some n), set_parent n (Some p) (set_kids p l d'))
    end.

(** Descendants of [p] in document order; [fuel] bounds the depth. *)
Fixpoint descendants (fuel : nat) (d : Document) (p : elem) : list nat :=
  match fuel with
  | O => []
  | S f => flat_map (fun c => c :: descendants f d c) (kids d p)
  end.

(** [p.querySelector('[data-id="..."]')] *)
Definition querySelector (d : Document) (p : elem) (id : string) : option nat :=
  head (filter (fun e => d_dataid d !! e = Some id) (descendants (d_next d) d p)).

End Dom.


(** ** LayersPlugin.ts *)

Module Stack.
Import Dom.

Local Open Scope m_scope.

(** *** The layer classes *)

(** [new SVGLayer(adapter, doc)] (src/layers/SVGLayer.ts): an [svg] root
    holding a [g] node, both pointing back at the layer.  The
    [__cy_layer] properties hold a reference to the object, so the
    record is written once both elements exist. *)
Definition new_SVGLayer : M Document Layer :=
  this <- newObject ;;
  root <- createElement ;;
  node <- createElement ;;
  let layer := mkLayer this root node TSvg in
  set_cy_layer root layer ;;;
  set_cy_layer node layer ;;;
  appendChild root node ;;;
  ret layer.

(** [new HTMLLayer(adapter, doc)] (src/layers/HTMLLayer.ts): a [div]
    root holding a [div] node. *)
Definition new_HTMLLayer : M Document Layer :=
  this <- newObject ;;
  root <- createElement ;;
  node <- createElement ;;
  let layer := mkLayer this root node THtml in
  set_cy_layer root layer ;;;
  set_cy_layer node layer ;;;
  appendChild root node ;;;
  ret layer.

(** Modelled from the spec: [CanvasLayer] is not among the sources.  A
    Surface has "a back-reference from its root container to itself
    (for stack introspection)"; a drawing surface is one canvas element
    that is both its root and its node. *)
Definition new_CanvasLayer : M Document Layer :=
  this <- newObject ;;
  node <- createElement ;;
  let layer := mkLayer this node node TCanvas in
  set_cy_layer node layer ;;;
  ret layer.

(** Modelled from the spec: [CytoscapeNodeLayer], [CytoscapeDragLayer]
    and [CytoscapeSelectBoxLayer] are not among the sources.  They wrap
    a canvas of the host, which is both root and node and carries the
    back-reference. *)
Definition new_CytoscapeLayer (ty : LayerType) (canvas : option nat)
  : M Document Layer :=
  this <- newObject ;;
  node <- nonnull canvas ;;
  let layer := mkLayer this node node ty in
  set_cy_layer node layer ;;;
  ret layer.

(** *** The plugin object *)

Record LayersPlugin : Type := mkPlugin {
  p_id : nat;              (* identity of the plugin object *)
  p_cy : nat;              (* the core it belongs to *)
  nodeLayer : Layer;
  dragLayer : Layer;
  selectBoxLayer : Layer }.

#[export] Instance LayersPlugin_eq_dec : EqDecision LayersPlugin.
Proof. solve_decision. Defined.

(** [get root() { return this.nodeLayer.node.parentElement! }] *)
Definition root (p : LayersPlugin) (d : Document) : option nat :=
  d_parent d !! l_node (nodeLayer p).

(** [private get layers()]:
    [Array.from(this.root.children).map(d => d.__cy_layer).filter(d => d != null)] *)
Definition layers (p : LayersPlugin) : M Document (list Layer) :=
  r <- (fun d => nonnull (root p d) d) ;;
  gets (fun d => omap (fun c => d_layer d !! c) (kids d r)).

Definition getLayers (p : LayersPlugin) : M Document (list Layer) := layers p.

(** [Array.prototype.indexOf], [-1] when absent. *)
Fixpoint indexOf (x : Layer) (l : list Layer) : Z :=
  match l with
  | [] => -1
  | y :: r => if decide (y = x) then 0
              else let i := indexOf x r in if decide (i = -1) then -1 else i + 1
  end.

(** [l[i]] for a number [i]: [undefined] outside the array. *)
Definition at_index {A} (l : list A) (i : Z) : option A :=
  if decide (0 <= i) then l !! Z.to_nat i else None.

(** [Math.max(Math.min(index + offset, l.length, 0))]: a three-argument
    [Math.min] inside a one-argument [Math.max], which returns its
    argument. *)
Definition Math_min3 (a b c : Z) : Z := Z.min (Z.min a b) c.
Definition Math_max1 (a : Z) : Z := a.
Definition move_target (index offset len : Z) : Z :=
  Math_max1 (Math_min3 (index + offset) len 0).

(** [private move(layer, offset)] *)
Definition move (p : LayersPlugin) (layer : Layer) (offset : Z) : M Document unit :=
  l <- layers p ;;
  let index := indexOf layer l in
  let target := move_target index offset (Z.of_nat (length l)) in
  if decide (target = index) then ret tt
  else if decide (index >= Z.of_nat (length l) - 1) then
    r <- (fun d => nonnull (root p d) d) ;;
    appendChild r (l_root layer)
  else
    r <- (fun d => nonnull (root p d) d) ;;
    t <- nonnull (at_index l target) ;;
    insertBefore r (l_root layer) (l_root t).

(** The [type] argument of [append] and [insert]:
    ['svg' | 'html' | IRenderFunction]; the render function is
    identified by a name. *)
Inductive LayerKind : Type :=
| KSvg
| KHtml
| KRender (fn : nat).

(** [private createLayer(type)].  [init] resizes the new layer and sets
    its viewport; neither touches the child order. *)
Definition createLayer (k : LayerKind) : M Document Layer :=
  match k with
  | KSvg => new_SVGLayer
  | KHtml => new_HTMLLayer
  | KRender _ => new_CanvasLayer
  end.

(** [append(type)] *)
Definition append (p : LayersPlugin) (k : LayerKind) : M Document Layer :=
  layer <- createLayer k ;;
  r <- (fun d => nonnull (root p d) d) ;;
  appendChild r (l_root layer) ;;;
  ret layer.

(** [insert(where, ref, type)] *)
Definition insert (p : LayersPlugin) (w : Where) (ref : Layer) (k : LayerKind)
  : M Document Layer :=
  layer <- createLayer k ;;
  insertAdjacentElement (l_root ref) w (l_root layer) ;;;
  ret layer.

(** [getLast()]: [layers[layers.length - 1] ?? null] *)
Definition getLast (p : LayersPlugin) : M Document (option Layer) :=
  l <- layers p ;;
  ret (at_index l (Z.of_nat (length l) - 1)).

(** [getFirst()]: [layers[0] ?? null] *)
Definition getFirst (p : LayersPlugin) : M Document (option Layer) :=
  l <- layers p ;;
  ret (at_index l 0).

(** *** Sessions: a caller driving one stack

    A caller can only pass layer objects it has been handed.  A session
    keeps these handles in the order they were obtained; an operation
    names a layer by its position among the handles (and is skipped when
    there is no such handle).  A raised exception leaves the caller with
    the document as the failed call left it. *)

Inductive Op : Type :=
| OAppend (k : LayerKind)
| OInsert (w : Where) (ref : nat) (k : LayerKind)
| OMove (layer : nat) (offset : Z).

Record Session : Type := mkSession {
  s_doc : Document;
  s_handles : list Layer }.

Definition step (p : LayersPlugin) (s : Session) (op : Op) : Session :=
  match op with
  | OAppend k =>
      match append p k (s_doc s) with
      | (Ok l, d) => mkSession d (s_handles s ++ [l])
      | (Throw _, d) => mkSession d (s_handles s)
      end
  | OInsert w i k =>
      match s_handles s !! i with
      | Some ref =>
          match insert p w ref k (s_doc s) with
          | (Ok l, d) => mkSession d (s_handles s ++ [l])
          | (Throw _, d) => mkSession d (s_handles s)
          end
      | None => s
      end
  | OMove i offset =>
      match s_handles s !! i with
      | Some layer => mkSession (move p layer offset (s_doc s)).2 (s_handles s)
      | None => s
      end
  end.

Definition run (p : LayersPlugin) (s : Session) (ops : list Op) : Session :=
  foldl (step p) s ops.

(** The position the specification asks [move] to reach: the original
    index plus the offset, clamped to [0, length - 1]. *)
Definition clamp_position (index offset len : Z) : Z :=
  Z.max 0 (Z.min (index + offset) (len - 1)).

(** *** The stack a caller works on *)

(** [c] carries a back-reference to a layer whose root it is. *)
Definition tagged_root (d : Document) (c : nat) : Prop :=
  l_root <$> (d_layer d !! c) = Some c.

(** The state of a stack as its caller sees it: the container [r] that
    holds the host's node canvas, whose children are all roots of
    layers, and the layer objects [hs] handed out so far. *)
Definition stack_inv (p : LayersPlugin) (r : nat) (hs : list Layer)
    (d : Document) : Prop :=
  root p d = Some r
  /\ (l_node (nodeLayer p) < d_next d)%nat
  /\ (r < d_next d)%nat
  /\ map_Forall (fun e _ => (e < d_next d)%nat) (d_layer d)
  /\ Forall (tagged_root d) (kids d r)
  /\ Forall (fun l => d_layer d !! l_root l = Some l) hs.

#[export] Instance stack_inv_dec p r hs d : Decision (stack_inv p r hs d).
Proof. unfold stack_inv, tagged_root. apply _. Defined.

(** A document in which no element beyond the allocation counter is in
    use yet. *)
Definition doc_ok (d : Document) : Prop :=
  map_Forall (fun e _ => (e < d_next d)%nat) (d_layer d)
  /\ map_Forall (fun e _ => (e < d_next d)%nat) (d_parent d).

#[export] Instance doc_ok_dec d : Decision (doc_ok d).
Proof. unfold doc_ok. apply _. Defined.

End Stack.


(** ** The host core and the accessor [layers(cy)] *)

Module Accessor.
Import Dom Stack.

Local Open Scope m_scope.

(** The bound methods the plugin registers on its core. *)
Inductive PluginMethod : Type := Zoomed | Resize | Destroy.

(** A host core ([cy.Core]), as far as the plugin uses it: its
    container, its scratch storage and the listeners registered by
    [cy.on]. *)
Record Core : Type := mkCore {
  c_container : option nat;
  c_scratch   : gmap string LayersPlugin;
  c_listeners : list (string * (nat * PluginMethod)) }.

Record World : Type := mkWorld {
  w_doc   : Document;
  w_cores : gmap nat Core }.

Definition liftD {A} (m : M Document A) : M World A :=
  fun w => match m (w_doc w) with
           | (r, d) => (r, mkWorld d (w_cores w))
           end.

Definition core (cy : nat) : M World Core :=
  fun w => nonnull (w_cores w !! cy) w.

Definition set_core (cy : nat) (c : Core) : M World unit :=
  modify (fun w => mkWorld (w_doc w) (<[cy := c]> (w_cores w))).

(** [cy.on(event, handler)] *)
Definition cy_on (cy : nat) (ev : string) (h : nat * PluginMethod) : M World unit :=
  c <- core cy ;;
  set_core cy (mkCore (c_container c) (c_scratch c) (c_listeners c ++ [(ev, h)])).

(** [cy.scratch(name, value)] *)
Definition cy_scratch_set (cy : nat) (name : string) (v : LayersPlugin) : M World unit :=
  c <- core cy ;;
  set_core cy (mkCore (c_container c) (<[name := v]> (c_scratch c)) (c_listeners c)).

(** [new LayersPlugin(cy)] *)
Definition new_LayersPlugin (cy : nat) : M World LayersPlugin :=
  this <- liftD newObject ;;
  c <- core cy ;;
  container <- nonnull (c_container c) ;;
  nodeLayer <- liftD (fun d =>
    new_CytoscapeLayer TCyNode (querySelector d container "layer2-node") d) ;;
  dragLayer <- liftD (fun d =>
    new_CytoscapeLayer TCyDrag (querySelector d container "layer1-drag") d) ;;
  selectBox <- liftD (fun d =>
    new_CytoscapeLayer TCySelectBox (querySelector d container "layer0-selectbox") d) ;;
  cy_on cy "viewport" (this, Zoomed) ;;;
  cy_on cy "resize" (this, Resize) ;;;
  cy_on cy "destroy" (this, Destroy) ;;;
  ret (mkPlugin this cy nodeLayer dragLayer selectBox).

(** [export function layers(this: cy.Core, cy: cy.Core = this)] *)
Definition layers (cy : nat) : M World LayersPlugin :=
  c <- core cy ;;
  match c_container c with
  | None => throw HeadlessError
  | Some _ =>
      (* ensure just one instance exists *)
      match c_scratch c !! "_layers" with
      | Some singleton => ret singleton
      | None =>
          plugin <- new_LayersPlugin cy ;;
          cy_scratch_set cy "_layers" plugin ;;;
          ret plugin
      end
  end.

(** A page as the host leaves it: the container [0] of core [0] holds
    the host's canvas container [1] with the three canvases; a second
    core [1] has container [5] set up the same way. *)
Definition host_page : World :=
  mkWorld
    (mkDocument
       (list_to_map [(1, 0); (2, 1); (3, 1); (4, 1);
                     (6, 5); (7, 6); (8, 6); (9, 6)]%nat)
       (list_to_map [(0, [1]); (1, [2; 3; 4]);
                     (5, [6]); (6, [7; 8; 9])]%nat)
       ∅
       (list_to_map [(2, "layer0-selectbox"); (3, "layer1-drag"); (4, "layer2-node");
                     (7, "layer0-selectbox"); (8, "layer1-drag"); (9, "layer2-node")]%nat)
       10)
    (list_to_map [(0, mkCore (Some 0) ∅ []); (1, mkCore (Some 5) ∅ []);
                  (2, mkCore None ∅ [])]%nat).

(** The plugin objects the accessor builds on [host_page] for cores [0]
    and [1], and the page after both calls. *)
Definition plugin0 : LayersPlugin :=
  mkPlugin 10 0 (mkLayer 11 4 4 TCyNode) (mkLayer 12 3 3 TCyDrag)
           (mkLayer 13 2 2 TCySelectBox).

Definition plugin1 : LayersPlugin :=
  mkPlugin 14 1 (mkLayer 15 9 9 TCyNode) (mkLayer 16 8 8 TCyDrag)
           (mkLayer 17 7 7 TCySelectBox).

Definition page1 : World := (layers 0 host_page).2.
Definition page2 : World := (layers 1 page1).2.

(** A session on the first stack: the caller holds the six host layers
    and has appended an SVG layer [layer_a] and an HTML layer [layer_b]. *)
Definition session0 : Session :=
  mkSession (w_doc page2)
            [selectBoxLayer plugin0; dragLayer plugin0; nodeLayer plugin0;
             selectBoxLayer plugin1; dragLayer plugin1; nodeLayer plugin1].

Definition demo : Session := run plugin0 session0 [OAppend KSvg; OAppend KHtml].

Definition layer_a : Layer := mkLayer 18 19 20 TSvg.
Definition layer_b : Layer := mkLayer 21 22 23 THtml.

End Accessor.


(** ** elements/nodes.ts: [renderPerNode] *)

Module Binding.

Abbreviation NodeId := nat.

(** [layer.type] of the three layer interfaces [renderPerNode] accepts. *)
Inductive LayerType : Type := canvas | html | svg.

(** [o.updateOn]: ['none'], ['render'] or the name of an element event. *)
Inductive UpdateOn : Type :=
| UNone
| URender
| UEvent (name : string).

(** [o.position] *)
Inductive PositionOption : Type := PNone | PTopLeft | PCenter.

Record BoundingBoxOptions : Type := mkBBO {
  includeLabels : bool;
  includeOverlays : bool }.

(** The options [o] once [Object.assign] has merged the defaults of
    [renderPerNode], those of [defaultElementLayerOptions] and the
    caller's.  The selector stands for the set of nodes it matches. *)
Record Options : Type := mkOptions {
  selector : NodeId -> bool;
  updateOn : UpdateOn;
  queryEachTime : bool;
  checkBounds : bool;
  position : PositionOption;
  boundingBox : BoundingBoxOptions;
  uniqueElements : bool;
  allowPartialUpdate : bool;
  transform : string }.

(** [o.updateOn !== 'none' && o.updateOn !== 'render'] *)
Definition element_event (o : Options) : option string :=
  match updateOn o with
  | UEvent name => Some name
  | UNone | URender => None
  end.

(** *** The host's emitter

    The host core keeps its listeners in registration order.  [cy.on]
    with several space-separated event names registers one listener per
    name, [cy.off] drops every listener with the given event, selector
    and callback, and [cy.one] registers a listener that is dropped when
    it fires.  Every delegated listener of a binding uses [o.selector]. *)

Inductive EventName : Type := EvAdd | EvRemove | EvRender.

(** The callbacks a binding hands to the host: its three closures, the
    layer's [updateOnRenderOnce] method, and (for completeness) callbacks
    of other code sharing the core. *)
Inductive Handler : Type :=
| HRevaluateAndUpdateOnce
| HRemoveNode
| HRenderOnce                (* the arrow function given to [cy.one('render', ...)] *)
| HLayerUpdateOnRenderOnce
| HOther (k : nat).

Record Listener : Type := mkListener {
  li_id : nat;
  li_event : EventName;
  li_delegated : bool;       (* registered with the selector [o.selector] *)
  li_handler : Handler;
  li_once : bool }.

#[export] Instance EventName_eq_dec : EqDecision EventName.
Proof. solve_decision. Defined.
#[export] Instance Handler_eq_dec : EqDecision Handler.
Proof. solve_decision. Defined.
#[export] Instance Listener_eq_dec : EqDecision Listener.
Proof. solve_decision. Defined.

(** What the binding asks of its layer and of the caller, in order.  The
    layer's own [update] and [updateOnRenderOnce] are not part of the
    sources; their calls are recorded. *)
Inductive Effect : Type :=
| EInitCollection (ns : list NodeId)      (* [o.initCollection(newNodes)] *)
| ELayerUpdate (node : option NodeId)     (* [layer.update()] / [layer.update(node)] *)
| ELayerUpdateOnRenderOnce.               (* [layer.updateOnRenderOnce()] *)

#[export] Instance Effect_eq_dec : EqDecision Effect.
Proof. solve_decision. Defined.

Record State : Type := mkState {
  live : list NodeId;                       (* the nodes in the graph *)
  cy_listeners : list Listener;             (* listeners on the core *)
  ele_listeners : list (NodeId * string * Handler);  (* listeners on elements *)
  next_listener : nat;
  nodes : list NodeId;                      (* [let nodes] *)
  updateOnRenderOnceEnabled : bool;         (* [let updateOnRenderOnceEnabled] *)
  layer_updateOnRender : bool;              (* [layer.updateOnRender] *)
  layer_updateOnTransform : bool;           (* [layer.updateOnTransform] *)
  registered : bool;                        (* the render callback is on the layer *)
  log : list Effect }.

Definition set_live (v : list NodeId) (s : State) : State :=
  mkState v (cy_listeners s) (ele_listeners s) (next_listener s) (nodes s)
          (updateOnRenderOnceEnabled s) (layer_updateOnRender s)
          (layer_updateOnTransform s) (registered s) (log s).
Definition set_cy_listeners (v : list Listener) (s : State) : State :=
  mkState (live s) v (ele_listeners s) (next_listener s) (nodes s)
          (updateOnRenderOnceEnabled s) (layer_updateOnRender s)
          (layer_updateOnTransform s) (registered s) (log s).
Definition set_ele_listeners (v : list (NodeId * string * Handler)) (s : State) : State :=
  mkState (live s) (cy_listeners s) v (next_listener s) (nodes s)
          (updateOnRenderOnceEnabled s) (layer_updateOnRender s)
          (layer_updateOnTransform s) (registered s) (log s).
Definition set_next_listener (v : nat) (s : State) : State :=
  mkState (live s) (cy_listeners s) (ele_listeners s) v (nodes s)
          (updateOnRenderOnceEnabled s) (layer_updateOnRender s)
          (layer_updateOnTransform s) (registered s) (log s).
Definition set_nodes (v : list NodeId) (s : State) : State :=
  mkState (live s) (cy_listeners s) (ele_listeners s) (next_listener s) v
          (updateOnRenderOnceEnabled s) (layer_updateOnRender s)
          (layer_updateOnTransform s) (registered s) (log s).
Definition set_enabled (v : bool) (s : State) : State :=
  mkState (live s) (cy_listeners s) (ele_listeners s) (next_listener s) (nodes s)
          v (layer_updateOnRender s) (layer_updateOnTransform s) (registered s)
          (log s).
Definition set_updateOnRender (v : bool) (s : State) : State :=
  mkState (live s) (cy_listeners s) (ele_listeners s) (next_listener s) (nodes s)
          (updateOnRenderOnceEnabled s) v (layer_updateOnTransform s)
          (registered s) (log s).
Definition set_updateOnTransform (v : bool) (s : State) : State :=
  mkState (live s) (cy_listeners s) (ele_listeners s) (next_listener s) (nodes s)
          (updateOnRenderOnceEnabled s) (layer_updateOnRender s) v
          (registered s) (log s).
Definition set_registered (v : bool) (s : State) : State :=
  mkState (live s) (cy_listeners s) (ele_listeners s) (next_listener s) (nodes s)
          (updateOnRenderOnceEnabled s) (layer_updateOnRender s)
          (layer_updateOnTransform s) v (log s).
Definition emit_effect (e : Effect) (s : State) : State :=
  mkState (live s) (cy_listeners s) (ele_listeners s) (next_listener s) (nodes s)
          (updateOnRenderOnceEnabled s) (layer_updateOnRender s)
          (layer_updateOnTransform s) (registered s) (log s ++ [e]).

(** [layer.cy.on(events, o.selector, h)], [layer.cy.one('render', h)] *)
Definition cy_register (ev : EventName) (delegated : bool) (h : Handler)
    (once : bool) (s : State) : State :=
  set_next_listener (S (next_listener s))
    (set_cy_listeners
       (cy_listeners s ++ [mkListener (next_listener s) ev delegated h once]) s).

Definition cy_on (evs : list EventName) (h : Handler) (s : State) : State :=
  foldl (fun s ev => cy_register ev true h false s) s evs.

Definition cy_one (ev : EventName) (h : Handler) (s : State) : State :=
  cy_register ev false h true s.

(** [layer.cy.off(events, o.selector, h)] *)
Definition cy_off (evs : list EventName) (h : Handler) (s : State) : State :=
  set_cy_listeners
    (filter (fun l => ~ (li_event l ∈ evs /\ li_delegated l = true /\ li_handler l = h))
            (cy_listeners s)) s.

(** [collection.on(event, h)] and [collection.off(event, undefined, h)]:
    on every element of the collection. *)
Definition coll_on (ns : list NodeId) (ev : string) (h : Handler) (s : State) : State :=
  set_ele_listeners (ele_listeners s ++ map (fun n => (n, ev, h)) ns) s.

Definition coll_off (ns : list NodeId) (ev : string) (h : Handler) (s : State) : State :=
  set_ele_listeners
    (filter (fun l => ~ (l.1.1 ∈ ns /\ l.1.2 = ev /\ l.2 = h)) (ele_listeners s)) s.

(** [layer.cy.nodes(o.selector)] *)
Definition cy_nodes (o : Options) (s : State) : list NodeId :=
  filter (fun n => selector o n = true) (live s).

(** *** The closures of [renderPerNode] *)

(** [const revaluateAndUpdateOnce = () => { ... }] *)
Definition revaluateAndUpdateOnce (s : State) : State :=
  if updateOnRenderOnceEnabled s then s
  else cy_one EvRender HRenderOnce (set_enabled true s).

(** [const removeNode = (e) => { ... }], with [node = e.target] *)
Definition removeNode (node : NodeId) (s : State) : State :=
  emit_effect (ELayerUpdate (Some node))
    (set_nodes (filter (fun n => n ≠ node) (nodes s)) s).

(** [const reevaluateCollection = (current) => { ... }] *)
Definition reevaluateCollection (o : Options) (current : list NodeId) (s : State)
  : list NodeId * State :=
  (* clean up old *)
  let s := match element_event o with
           | Some ev => coll_off current ev HLayerUpdateOnRenderOnce s
           | None => s
           end in
  let s := if allowPartialUpdate o then cy_off [EvRemove] HRemoveNode s else s in
  (* init new *)
  let newNodes := cy_nodes o s in
  let s := emit_effect (EInitCollection newNodes) s in
  let s := match element_event o with
           | Some ev => coll_on newNodes ev HLayerUpdateOnRenderOnce s
           | None => s
           end in
  let s := if allowPartialUpdate o then cy_on [EvRemove] HRemoveNode s else s in
  let s := emit_effect ELayerUpdateOnRenderOnce s in
  (newNodes, s).

(** [nodes = reevaluateCollection(nodes)] *)
Definition reevaluate_nodes (o : Options) (s : State) : State :=
  let (newNodes, s') := reevaluateCollection o (nodes s) s in
  set_nodes newNodes s'.

(** The listener [revaluateAndUpdateOnce] gives to [cy.one('render', ...)] *)
Definition renderOnce (o : Options) (s : State) : State :=
  let s := set_enabled false s in
  let s := reevaluate_nodes o s in
  emit_effect (ELayerUpdate None) s.

(** [renderPerNode(layer, render, options)] up to the registration of
    the render callback ([registerCallback] of elements/utils.ts, which
    is not among the sources, is taken to put the callback on the layer
    and to return the handle that takes it off again). *)
Definition renderPerNode (o : Options) (ty : LayerType) (s : State) : State :=
  let s := set_nodes [] s in
  let s := set_enabled false s in
  let s := match updateOn o with
           | URender => set_updateOnRender true s
           | _ => s
           end in
  let s := if queryEachTime o then s
           else
             let s := reevaluate_nodes o s in
             if allowPartialUpdate o && bool_decide (is_Some (element_event o))
             then cy_on [EvRemove] HRemoveNode
                    (cy_on [EvAdd] HRevaluateAndUpdateOnce s)
             else cy_on [EvAdd; EvRemove] HRevaluateAndUpdateOnce s in
  match ty with
  | canvas => set_registered true s
  | html | svg =>
      let s := if checkBounds o then set_updateOnTransform true s else s in
      set_registered true s
  end.

(** The [remove] of the returned [IRenderPerNodeResult] *)
Definition result_remove (o : Options) (s : State) : State :=
  let s := match element_event o with
           | Some ev =>
               let s := coll_off (nodes s) ev HLayerUpdateOnRenderOnce s in
               if allowPartialUpdate o then cy_off [EvRemove] HRemoveNode s else s
           | None => s
           end in
  let s := cy_off [EvAdd; EvRemove] HRevaluateAndUpdateOnce s in
  set_registered false s.

(** *** Events of the host *)

(** Whether a listener takes part in the emission of [ev] for [target]. *)
Definition listens (o : Options) (ev : EventName) (target : option NodeId)
    (l : Listener) : bool :=
  bool_decide (li_event l = ev)
  && (if li_delegated l
      then match target with Some n => selector o n | None => false end
      else true).

Definition run_handler (o : Options) (h : Handler) (target : option NodeId)
    (s : State) : State :=
  match h with
  | HRevaluateAndUpdateOnce => revaluateAndUpdateOnce s
  | HRemoveNode => match target with Some n => removeNode n s | None => s end
  | HRenderOnce => renderOnce o s
  | HLayerUpdateOnRenderOnce => emit_effect ELayerUpdateOnRenderOnce s
  | HOther _ => s
  end.

(** One listener's turn: a one-shot listener is dropped before it runs. *)
Definition fire (o : Options) (ev : EventName) (target : option NodeId)
    (s : State) (l : Listener) : State :=
  if listens o ev target l then
    let s := if li_once l
             then set_cy_listeners
                    (filter (fun l' => li_id l' ≠ li_id l) (cy_listeners s)) s
             else s in
    run_handler o (li_handler l) target s
  else s.

(** Emission runs the listeners present when it starts. *)
Definition emit (o : Options) (ev : EventName) (target : option NodeId)
    (s : State) : State :=
  foldl (fire o ev target) s (cy_listeners s).

Inductive HostEvent : Type :=
| Add (n : NodeId)       (* a node enters the graph: 'add' *)
| Remove (n : NodeId)    (* a node leaves the graph: 'remove' *)
| Render.                (* the host has drawn a frame: 'render' *)

(** An event of the host.  A new node goes to the end of [live] and a
    removal leaves the others in their order; the host itself promises
    no order of its pool, and where the order matters the pool is
    reordered by a step of its own. *)
Definition host_event (o : Options) (s : State) (e : HostEvent) : State :=

  match e with
  | Add n =>
      emit o EvAdd (Some n)
           (set_live (if decide (n ∈ live s) then live s else live s ++ [n]) s)
  | Remove n =>
      emit o EvRemove (Some n) (set_live (filter (fun m => m ≠ n) (live s)) s)
  | Render => emit o EvRender None s
  end.

Definition play (o : Options) (s : State) (es : list HostEvent) : State :=
  foldl (host_event o) s es.

(** *** What the claims speak of *)

#[export] Instance HostEvent_eq_dec : EqDecision HostEvent.
Proof. solve_decision. Defined.

(** Whether [renderPerNode] wires the scheduler to an event of the core
    (in cached mode): to ['add'] always, to ['remove'] unless partial
    updates handle removals one by one. *)
Definition wired (o : Options) (ev : EventName) : bool :=
  match ev with
  | EvAdd => true
  | EvRemove => negb (allowPartialUpdate o && bool_decide (is_Some (element_event o)))
  | EvRender => false
  end.

(** An event of the host that invalidates the cached collection: an
    add or remove of a node the selector matches, delivered to the
    scheduler. *)
Definition invalidating (o : Options) (e : HostEvent) : bool :=
  match e with
  | Add n => selector o n
  | Remove n => selector o n && wired o EvRemove
  | Render => false
  end.

(** The number of one-shot render listeners waiting on the core. *)
Definition pending (s : State) : nat :=
  length (filter (fun l => li_handler l = HRenderOnce) (cy_listeners s)).

(** The callbacks of the binding that are still on the core. *)
Definition own (h : Handler) : bool :=
  match h with
  | HOther _ => false
  | _ => true
  end.

Definition own_listeners (s : State) : list Listener :=
  filter (fun l => own (li_handler l) = true) (cy_listeners s).

(** The listeners of other code on the core, numbered from [i]. *)
Fixpoint foreign_listeners
 (i : nat) (others : list (EventName * nat))
  : list Listener :=
  match others with
  | [] => []
  | (ev, k) :: rest =>
      mkListener i ev false (HOther k) false :: foreign_listeners (S i) rest
  end.

(** A host with the nodes [ns] in its graph and the listeners [others]
    of other code on its core, before any binding exists. *)
Definition fresh_host (ns : list NodeId) (others : list (EventName * nat)) : State :=

  mkState ns (foreign_listeners 0 others) [] (length others)
          [] false false false false [].


(** *** Rendering

    Coordinates are JavaScript numbers; the render code only adds and
    multiplies them (inside [ctx.translate]) and prints them (inside the
    template literals).  The development is parametric in the type of
    numbers and in these operations.  [paint] is what a canvas holds,
    [content] what a DOM element holds besides its transform. *)

Section Rendering.

Context {num paint content : Type}.
Variable num_add num_mul : num -> num -> num.
Variable num_show : num -> string.

(** [cy.BoundingBox12 & cy.BoundingBoxWH] *)
Record BoundingBox : Type := mkBB {
  x1 : num; x2 : num; y1 : num; y2 : num; w : num; h : num }.

(** [cy.Position] *)
Record Point : Type := mkPoint { px : num; py : num }.

(** What the host answers for a node: [node.position()] and
    [node.boundingBox(options)]. *)
Record Geometry : Type := mkGeometry {
  node_position : NodeId -> Point;
  node_boundingBox : NodeId -> BoundingBoxOptions -> BoundingBox }.

(** [layer.inVisibleBounds(bb)], a method of the layer classes, which
    are not among the sources. *)
Variable inVisibleBounds : BoundingBox -> bool.

Record IRenderHint : Type := mkHint { forExport : bool }.

(** **** Canvas layers *)

(** The current transformation matrix of a 2D context, as [DOMMatrix]
    gives it: [x' = a x + c y + e], [y' = b x + d y + f]. *)
Record DOMMatrix : Type := mkMatrix {
  m_a : num; m_b : num; m_c : num; m_d : num; m_e : num; m_f : num }.

Record Ctx : Type := mkCtx {
  ctx_transform : DOMMatrix;
  ctx_paint : paint }.

(** [ctx.translate(x, y)] *)
Definition translate (m : DOMMatrix) (x y : num) : DOMMatrix :=
  mkMatrix (m_a m) (m_b m) (m_c m) (m_d m)
           (num_add (num_add (num_mul (m_a m) x) (num_mul (m_c m) y)) (m_e m))
           (num_add (num_add (num_mul (m_b m) x) (num_mul (m_d m) y)) (m_f m)).

Definition ctx_translate (ctx : Ctx) (x y : num) : Ctx :=
  mkCtx (translate (ctx_transform ctx) x y) (ctx_paint ctx).

(** [ctx.setTransform(t)] *)
Definition ctx_setTransform (ctx : Ctx) (t : DOMMatrix) : Ctx :=
  mkCtx t (ctx_paint ctx).

(** The caller's [render(ctx, node, bb)] *)
Definition CanvasRender : Type := Ctx -> NodeId -> BoundingBox -> Ctx.

(** One invocation of the caller's [render], with the transform of the
    context when the iteration for the node began, the context handed to
    [render], and the transform when the iteration ended. *)
Record Call : Type := mkCall {
  call_node : NodeId;
  call_bb : BoundingBox;
  call_before : DOMMatrix;
  call_ctx : Ctx;
  call_after : DOMMatrix }.

(** [node.removed()] *)
Definition removed (s : State) (node : NodeId) : bool :=
  bool_decide (node ∉ live s).

(** The body of [nodes.forEach((node) => { ... })] in the canvas
    renderer, [t] being the transform saved before the loop.  The calls
    of [render] are collected alongside the context. *)
Definition draw_node (o : Options) (g : Geometry) (render : CanvasRender)
    (hint : IRenderHint) (s : State) (t : DOMMatrix)
    (acc : Ctx * list Call) (node : NodeId) : Ctx * list Call :=
  let (ctx, calls) := acc in
  if removed s node then acc
  else
    let bb := node_boundingBox g node (boundingBox o) in
    if negb (forExport hint) && checkBounds o && negb (inVisibleBounds bb) then acc
    else
      let ctx1 := match position o with
                  | PTopLeft => ctx_translate ctx (x1 bb) (y1 bb)
                  | PCenter => let pos := node_position g node in
                               ctx_translate ctx (px pos) (py pos)
                  | PNone => ctx
                  end in
      let ctx2 := render ctx1 node bb in
      let ctx3 := match position o with
                  | PNone => ctx2
                  | PTopLeft | PCenter => ctx_setTransform ctx2 t
                  end in
      (ctx3, calls ++ [mkCall node bb (ctx_transform ctx) ctx1 (ctx_transform ctx3)]).

(** [const renderer = (ctx, hint) => { ... }] of the canvas branch *)
Definition canvas_renderer (o : Options) (g : Geometry) (render : CanvasRender)
    (s : State) (ctx : Ctx) (hint : IRenderHint) : State * (Ctx * list Call) :=
  let t := ctx_transform ctx in
  let s := if queryEachTime o then reevaluate_nodes o s else s in
  (s, foldl (draw_node o g render hint s t) (ctx, []) (nodes s)).

(** **** HTML and SVG layers *)

(** A render target: the element made for one node. *)
Record Elem : Type := mkElem {
  el_tag : string;
  el_style_position : string;     (* [style.position] *)
  el_style_transform : string;    (* [style.transform] *)
  el_attr_transform : string;     (* the [transform] attribute *)
  el_content : content }.

(** The caller's [render(elem, node, bb)] and the optional [init]. *)
Definition DomRender : Type := Elem -> NodeId -> BoundingBox -> Elem.

(** [IMatchOptions] *)
Record MatchOptions : Type := mkMatchOptions {
  mo_bb : NodeId -> BoundingBox;
  mo_isVisible : BoundingBox -> bool;
  mo_uniqueElements : bool;
  mo_allowPartialUpdate : bool;
  mo_enter : NodeId -> BoundingBox -> Elem;
  mo_update : Elem -> NodeId -> BoundingBox -> Elem }.

(** [baseOptions.isVisible] *)
Definition isVisible (o : Options) : BoundingBox -> bool :=
  if checkBounds o then (fun bb => inVisibleBounds bb) else (fun _ => true).

(** [enter] of the HTML branch; [blank] is the content of a new element *)
Definition enter_html (blank : content) (init : option DomRender)
    (node : NodeId) (bb : BoundingBox) : Elem :=
  let r := mkElem "div" "absolute" "" "" blank in
  match init with
  | Some f => f r node bb
  | None => r
  end.

(** [update] of the HTML branch *)
Definition update_html (o : Options) (g : Geometry) (render : DomRender)
    (elem : Elem) (node : NodeId) (bb : BoundingBox) : Elem :=
  let elem :=
    match position o with
    | PTopLeft =>
        mkElem (el_tag elem) (el_style_position elem)
               (transform o +:+ "translate3d(" +:+ num_show (x1 bb) +:+ "px,"
                  +:+ num_show (y1 bb) +:+ "px,0)")
               (el_attr_transform elem) (el_content elem)
    | PCenter =>
        let pos := node_position g node in
        mkElem (el_tag elem) (el_style_position elem)
               (transform o +:+ "translate3d(" +:+ num_show (px pos) +:+ "px,"
                  +:+ num_show (py pos) +:+ "px,0)")
               (el_attr_transform elem) (el_content elem)
    | PNone => elem
    end in
  render elem node bb.

(** [enter] of the SVG branch *)
Definition enter_svg (blank : content) (init : option DomRender)
    (node : NodeId) (bb : BoundingBox) : Elem :=
  let r := mkElem "g" "" "" "" blank in
  match init with
  | Some f => f r node bb
  | None => r
  end.

(** [update] of the SVG branch *)
Definition update_svg (o : Options) (g : Geometry) (render : DomRender)
    (elem : Elem) (node : NodeId) (bb : BoundingBox) : Elem :=
  let elem :=
    match position o with
    | PTopLeft =>
        mkElem (el_tag elem) (el_style_position elem) (el_style_transform elem)
               (transform o +:+ "translate3d(" +:+ num_show (x1 bb) +:+ ","
                  +:+ num_show (y1 bb) +:+ ",0)")
               (el_content elem)
    | PCenter =>
        let pos := node_position g node in
        mkElem (el_tag elem) (el_style_position elem) (el_style_transform elem)
               (transform o +:+ "translate3d(" +:+ num_show (px pos) +:+ ","
                  +:+ num_show (py pos) +:+ ",0)")
               (el_content elem)
    | PNone => elem
    end in
  render elem node bb.

(** [matchOptions]: [{ ...baseOptions, enter, update }] *)
Definition matchOptions (o : Options) (g : Geometry) (ty : LayerType)
    (blank : content) (init : option DomRender) (render : DomRender)
  : MatchOptions :=
  mkMatchOptions
    (fun node => node_boundingBox g node (boundingBox o))
    (isVisible o)
    (uniqueElements o || allowPartialUpdate o)
    (allowPartialUpdate o)
    (match ty with svg => enter_svg blank init | _ => enter_html blank init end)
    (match ty with svg => update_svg o g render | _ => update_html o g render end).

(** The targets under the layer's node, each with the node it was made
    for, and a collection of node objects as [matchNodes] receives it:
    each node with what [node.removed()] answers. *)
Definition Root : Type := list (NodeId * Elem).

Definition collection (s : State) (ns : list NodeId) : list (NodeId * bool) :=
  map (fun n => (n, removed s n)) ns.

(** [matchNodes(root, nodes, options)] of elements/utils.ts, which is
    not among the sources, is a parameter of the DOM renderers. *)
Definition MatchNodes : Type :=
  Root -> list (NodeId * bool) -> MatchOptions -> Root.

(** [const renderer = (root, node) => { ... }] of the HTML and SVG
    branches; [node] is the optional argument of [layer.update(node)]. *)
Definition dom_renderer (matchNodes : MatchNodes) (o : Options) (g : Geometry)
    (ty : LayerType) (blank : content) (init : option DomRender)
    (render : DomRender) (s : State) (root : Root) (node : option NodeId)
  : State * Root :=
  let mo := matchOptions o g ty blank init render in
  if queryEachTime o then
    let s := reevaluate_nodes o s in
    (s, matchNodes root (collection s (nodes s)) mo)
  else
    match node with
    | Some n => (s, matchNodes root (collection s [n]) mo)
    | None => (s, matchNodes root (collection s (nodes s)) mo)
    end.

(** A repaint of an HTML or SVG layer.  The callback registered for
    such a layer takes the layer's node and the optional element, it has
    no parameter for a render hint: whether the pass is meant for export
    or not, the callback is called the same way. *)
Definition dom_pass (hint : IRenderHint) (matchNodes : MatchNodes) (o : Options)
    (g : Geometry) (ty : LayerType) (blank : content) (init : option DomRender)
    (render : DomRender) (s : State) (root : Root) : State * Root :=
  dom_renderer matchNodes o g ty blank init render s root None.

(** Modelled from the spec: [matchNodes] (elements/utils.ts) is not
    among the sources.  "For elements with no existing render target:
    invoke an enter callback to materialize one; if unique-elements is
    off, every tick conceptually re-creates all targets; if on, the
    target persists keyed by element identity.  For elements with an
    existing render target: invoke update.  For stale targets whose
    element no longer participates: remove them.  Visibility culling: an
    element whose bounding box does not intersect the visible viewport
    region is skipped for rendering but its target is not necessarily
    destroyed (skip render, keep association)."  "A render target is
    never rendered for a removed host element."  Under partial update a
    call for a single node patches that node's target and leaves the
    others alone. *)
Definition match_one (root : Root) (mo : MatchOptions) (n : NodeId * bool)
  : option (NodeId * Elem) :=
  let existing := if mo_uniqueElements mo
                  then snd <$> list_find (fun t => t.1 = n.1) root
                  else None in
  if n.2 then None
  else
    let bb := mo_bb mo n.1 in
    if mo_isVisible mo bb
    then Some (n.1, mo_update mo (default (mo_enter mo n.1 bb) (snd <$> existing)) n.1 bb)
    else existing.

Definition matchNodes_spec : MatchNodes :=
  fun root ns mo =>
    match ns with
    | [n] =>
        if mo_allowPartialUpdate mo
        then filter (fun t => t.1 ≠ n.1) root ++ option_list (match_one root mo n)
        else omap (match_one root mo) ns
    | _ => omap (match_one root mo) ns
    end.

End Rendering.

(** *** A concrete host: integer coordinates *)

(** Integer coordinates printed in decimal, as a template literal
    prints the integers below [1e21]; the theorems are stated for any
    [num_show]. *)
Definition Z_show (z : Z) : string := pretty z.


Definition identity_matrix : @DOMMatrix Z := mkMatrix 1 0 0 1 0 0.

(** Two nodes, [1] at position (10, 20) with the box (4,14)-(16,26) and
    [2] at position (40, 50) with the box (30,45)-(50,55); labels make a
    box 10 wider on each side. *)
Definition demo_geometry : @Geometry Z :=
  mkGeometry
    (fun n => if decide (n = 1%nat) then mkPoint 10 20 else mkPoint 40 50)
    (fun n opt =>
       let pad := if includeLabels opt then 10 else 0 in
       if decide (n = 1%nat)
       then mkBB (4 - pad) (16 + pad) 14 26 (12 + 2 * pad) 12
       else mkBB (30 - pad) (50 + pad) 45 55 (20 + 2 * pad) 10).

(** An explicit option record for the examples: the values
    [renderPerNode] itself lists (position ['top-left'], bounding box
    without labels and overlays, no unique elements, no partial update,
    empty transform), and for the rest every node selected, [updateOn]
    ['none'], cached collection, no bounds check.  (What
    [defaultElementLayerOptions] of elements/common.ts fills in is not
    among the sources; these need not be its values.) *)

Definition default_options : Options :=
  mkOptions (fun _ => true) UNone false false PTopLeft (mkBBO false false)
            false false "".

Definition with_position (p : PositionOption) (o : Options) : Options :=
  mkOptions (selector o) (updateOn o) (queryEachTime o) (checkBounds o) p
            (boundingBox o) (uniqueElements o) (allowPartialUpdate o) (transform o).

Definition with_checkBounds (b : bool) (o : Options) : Options :=
  mkOptions (selector o) (updateOn o) (queryEachTime o) b (position o)
            (boundingBox o) (uniqueElements o) (allowPartialUpdate o) (transform o).

Definition with_updateOn (u : UpdateOn) (o : Options) : Options :=
  mkOptions (selector o) u (queryEachTime o) (checkBounds o) (position o)
            (boundingBox o) (uniqueElements o) (allowPartialUpdate o) (transform o).

Definition with_allowPartialUpdate (b : bool) (o : Options) : Options :=
  mkOptions (selector o) (updateOn o) (queryEachTime o) (checkBounds o) (position o)
            (boundingBox o) (uniqueElements o) b (transform o).

Definition with_boundingBox (b : BoundingBoxOptions) (o : Options) : Options :=
  mkOptions (selector o) (updateOn o) (queryEachTime o) (checkBounds o) (position o)
            b (uniqueElements o) (allowPartialUpdate o) (transform o).

(** A draw callback that shifts the context one unit to the right and
    notes the node it was called for. *)
Definition shifting_render : @CanvasRender Z (list NodeId) :=
  fun ctx node _ =>
    mkCtx (translate Z.add Z.mul (ctx_transform ctx) 1 0) (ctx_paint ctx ++ [node]).

(** A callback for elements that counts how often each was rendered. *)
Definition counting_render : @DomRender Z nat :=
  fun elem _ _ =>
    mkElem (el_tag elem) (el_style_position elem) (el_style_transform elem)
           (el_attr_transform elem) (S (el_content elem)).

(** A binding on a host with the nodes [1] and [2], and an untouched
    context. *)
Definition demo_state (o : Options) (ty : LayerType) : State :=
  renderPerNode o ty (fresh_host [1; 2]%nat []).

Definition blank_ctx : @Ctx Z (list NodeId) := mkCtx identity_matrix [].

(** A layer that shows the boxes left of [x = 20]: node [1] is in view,
    node [2] is not. *)
Definition left_part : @BoundingBox Z -> bool := fun bb => x1 bb <? 20.

End Binding.



(** * Properties of the layer stack *)

Module StackFacts.
Import Dom Stack Accessor.

(** ** Projections of the DOM primitives *)

Lemma kids_set_kids p l d r :
  kids (set_kids p l d) r = if decide (p = r) then l else kids d r.
Proof.
  unfold kids, set_kids; simpl. rewrite lookup_insert.
  destruct (decide (p = r)); reflexivity.
Qed.

Lemma kids_set_parent n q d r : kids (set_parent n q d) r = kids d r.
Proof. reflexivity. Qed.

Lemma parent_set_parent n q d x :
  d_parent (set_parent n q d) !! x = if decide (n = x) then q else d_parent d !! x.
Proof.
  unfold set_parent; simpl. destruct q.
  - rewrite lookup_insert. destruct (decide (n = x)); reflexivity.
  - rewrite lookup_delete. destruct (decide (n = x)); reflexivity.
Qed.

Lemma kids_detach n d r c : c ∈ kids (detach n d) r -> c ∈ kids d r.
Proof.
  unfold detach. destruct (d_parent d !! n) as [p|]; [|tauto].
  rewrite kids_set_parent, kids_set_kids.
  destruct (decide (p = r)) as [->|]; [|tauto].
  intros H. apply list_elem_of_filter in H. tauto.
Qed.

Lemma parent_detach n d x :
  d_parent (detach n d) !! x = if decide (n = x) then None else d_parent d !! x.
Proof.
  unfold detach. destruct (d_parent d !! n) as [p|] eqn:E.
  - rewrite parent_set_parent. reflexivity.
  - destruct (decide (n = x)); congruence.
Qed.

Lemma layer_detach n d : d_layer (detach n d) = d_layer d.
Proof. unfold detach. destruct (d_parent d !! n); reflexivity. Qed.

Lemma next_detach n d : d_next (detach n d) = d_next d.
Proof. unfold detach. destruct (d_parent d !! n); reflexivity. Qed.

Lemma elem_of_insert_before_in n ref l c :
  c ∈ insert_before_in n ref l <-> c = n \/ c ∈ l.
Proof.
  induction l as [|a l IH]; simpl.
  - rewrite list_elem_of_singleton, elem_of_nil. tauto.
  - destruct (decide (a = ref)); rewrite !elem_of_cons; [|rewrite IH]; tauto.
Qed.

Lemma elem_of_insert_after_in n ref l c :
  c ∈ insert_after_in n ref l <-> c = n \/ c ∈ l.
Proof.
  induction l as [|a l IH]; simpl.
  - rewrite list_elem_of_singleton, elem_of_nil. tauto.
  - destruct (decide (a = ref)); rewrite !elem_of_cons; [|rewrite IH]; tauto.
Qed.

(** [placed p n d d']: [d'] is [d] with element [n] taken out of its
    old parent and put somewhere among the children of [p]. *)
Record placed (p n : nat) (d d' : Document) : Prop := mkPlaced {
  placed_layer : d_layer d' = d_layer d;
  placed_next : d_next d' = d_next d;
  placed_in : n ∈ kids d' p;
  placed_kids : forall r c, c ∈ kids d' r -> c ∈ kids d r \/ (r = p /\ c = n);
  placed_parent : forall x,
    d_parent d' !! x = if decide (n = x) then Some p else d_parent d !! x }.

Lemma placed_intro p n d l :
  n ∈ l ->
  (forall c, c ∈ l -> c = n \/ c ∈ kids (detach n d) p) ->
  placed p n d (set_parent n (Some p) (set_kids p l (detach n d))).
Proof.
  intros Hin Hl. split.
  - simpl. apply layer_detach.
  - simpl. apply next_detach.
  - rewrite kids_set_parent, kids_set_kids. rewrite decide_True by done. done.
  - intros r c. rewrite kids_set_parent, kids_set_kids.
    destruct (decide (p = r)) as [->|].
    + intros H. destruct (Hl _ H) as [->|H']; [tauto|].
      left. eapply kids_detach, H'.
    + intros H. left. eapply kids_detach, H.
  - intros x. rewrite parent_set_parent.
    destruct (decide (n = x)); [done|].
    simpl. rewrite parent_detach. rewrite decide_False by done. done.
Qed.

Lemma appendChild_placed p n d :
  exists d', appendChild p n d = (Ok tt, d') /\ placed p n d d'.
Proof.
  eexists; split; [reflexivity|]. apply placed_intro.
  - rewrite elem_of_app, list_elem_of_singleton. tauto.
  - intros c. rewrite elem_of_app, list_elem_of_singleton. tauto.
Qed.

Lemma insertBefore_cases p n ref d :
  (insertBefore p n ref d = (Throw NotFoundError, d) /\ ref ∉ kids d p)
  \/ (insertBefore p n ref d = (Ok tt, d) /\ n = ref /\ ref ∈ kids d p)
  \/ (exists d', insertBefore p n ref d = (Ok tt, d') /\ placed p n d d').
Proof.
  unfold insertBefore.
  destruct (decide (ref ∈ kids d p)); [|tauto].
  destruct (decide (n = ref)); [tauto|].
  right; right. eexists; split; [reflexivity|]. apply placed_intro.
  - apply elem_of_insert_before_in; tauto.
  - intros c. rewrite elem_of_insert_before_in. tauto.
Qed.

Lemma insertAdjacentElement_cases ref w n d :
  (insertAdjacentElement ref w n d = (Ok None, d) /\ d_parent d !! ref = None)
  \/ (insertAdjacentElement ref w n d = (Ok (Some n), d) /\ n = ref)
  \/ (exists p d', insertAdjacentElement ref w n d = (Ok (Some n), d')
                   /\ d_parent d !! ref = Some p /\ placed p n d d').
Proof.
  unfold insertAdjacentElement.
  destruct (d_parent d !! ref) as [p|]; [|tauto].
  destruct (decide (n = ref)); [tauto|].
  right; right. exists p. eexists; split; [reflexivity|]. split; [done|].
  apply placed_intro; destruct w.
  - apply elem_of_insert_before_in; tauto.
  - apply elem_of_insert_after_in; tauto.
  - intros c. rewrite elem_of_insert_before_in. tauto.
  - intros c. rewrite elem_of_insert_after_in. tauto.
Qed.


Lemma inv_handle_low p r hs d l :
  stack_inv p r hs d -> l ∈ hs -> (l_root l < d_next d)%nat /\ tagged_root d (l_root l).
Proof.
  intros (_ & _ & _ & Ht & _ & Hh) Hl.
  rewrite Forall_forall in Hh. specialize (Hh _ Hl). split.
  - eapply (Ht _ _ Hh).
  - unfold tagged_root. rewrite Hh. reflexivity.
Qed.

Lemma inv_placed p r hs d d' q n :
  stack_inv p r hs d -> placed q n d d' ->
  (q = r -> tagged_root d n) -> (n = l_node (nodeLayer p) -> q = r) ->
  stack_inv p r hs d'.
Proof.
  intros (Hr & Hn & Hlow & Ht & Hk & Hh) [Hl Hx Hin Hkids Hpar] Htag Hnl.
  unfold stack_inv, root, tagged_root in *. rewrite Hl, Hx, Hpar.
  repeat split; try done.
  - destruct (decide (n = l_node (nodeLayer p))) as [e|]; [|done].
    rewrite (Hnl e). reflexivity.
  - rewrite Forall_forall in *. intros c Hc.
    destruct (Hkids _ _ Hc) as [H|[-> ->]]; auto.
Qed.

(** A freshly constructed layer object: its elements are new, the old
    back-references, parents and child lists are as before, except for
    the element [inner] put inside the new root. *)
Definition fresh_layer (d d' : Document) (l : Layer) : Prop :=
  (d_next d <= l_root l)%nat
  /\ (d_next d <= d_next d')%nat
  /\ d_layer d' !! l_root l = Some l
  /\ map_Forall (fun e _ => (e < d_next d')%nat) (d_layer d')
  /\ (forall e, (e < d_next d)%nat -> d_layer d' !! e = d_layer d !! e)
  /\ (forall e c, (e < d_next d)%nat -> c ∈ kids d' e -> c ∈ kids d e)

  /\ (forall e, (e < d_next d)%nat -> d_parent d' !! e = d_parent d !! e)
  /\ (d_parent d !! l_root l = None -> d_parent d' !! l_root l = None).


Lemma tags_bounded_insert (m : gmap nat Layer) (n k : nat) (l : Layer) :
  map_Forall (fun e _ => (e < n)%nat) m -> (k < n)%nat ->
  map_Forall (fun e _ => (e < n)%nat) (<[k := l]> m).
Proof. intros H Hk. apply map_Forall_insert_2; done. Qed.

Lemma tags_bounded_mono (m : gmap nat Layer) (n n' : nat) :
  map_Forall (fun e _ => (e < n)%nat) m -> (n <= n')%nat ->
  map_Forall (fun e _ => (e < n')%nat) m.
Proof. intros H Hn e l Hl. specialize (H e l Hl). simpl in *. lia. Qed.

Ltac run_constructor :=
  cbv [createLayer new_SVGLayer new_HTMLLayer new_CanvasLayer bind newObject
       createElement set_cy_layer modify ret];
  cbn [d_next d_parent d_children d_layer d_dataid].

Ltac fresh_two_elements Ht :=
  match goal with |- context [appendChild ?p ?n ?x] =>
    let d' := fresh "d'" in
    destruct (appendChild_placed p n x) as (d' & -> & [Hl Hx Hin Hk Hp]);
    cbn [d_next d_parent d_children d_layer d_dataid] in *;
    eexists _, d'; split; [reflexivity|];
    unfold fresh_layer; cbn [l_root l_node]; rewrite Hl, Hx;
    repeat split;
    [ lia
    | lia
    | rewrite lookup_insert_ne by lia; apply lookup_insert_eq
    | repeat apply tags_bounded_insert; try lia;
      eapply tags_bounded_mono; [exact Ht|lia]
    | intros e He; rewrite !lookup_insert_ne by lia; reflexivity
    | intros e c He Hc; destruct (Hk _ _ Hc) as [H|[-> _]]; [exact H|lia]
    | intros e He; rewrite Hp; rewrite decide_False by lia; reflexivity
    | intros He; rewrite Hp; rewrite decide_False by lia; exact He ]

  end.



Lemma createLayer_fresh k d :
  map_Forall (fun e _ => (e < d_next d)%nat) (d_layer d) ->
  exists l d', createLayer k d = (Ok l, d') /\ fresh_layer d d' l.
Proof.
  intros Ht. destruct k; run_constructor.
  - fresh_two_elements Ht.
  - fresh_two_elements Ht.
  - eexists _, _; split; [reflexivity|].
    unfold fresh_layer; cbn [l_root l_node d_next d_parent d_children d_layer].
    repeat split; try lia; try done.
    + apply lookup_insert_eq.
    + apply tags_bounded_insert; [|lia]. eapply tags_bounded_mono; [exact Ht|lia].
    + intros e He. rewrite lookup_insert_ne by lia. reflexivity.
Qed.

Lemma inv_fresh_layer p r hs d d' l :
  stack_inv p r hs d -> fresh_layer d d' l -> stack_inv p r (hs ++ [l]) d'.
Proof.
  intros (Hr & Hn & Hlow & Ht & Hk & Hh) (F1 & F2 & F3 & F4 & F5 & F6 & F7 & _).
  unfold stack_inv, root, tagged_root in *.
  repeat split; try lia; try done.
  - rewrite F7 by lia. exact Hr.
  - rewrite Forall_forall in *. intros c Hc.
    apply F6 in Hc; [|lia]. specialize (Hk _ Hc).
    destruct (d_layer d !! c) as [lc|] eqn:E; [|discriminate].
    rewrite F5; [rewrite E; exact Hk|]. apply (Ht _ _ E).
  - apply Forall_app; split; [|repeat constructor; exact F3].
    rewrite Forall_forall in *. intros h Hhs. specialize (Hh _ Hhs).
    rewrite F5; [exact Hh|]. apply (Ht _ _ Hh).
Qed.

Lemma layers_of_tagged d (l : list nat) :
  Forall (tagged_root d) l ->
  map l_root (omap (fun c => d_layer d !! c) l) = l.
Proof.
  induction 1 as [|c l Hc _ IH]; [reflexivity|].
  unfold tagged_root in Hc. simpl.
  destruct (d_layer d !! c) as [lc|]; [|discriminate].
  simpl in *. injection Hc as ->. f_equal. exact IH.
Qed.

(** Reading the stack never changes the document and yields, child by
    child, the layer each child of the container points back to. *)
Lemma layers_read p r hs d :
  stack_inv p r hs d ->
  Stack.layers p d = (Ok (omap (fun c => d_layer d !! c) (kids d r)), d)
  /\ map l_root (omap (fun c => d_layer d !! c) (kids d r)) = kids d r.
Proof.
  intros (Hr & _ & _ & _ & Hk & _). split.
  - unfold Stack.layers, bind. rewrite Hr. reflexivity.
  - apply layers_of_tagged, Hk.
Qed.

Lemma append_inv p r hs d k :
  stack_inv p r hs d ->
  exists l d', append p k d = (Ok l, d') /\ stack_inv p r (hs ++ [l]) d'.
Proof.
  intros Hinv.
  destruct (createLayer_fresh k d) as (l & d1 & Hc & Hf); [apply Hinv|].
  pose proof (inv_fresh_layer _ _ _ _ _ _ Hinv Hf) as Hinv1.
  unfold append, bind. rewrite Hc.
  destruct Hinv1 as (Hr & Hrest). rewrite Hr. cbn [nonnull ret].
  destruct (appendChild_placed r (l_root l) d1) as (d2 & -> & Hpl).
  exists l, d2. split; [reflexivity|].
  eapply inv_placed; [split; [exact Hr|exact Hrest] | exact Hpl | | done].
  intros _. eapply inv_handle_low; [split; [exact Hr|exact Hrest]|].
  rewrite elem_of_app, list_elem_of_singleton. tauto.
Qed.

Lemma insert_inv p r hs d w ref k :
  stack_inv p r hs d ->
  exists l d', insert p w ref k d = (Ok l, d') /\ stack_inv p r (hs ++ [l]) d'.
Proof.
  intros Hinv.
  destruct (createLayer_fresh k d) as (l & d1 & Hc & Hf); [apply Hinv|].
  pose proof (inv_fresh_layer _ _ _ _ _ _ Hinv Hf) as Hinv1.
  unfold insert, bind. rewrite Hc.
  destruct (insertAdjacentElement_cases (l_root ref) w (l_root l) d1)
    as [[-> _]|[[-> _]|(q & d2 & -> & Hq & Hpl)]];
    [exists l, d1; split; [reflexivity|exact Hinv1] ..|].
  exists l, d2; split; [reflexivity|].

  eapply inv_placed; [exact Hinv1 | exact Hpl | |].
  - intros _. eapply inv_handle_low; [exact Hinv1|].
    rewrite elem_of_app, list_elem_of_singleton. tauto.
  - destruct Hinv as (_ & Hn & _), Hf as (F1 & _). lia.
Qed.

Lemma move_inv p r hs d layer offset :
  stack_inv p r hs d -> layer ∈ hs ->
  stack_inv p r hs (move p layer offset d).2.
Proof.
  intros Hinv Hl.
  destruct (layers_read _ _ _ _ Hinv) as [Hread _].
  pose proof Hinv as (Hr & _).
  unfold move, bind. rewrite Hread.
  set (ls := omap _ _).
  destruct (decide (move_target _ _ _ = _)); [exact Hinv|].
  destruct (decide (_ >= _)).
  - rewrite Hr. cbn [nonnull ret].
    destruct (appendChild_placed r (l_root layer) d) as (d2 & -> & Hpl).
    eapply inv_placed; [exact Hinv | exact Hpl | | done].
    intros _. eapply inv_handle_low; eauto.
  - rewrite Hr. cbn [nonnull ret].
    destruct (at_index ls _) as [t|]; [|exact Hinv]. cbn [nonnull ret].
    destruct (insertBefore_cases r (l_root layer) (l_root t) d)
      as [[-> _]|[[-> _]|(d2 & -> & Hpl)]]; try exact Hinv.
    eapply inv_placed; [exact Hinv | exact Hpl | | done].
    intros _. eapply inv_handle_low; eauto.
Qed.

Lemma step_inv p r s op :
  stack_inv p r (s_handles s) (s_doc s) ->
  stack_inv p r (s_handles (step p s op)) (s_doc (step p s op)).
Proof.
  intros Hinv. destruct op as [k|w i k|i offset]; simpl.
  - destruct (append_inv _ _ _ _ k Hinv) as (l & d' & -> & H). exact H.
  - destruct (s_handles s !! i) as [ref|] eqn:E; [|exact Hinv].
    destruct (insert_inv _ _ _ _ w ref k Hinv) as (l & d' & -> & H). exact H.
  - destruct (s_handles s !! i) as [layer|] eqn:E; [|exact Hinv].
    simpl. apply move_inv; [exact Hinv|].
    eapply list_elem_of_lookup_2, E.
Qed.

Lemma run_inv p r ops : forall s,
  stack_inv p r (s_handles s) (s_doc s) ->
  stack_inv p r (s_handles (run p s ops)) (s_doc (run p s ops)).
Proof.
  induction ops as [|op ops IH]; intros s Hinv; [exact Hinv|].
  simpl. apply IH, step_inv, Hinv.
Qed.

(** ** Enumeration and the live child order *)

(** C3: after every sequence of append, insert and move operations on a
    stack (hence at every point of such a sequence), [getLayers] reads
    the container as it is now, leaves it untouched, and returns exactly
    the layers whose roots are the container's children, in the
    container's child order.  The plugin object holds no list of layers
    of its own: [getLayers] is a function of the document alone. *)
Theorem enumerate_is_child_order p r s ops :
  stack_inv p r (s_handles s) (s_doc s) ->
  let d := s_doc (run p s ops) in
  exists ls, getLayers p d = (Ok ls, d)
             /\ root p d = Some r
             /\ ls = omap (fun c => d_layer d !! c) (kids d r)
             /\ map l_root ls = kids d r.
Proof.
  intros Hinv d.
  pose proof (run_inv p r ops s Hinv) as Hd. fold d in Hd.
  destruct (layers_read _ _ _ _ Hd) as [Hread Hmap].
  eexists. split; [exact Hread|]. split; [apply Hd|]. split; [reflexivity|exact Hmap].
Qed.

Lemma enumerate_is_child_order_witness :
  stack_inv plugin0 1 (s_handles session0) (s_doc session0)
  /\ let d := s_doc (run plugin0 session0
                       [OAppend KSvg; OAppend KHtml; OInsert Before 7 KSvg;
                        OMove 6 1; OMove 1 (-5); OMove 5 2; OInsert After 3 (KRender 0)]) in
     exists ls, getLayers plugin0 d = (Ok ls, d)
                /\ root plugin0 d = Some 1%nat
                /\ ls = omap (fun c => d_layer d !! c) (kids d 1)
                /\ map l_root ls = kids d 1.
Proof.
  assert (H : stack_inv plugin0 1 (s_handles session0) (s_doc session0)).
  { apply (bool_decide_eq_true_1 _). vm_compute. reflexivity. }
  split; [exact H|].
  apply (enumerate_is_child_order plugin0 1 session0 _ H).
Defined.

(** The scenario of the specification, on top of the host's three
    layers: append SVG gives [S1], append HTML gives [S2], insert SVG
    before [S2] gives [S3] between them. *)
Example scenario_insert_between :
  let s := run plugin0 session0 [OAppend KSvg; OAppend KHtml; OInsert Before 7 KSvg] in
  (getLayers plugin0 (s_doc s)).1
  = Ok [selectBoxLayer plugin0; dragLayer plugin0; nodeLayer plugin0;
        layer_a; mkLayer 24 25 26 TSvg; layer_b].
Proof. vm_compute. reflexivity. Qed.

(** ** [move] *)


Lemma move_target_min index offset len :
  0 <= len -> move_target index offset len = Z.min (index + offset) 0.
Proof. unfold move_target, Math_max1, Math_min3. lia. Qed.

(** The target index [move] computes is never positive, so it differs
    from the clamped position whenever that one is not the front. *)
Lemma move_target_never_clamped index offset len :
  0 < clamp_position index offset len ->
  move_target index offset len <> clamp_position index offset len.
Proof. unfold move_target, Math_max1, Math_min3, clamp_position. lia. Qed.

(** C1 (the code at a failing input): in the stack
    [selectbox; drag; node; a; b], [move(a, 1)] does not bring [a] from
    index 3 to the clamped position 4: it puts [a] in front of every
    other layer. *)
Theorem move_forward_lands_in_front :
  let d := s_doc demo in
  (Stack.layers plugin0 d).1
    = Ok [selectBoxLayer plugin0; dragLayer plugin0; nodeLayer plugin0;
          layer_a; layer_b]
  /\ (move plugin0 layer_a 1 d).1 = Ok tt
  /\ (Stack.layers plugin0 (move plugin0 layer_a 1 d).2).1
       = Ok [layer_a; selectBoxLayer plugin0; dragLayer plugin0;
             nodeLayer plugin0; layer_b]
  /\ clamp_position 3 1 5 = 4.
Proof. vm_compute. repeat split; reflexivity. Qed.

(** [move] returns without touching the order only for the first layer
    and a non-negative offset (a layer found in the stack has a
    non-negative index). *)
Lemma move_target_is_index_iff index offset len :
  0 <= index -> 0 <= len ->
  move_target index offset len = index <-> index = 0 /\ 0 <= offset.
Proof. unfold move_target, Math_max1, Math_min3. lia. Qed.

(** Further runs of [move] on the same stack: offset 0 is not a no-op,
    the first layer is never moved forward, the last layer is never
    moved back, and an offset that leads below the front raises a
    TypeError. *)
Example move_by_zero_moves :
  let d := s_doc demo in
  (Stack.layers plugin0 (move plugin0 layer_a 0 d).2).1
    = Ok [layer_a; selectBoxLayer plugin0; dragLayer plugin0;
          nodeLayer plugin0; layer_b]
  /\ clamp_position 3 0 5 = 3.
Proof. vm_compute. split; reflexivity. Qed.


Example move_first_forward_stays :
  let d := s_doc demo in
  (move plugin0 (selectBoxLayer plugin0) 2 d) = (Ok tt, d)
  /\ clamp_position 0 2 5 = 2.
Proof. vm_compute. split; reflexivity. Qed.

Example move_last_back_stays :
  let d := s_doc demo in
  (move plugin0 layer_b (-1) d).1 = Ok tt
  /\ (Stack.layers plugin0 (move plugin0 layer_b (-1) d).2).1
       = (Stack.layers plugin0 d).1
  /\ clamp_position 4 (-1) 5 = 3.
Proof. vm_compute. repeat split; reflexivity. Qed.

Example move_below_front_raises :
  let d := s_doc demo in
  move plugin0 (dragLayer plugin0) (-5) d = (Throw TypeError, d)
  /\ clamp_position 1 (-5) 5 = 0.
Proof. vm_compute. split; reflexivity. Qed.

(** ** [insert] *)

(** C5 (as stated, refuted): the reference [nodeLayer plugin1] belongs
    to the stack of the second core, not to the stack of [plugin0]; yet
    [plugin0.insert('before', ref, 'svg')] raises nothing, returns a new
    layer and places it in the other stack. *)
Lemma insert_foreign_reference_not_rejected :
  let d := s_doc demo in
  let ref := nodeLayer plugin1 in
  let new := mkLayer 24 25 26 TSvg in
  (Stack.layers plugin0 d).1
    = Ok [selectBoxLayer plugin0; dragLayer plugin0; nodeLayer plugin0;
          layer_a; layer_b]
  /\ (ref ∉ [selectBoxLayer plugin0; dragLayer plugin0; nodeLayer plugin0;
             layer_a; layer_b])
  /\ (insert plugin0 Before ref KSvg d).1 = Ok new

  /\ (Stack.layers plugin0 (insert plugin0 Before ref KSvg d).2).1
       = (Stack.layers plugin0 d).1
  /\ (Stack.layers plugin1 (insert plugin0 Before ref KSvg d).2).1
       = Ok [selectBoxLayer plugin1; dragLayer plugin1; new; nodeLayer plugin1].
Proof.
  cbv zeta. split; [vm_compute; reflexivity|].
  split; [|vm_compute; repeat split; reflexivity].
  intros H. apply list_elem_of_In in H. simpl in H.
  repeat destruct H as [H|H]; try discriminate H. exact H.
Qed.

End StackFacts.




Module AccessorFacts.
Import Dom Stack Accessor.

(** The constructor leaves the container and the scratch storage of its
    core alone, and the object it returns is new. *)
Lemma new_LayersPlugin_core cy w p w' c :
  w_cores w !! cy = Some c ->
  new_LayersPlugin cy w = (Ok p, w') ->
  p_id p = d_next (w_doc w) /\ p_cy p = cy
  /\ exists c', w_cores w' !! cy = Some c'
                /\ c_container c' = c_container c
                /\ c_scratch c' = c_scratch c.
Proof.
  intros Hc.
  unfold new_LayersPlugin, bind, liftD, core, cy_on, set_core, modify, bind,
    core, new_CytoscapeLayer, bind, newObject, createElement, set_cy_layer,
    modify, ret, nonnull, throw. simpl.
  rewrite Hc. simpl.
  destruct (c_container c) as [container|] eqn:Hcont; [|discriminate]. simpl.
  repeat (match goal
 with
          | |- context [match querySelector ?d ?p ?s with _ => _ end] =>
              destruct (querySelector d p s); simpl
          end; try discriminate).
  repeat (first [rewrite Hc | rewrite lookup_insert_eq]; simpl).

  intros [= <- <-]. simpl. split; [reflexivity|]. split; [reflexivity|].

  rewrite lookup_insert_eq. eexists; split; [reflexivity|]. simpl.
  split; [exact Hcont|reflexivity].
Qed.


(** C10: the accessor is idempotent per core.  A successful call leaves
    the plugin it returns in the core's scratch storage under
    ['_layers'] (a plugin it has just constructed when the storage was
    empty), and from then on, whatever happens to the document, every
    call on that core returns this very plugin object and changes
    nothing. *)
Theorem layers_accessor_idempotent cy w p w1 :
  layers cy w = (Ok p, w1) ->
  (exists c1, w_cores w1 !! cy = Some c1 /\ c_scratch c1 !! "_layers" = Some p)
  /\ (forall c, w_cores w !! cy = Some c -> c_scratch c !! "_layers" = None ->
        p_id p = d_next (w_doc w) /\ p_cy p = cy)
  /\ (forall w2, w_cores w2 !! cy = w_cores w1 !! cy -> layers cy w2 = (Ok p, w2)).

Proof.
  unfold layers at 1, bind at 1, core at 1.
  destruct (w_cores w !! cy) as [c|] eqn:Hc; [|discriminate]. simpl.
  destruct (c_container c) as [container|] eqn:Hcont; [|discriminate].
  assert (Hagain : forall c1 w2, w_cores w2 !! cy = Some c1 ->
            c_container c1 = Some container ->
            c_scratch c1 !! "_layers" = Some p -> layers cy w2 = (Ok p, w2)).
  { intros c1 w2 H1 H2 H3. unfold layers, bind, core. rewrite H1. simpl.
    rewrite H2, H3. reflexivity. }
  destruct (c_scratch c !! "_layers") as [singleton|] eqn:Hs.
  - intros [= <- <-]. split; [eauto|]. split; [intros c0 [= <-]; congruence|].
    intros w2 Hw2. eapply Hagain; [rewrite Hw2; exact Hc|exact Hcont|exact Hs].
  - unfold bind at 1.
    destruct (new_LayersPlugin cy w) as [[plugin|e] w'] eqn:Hnew; [|discriminate].
    destruct (new_LayersPlugin_core _ _ _ _ _ Hc Hnew)
      as (Hid & Hcy & c' & Hc' & Hcont' & Hs').
    unfold cy_scratch_set, bind, core, set_core, modify. rewrite Hc'. simpl.
    intros [= <- <-]. simpl. rewrite lookup_insert_eq.
    split; [eexists; split; [reflexivity|apply lookup_insert_eq]|].
    split; [intros c0 [= <-] _; tauto|].
    intros w2 Hw2. eapply Hagain.
    + rewrite Hw2. reflexivity.
    + simpl. congruence.

    + simpl. apply lookup_insert_eq.
Qed.

Lemma layers_accessor_idempotent_witness :
  layers 0 host_page = (Ok plugin0, page1)
  /\ (exists c1, w_cores page1 !! 0%nat = Some c1
                 /\ c_scratch c1 !! "_layers" = Some plugin0)
  /\ layers 0 page2 = (Ok plugin0, page2).
Proof.
  assert (H : layers 0 host_page = (Ok plugin0, page1)).
  { vm_compute. reflexivity. }
  split; [exact H|].
  destruct (layers_accessor_idempotent 0 host_page plugin0 page1 H) as (H1 & _ & H3).
  split; [exact H1|]. apply H3. vm_compute. reflexivity.
Defined.




End AccessorFacts.

(** * Properties of [renderPerNode] *)

Module BindingFacts.
Import Binding.

(** ** The canvas render pass *)

Section CanvasPass.

Context {num paint : Type}.
Variable num_add num_mul : num -> num -> num.
Variable inVisibleBounds : @BoundingBox num -> bool.
Variable o : Options.
Variable g : @Geometry num.
Variable render : @CanvasRender num paint.
Variable hint : IRenderHint.
Variable s : State.
Variable t : @DOMMatrix num.

Abbreviation step := (draw_node num_add num_mul inVisibleBounds o g render hint s t).

(** The nodes the loop hands to [render]: those still in the graph
    that pass the bounds check, which only a pass not meant for export
    applies. *)
Definition participates (node : NodeId) : bool :=
  negb (removed s node)
  && negb (negb (forExport hint) && checkBounds o
           && negb (inVisibleBounds (node_boundingBox g node (boundingBox o)))).

(** The transform [render] finds for a node, from the transform [m] at
    the start of the node's iteration. *)
Definition anchored (m : @DOMMatrix num) (node : NodeId) : @DOMMatrix num :=
  match position o with
  | PTopLeft =>
      let bb := node_boundingBox g node (boundingBox o) in
      translate num_add num_mul m (x1 bb) (y1 bb)
  | PCenter =>
      let pos := node_position g node in
      translate num_add num_mul m (px pos) (py pos)
  | PNone => m
  end.

Lemma draw_node_skip acc node :
  participates node = false -> step acc node = acc.
Proof.
  unfold participates, draw_node. destruct acc as [ctx calls].
  destruct (removed s node); [reflexivity|]. simpl.
  destruct (negb (forExport hint) && checkBounds o && negb _); [reflexivity|].
  discriminate.
Qed.

Lemma draw_node_call ctx calls node :
  participates node = true ->
  exists c, step (ctx, calls) node = (match position o with
                                      | PNone => render (call_ctx c) node (call_bb c)
                                      | _ => ctx_setTransform
                                               (render (call_ctx c) node (call_bb c)) t
                                      end, calls ++ [c])
            /\ call_node c = node
            /\ call_bb c = node_boundingBox g node (boundingBox o)
            /\ call_before c = ctx_transform ctx
            /\ ctx_transform (call_ctx c) = anchored (ctx_transform ctx) node
            /\ ctx_paint (call_ctx c) = ctx_paint ctx
            /\ call_after c = match position o with
                              | PNone => ctx_transform (render (call_ctx c) node (call_bb c))
                              | _ => t
                              end.
Proof.
  unfold participates, draw_node, anchored.
  destruct (removed s node); [discriminate|]. simpl.
  destruct (negb (forExport hint) && checkBounds o && negb _); [discriminate|].
  intros _.
  destruct (position o);
    (eexists (mkCall _ _ _ _ _); split; [reflexivity|]);
    cbn [call_node call_bb call_before call_ctx call_after];
    repeat split; reflexivity.
Qed.



(** Which nodes are rendered, in which order. *)
Lemma called_nodes ns : forall ctx calls,
  map call_node (foldl step (ctx, calls) ns).2
  = map call_node calls ++ filter (fun n => participates n = true) ns.
Proof.
  induction ns as [|n ns IH]; intros ctx calls; cbn [foldl].
  - simpl. rewrite app_nil_r. reflexivity.
  - rewrite filter_cons. destruct (participates n) eqn:E.
    + destruct (draw_node_call ctx calls n E) as (c & -> & Hn & _).
      rewrite IH, map_app. simpl. rewrite Hn, <- app_assoc.
      reflexivity.
    + rewrite draw_node_skip by exact E. rewrite IH. reflexivity.

Qed.

(** With an anchoring position the transform is back at the saved one
    after every iteration. *)
Definition well_anchored (c : @Call num paint) : Prop :=
  call_before c = t /\ call_after c = t
  /\ call_bb c = node_boundingBox g (call_node c) (boundingBox o)
  /\ ctx_transform (call_ctx c) = anchored t (call_node c).

Lemma restored_transforms ns : position o <> PNone -> forall ctx calls,
  ctx_transform ctx = t ->
  Forall well_anchored calls ->
  let r := foldl step (ctx, calls) ns in
  ctx_transform r.1 = t /\ Forall well_anchored r.2.
Proof.
  intros Hpos. induction ns as [|n ns IH]; intros ctx calls Hctx Hcalls; cbn [foldl].
  - split; assumption.
  - destruct (participates n) eqn:E.
    + destruct (draw_node_call ctx calls n E)
        as (c & -> & Hn & Hbb & Hb & Ha & _ & Hafter).
      apply IH.
      * destruct (position o); [congruence|reflexivity..].
      * apply Forall_app; split; [exact Hcalls|]. repeat constructor.
        -- congruence.
        -- rewrite Hafter. destruct (position o); [congruence|reflexivity..].
        -- rewrite Hbb, Hn. reflexivity.
        -- rewrite Ha, Hn, Hctx. reflexivity.
    + rewrite draw_node_skip by exact E. apply IH; assumption.
Qed.

End CanvasPass.

Section RenderClaims.

Context {num paint content : Type}.
Variable num_add num_mul : num -> num -> num.
Variable num_show : num -> string.
Variable inVisibleBounds : @BoundingBox num -> bool.

Abbreviation canvas := (canvas_renderer num_add num_mul inVisibleBounds).

Lemma canvas_renderer_unfold o g (render : @CanvasRender num paint) s ctx hint :
  let s' := if queryEachTime o then reevaluate_nodes o s else s in
  canvas o g render s ctx hint
  = (s', foldl (draw_node num_add num_mul inVisibleBounds o g render hint s'
                          (ctx_transform ctx)) (ctx, []) (nodes s')).
Proof. reflexivity. Qed.

(** C4 (amended): with position ['top-left'] or ['center'], the
    transform of the shared context is the saved one when the iteration
    of each rendered element begins and again when it ends, and when the
    pass is over: what a draw callback does to the transform is not seen
    by the next element.  (With position ['none'] the pass never sets
    the transform back.) *)
Theorem canvas_transform_restored o g (render : @CanvasRender num paint) s ctx hint :
  position o <> PNone ->
  let r := canvas o g render s ctx hint in
  ctx_transform r.2.1 = ctx_transform ctx
  /\ Forall (fun c => call_before c = ctx_transform ctx
                      /\ call_after c = ctx_transform ctx) r.2.2.
Proof.
  intros Hpos. rewrite canvas_renderer_unfold. cbn [fst snd].
  set (s' := if queryEachTime o then _ else _).
  destruct (restored_transforms num_add num_mul inVisibleBounds o g render hint s'
              (ctx_transform ctx) (nodes s') Hpos ctx [] eq_refl (Forall_nil_2 _))
    as [H1 H2].
  split; [exact H1|].
  eapply Forall_impl; [exact H2|]. unfold well_anchored. tauto.
Qed.

(** C9: with position ['center'] the draw callback of a canvas binding
    finds the saved transform translated by the node's position, and the
    element of an HTML or SVG binding gets a transform that ends in a
    translation to the node's position, whatever the bounding box.  With
    position ['top-left'] the translation is to the corner [(x1, y1)] of
    the node's bounding box. *)
Theorem anchor_follows_position o g :
  (position o = PCenter ->
     (forall (render : @CanvasRender num paint) s ctx hint,
        Forall (fun c => let pos := node_position g (call_node c) in
                         ctx_transform (call_ctx c)
                         = translate num_add num_mul (ctx_transform ctx) (px pos) (py pos))
               (canvas o g render s ctx hint).2.2)
     /\ (forall (render : @DomRender num content) elem node bb,
           let pos := node_position g node in
           update_html num_show o g render elem node bb
           = render (mkElem (el_tag elem) (el_style_position elem)
                            (transform o +:+ "translate3d(" +:+ num_show (px pos)
                               +:+ "px," +:+ num_show (py pos) +:+ "px,0)")
                            (el_attr_transform elem) (el_content elem)) node bb
           /\ update_svg num_show o g render elem node bb
              = render (mkElem (el_tag elem) (el_style_position elem)
                               (el_style_transform elem)
                               (transform o +:+ "translate3d(" +:+ num_show (px pos)
                                  +:+ "," +:+ num_show (py pos) +:+ ",0)")
                               (el_content elem)) node bb))
  /\ (position o = PTopLeft ->
        (forall (render : @CanvasRender num paint) s ctx hint,
           Forall (fun c => let bb := node_boundingBox g (call_node c) (boundingBox o) in
                            call_bb c = bb
                            /\ ctx_transform (call_ctx c)
                               = translate num_add num_mul (ctx_transform ctx) (x1 bb) (y1 bb))
                  (canvas o g render s ctx hint).2.2)
        /\ (forall (render : @DomRender num content) elem node bb,
              update_html num_show o g render elem node bb
              = render (mkElem (el_tag elem) (el_style_position elem)
                               (transform o +:+ "translate3d(" +:+ num_show (x1 bb)
                                  +:+ "px," +:+ num_show (y1 bb) +:+ "px,0)")
                               (el_attr_transform elem) (el_content elem)) node bb
              /\ update_svg num_show o g render elem node bb
                 = render (mkElem (el_tag elem) (el_style_position elem)
                                  (el_style_transform elem)
                                  (transform o +:+ "translate3d(" +:+ num_show (x1 bb)
                                     +:+ "," +:+ num_show (y1 bb) +:+ ",0)")
                                  (el_content elem)) node bb)).
Proof.
  split; intros Hpos; (split; [|intros render elem node bb;
                                 unfold update_html, update_svg; rewrite Hpos;
                                 split; reflexivity]).
  - intros render s ctx hint. rewrite canvas_renderer_unfold. cbn [snd].
    set (s' := if queryEachTime o then _ else _).
    assert (Hne : position o <> PNone) by congruence.
    destruct (restored_transforms num_add num_mul inVisibleBounds o g render hint s'
                (ctx_transform ctx) (nodes s') Hne ctx [] eq_refl (Forall_nil_2 _))
      as [_ H].
    eapply Forall_impl; [exact H|]. cbn beta. intros c (_ & _ & _ & Hc).
    rewrite Hc. unfold anchored. rewrite Hpos. reflexivity.
  - intros render s ctx hint. rewrite canvas_renderer_unfold. cbn [snd].
    set (s' := if queryEachTime o then _ else _).
    assert (Hne : position o <> PNone) by congruence.
    destruct (restored_transforms num_add num_mul inVisibleBounds o g render hint s'
                (ctx_transform ctx) (nodes s') Hne ctx [] eq_refl (Forall_nil_2 _))
      as [_ H].
    eapply Forall_impl; [exact H|]. cbn beta. intros c (_ & _ & Hbb & Hc).
    split; [exact Hbb|]. rewrite Hc. unfold anchored. rewrite Hpos. reflexivity.
Qed.

(** C6 (amended): with [checkBounds], a node whose bounding box is out
    of the visible bounds is skipped by a canvas pass that is not meant
    for export and rendered by one that is (provided it is in the
    collection and not removed).  For HTML and SVG bindings the
    visibility test handed to the reconciler is the bounds test alone,
    and the pass is the same whatever the hint says: there the check is
    never bypassed. *)
Theorem export_bypasses_bounds_check_on_canvas o g node :
  checkBounds o = true ->
  inVisibleBounds (node_boundingBox g node (boundingBox o)) = false ->
  (forall (render : @CanvasRender num paint) s ctx,
     node ∉ map call_node (canvas o g render s ctx (mkHint false)).2.2)
  /\ (forall (render : @CanvasRender num paint) s ctx,
        let r := canvas o g render s ctx (mkHint true) in
        node ∈ nodes r.1 -> removed r.1 node = false ->
        node ∈ map call_node r.2.2)
  /\ (forall ty blank init (render : @DomRender num content),
        mo_isVisible (matchOptions num_show inVisibleBounds o g ty blank init render)
                     (node_boundingBox g node (boundingBox o)) = false)
  /\ (forall hint hint' mn ty blank init (render : @DomRender num content) s root,
        dom_pass num_show inVisibleBounds hint mn o g ty blank init render s root
        = dom_pass num_show inVisibleBounds hint' mn o g ty blank init render s root).
Proof.
  intros Hcheck Hout. repeat split.
  - intros render s ctx. rewrite canvas_renderer_unfold. cbn [snd].
    rewrite called_nodes. cbn [map app]. rewrite list_elem_of_filter.
    unfold participates. cbn [forExport]. rewrite Hcheck, Hout.
    rewrite andb_false_r. intros [H _]. discriminate H.
  - intros render s ctx. rewrite canvas_renderer_unfold. cbn [fst snd].
    intros Hin Hlive. rewrite called_nodes. cbn [map app].
    rewrite list_elem_of_filter. split; [|exact Hin].
    unfold participates. cbn [forExport]. rewrite Hlive. reflexivity.
  - intros ty blank init render. cbn [matchOptions mo_isVisible].
    unfold isVisible. rewrite Hcheck. exact Hout.
Qed.

End RenderClaims.

(** ** Concrete passes *)


(** C4 (as stated, refuted): with position ['none'] and a draw callback
    that shifts the context by one unit, the transform after the first
    element's callback is not the saved identity, and the second
    element's callback finds the shifted transform. *)
Lemma canvas_position_none_leaks_transform :
  let o := with_position PNone default_options in
  let r := canvas_renderer Z.add Z.mul (fun _ => true) o demo_geometry
             shifting_render (demo_state o canvas) blank_ctx (mkHint false) in
  map call_node r.2.2 = [1; 2]%nat
  /\ map call_after r.2.2 = [mkMatrix 1 0 0 1 1 0; mkMatrix 1 0 0 1 2 0]
  /\ map (fun c => ctx_transform (call_ctx c)) r.2.2
     = [identity_matrix; mkMatrix 1 0 0 1 1 0]
  /\ mkMatrix 1 0 0 1 1 0 <> identity_matrix.
Proof. vm_compute. repeat split; try reflexivity. discriminate. Qed.

Lemma canvas_transform_restored_witness :
  let o := with_position PCenter default_options in
  let r := canvas_renderer Z.add Z.mul (fun _ => true) o demo_geometry
             shifting_render (demo_state o canvas) blank_ctx (mkHint false) in
  position o <> PNone
  /\ ctx_transform r.2.1 = identity_matrix
  /\ Forall (fun c => call_before c = identity_matrix
                      /\ call_after c = identity_matrix) r.2.2.
Proof.
  cbv zeta.
  assert (H : position (with_position PCenter default_options) <> PNone)
    by (simpl; discriminate).
  split; [exact H|].
  apply (canvas_transform_restored Z.add Z.mul (fun _ => true)
           (with_position PCenter default_options) demo_geometry shifting_render
           (demo_state (with_position PCenter default_options) canvas)
           blank_ctx (mkHint false) H).
Defined.

(** The scenario of the specification: an element at position (10, 20)
    under position ['center'] is anchored at (10, 20), with or without
    labels in its bounding box. *)
Example center_anchor_at_10_20 :
  let o := with_position PCenter default_options in
  let o' := with_boundingBox (mkBBO true true) o in
  let pass o := canvas_renderer Z.add Z.mul (fun _ => true) o demo_geometry
                  shifting_render (demo_state o canvas) blank_ctx (mkHint false) in
  let elem := mkElem "div" "absolute" "" "" 0%nat in
  let bb o := node_boundingBox demo_geometry 1%nat (boundingBox o) in
  map (fun c => ctx_transform (call_ctx c)) (pass o).2.2
    = [mkMatrix 1 0 0 1 10 20; mkMatrix 1 0 0 1 40 50]
  /\ map (fun c => ctx_transform (call_ctx c)) (pass o').2.2
     = [mkMatrix 1 0 0 1 10 20; mkMatrix 1 0 0 1 40 50]
  /\ bb o <> bb o'
  /\ el_style_transform (update_html Z_show o demo_geometry counting_render elem 1%nat (bb o))
     = "translate3d(10px,20px,0)"
  /\ el_style_transform (update_html Z_show o' demo_geometry counting_render elem 1%nat (bb o'))
     = "translate3d(10px,20px,0)"
  /\ el_attr_transform (update_svg Z_show o demo_geometry counting_render elem 1%nat (bb o))
     = "translate3d(10,20,0)".
Proof. vm_compute. repeat split; try reflexivity. discriminate. Qed.

Lemma anchor_follows_position_witness :
  let o := with_position PCenter default_options in
  position o = PCenter
  /\ Forall (fun c => let pos := node_position demo_geometry (call_node c) in
                      ctx_transform (call_ctx c)
                      = translate Z.add Z.mul identity_matrix (px pos) (py pos))
            (canvas_renderer Z.add Z.mul (fun _ => true) o demo_geometry
               shifting_render (demo_state o canvas) blank_ctx (mkHint false)).2.2.
Proof.
  cbv zeta. split; [reflexivity|].
  destruct (anchor_follows_position (paint := list NodeId) (content := nat)
              Z.add Z.mul Z_show (fun _ => true)
              (with_position PCenter default_options) demo_geometry) as [Hc _].
  destruct (Hc eq_refl) as [Hcanvas _].
  apply (Hcanvas shifting_render
           (demo_state (with_position PCenter default_options) canvas)
           blank_ctx (mkHint false)).
Defined.


(** C6 (as stated, refuted): an HTML binding with [checkBounds] and
    node [2] out of view.  The visibility test handed to the reconciler
    rejects the node's box, and whatever the reconciler is, a pass
    flagged for export is the pass not flagged for export; with the
    reconciler of the specification the export pass renders node [1]
    only.  The canvas pass flagged for export renders both nodes. *)

Lemma html_export_pass_still_culls :
  let o := with_checkBounds true default_options in
  let bb2 := node_boundingBox demo_geometry 2%nat (boundingBox o) in
  let pass hint mn root :=
    dom_pass Z_show left_part hint mn o demo_geometry html 0%nat None
             counting_render (demo_state o html) root in
  left_part bb2 = false
  /\ mo_isVisible (matchOptions Z_show left_part o demo_geometry html 0%nat None
                                counting_render) bb2 = false
  /\ ~ (exists mn root, pass (mkHint true) mn root <> pass (mkHint false) mn root)
  /\ map fst (pass (mkHint true) matchNodes_spec []).2 = [1%nat]
  /\ map call_node (canvas_renderer Z.add Z.mul left_part o demo_geometry
                      shifting_render (demo_state o canvas) blank_ctx
                      (mkHint true)).2.2 = [1; 2]%nat.
Proof.
  cbv zeta. split; [reflexivity|]. split; [reflexivity|].
  split; [intros (mn & root & H); apply H; reflexivity|].
  vm_compute. split; reflexivity.
Qed.


Lemma export_bypasses_bounds_check_on_canvas_witness :
  let o := with_checkBounds true default_options in
  checkBounds o = true
  /\ left_part (node_boundingBox demo_geometry 2%nat (boundingBox o)) = false
  /\ 2%nat ∉ map call_node
        (canvas_renderer Z.add Z.mul left_part o demo_geometry shifting_render
           (demo_state o canvas) blank_ctx (mkHint false)).2.2.
Proof.
  cbv zeta. split; [reflexivity|]. split; [reflexivity|].
  destruct (export_bypasses_bounds_check_on_canvas (paint := list NodeId)
              (content := nat) Z.add Z.mul Z_show left_part
              (with_checkBounds true default_options) demo_geometry 2%nat
              eq_refl eq_refl) as [H _].
  apply H.
Defined.

(** ** Lists under [filter] *)

Lemma Forall_filter_keep {A} (P Q : A -> Prop) `{!forall x, Decision (Q x)}
    (l : list A) :
  Forall P l -> Forall P (filter Q l).
Proof.
  rewrite !Forall_forall. intros Hall x Hx.
  apply list_elem_of_filter in Hx. apply Hall, Hx.
Qed.

Lemma NoDup_map_filter {A B} (f : A -> B) (Q : A -> Prop)
    `{!forall x, Decision (Q x)} (l : list A) :
  NoDup (map f l) -> NoDup (map f (filter Q l)).
Proof.
  induction l as [|x l IH]; simpl; [intros; constructor|].
  intros Hnd. apply NoDup_cons in Hnd as [Hx Hl].
  rewrite filter_cons. destruct (decide (Q x)); [|apply IH, Hl].
  simpl. apply NoDup_cons. split; [|apply IH, Hl].
  intros Hin. apply Hx.
  apply list_elem_of_fmap in Hin as (y & -> & Hy).
  apply list_elem_of_filter in Hy as [_ Hy].
  apply list_elem_of_fmap. exists y. split; [reflexivity|exact Hy].
Qed.

(** Two members of a list with distinct keys that have the same key
    are the same. *)
Lemma NoDup_map_inj {A B} (f : A -> B) (l : list A) x y :
  NoDup (map f l) -> x ∈ l -> y ∈ l -> f x = f y -> x = y.
Proof.
  induction l as [|a l IH]; simpl; intros Hnd Hx Hy Hf.
  - apply elem_of_nil in Hx. contradiction.
  - apply NoDup_cons in Hnd as [Ha Hl].
    apply elem_of_cons in Hx as [->|Hx]; apply elem_of_cons in Hy as [->|Hy].
    + reflexivity.
    + exfalso. apply Ha. rewrite Hf. apply list_elem_of_fmap. eauto.
    + exfalso. apply Ha. rewrite <- Hf. apply list_elem_of_fmap. eauto.
    + apply IH; assumption.
Qed.

Lemma filter_length_zero {A} (P : A -> Prop) `{!forall x, Decision (P x)}
    (l : list A) :
  length (filter P l) = 0%nat -> Forall (fun y => ~ P y) l.
Proof.
  induction l as [|x l IH]; [constructor|].
  rewrite filter_cons. destruct (decide (P x)); simpl; [discriminate|].
  intros Hlen. constructor; [assumption|apply IH, Hlen].
Qed.

Lemma filter_none {A} (P : A -> Prop) `{!forall x, Decision (P x)} (l : list A) :
  Forall (fun y => ~ P y) l -> filter P l = [].
Proof.
  induction 1 as [|x l Hx _ IH]; [reflexivity|].
  rewrite filter_cons, decide_False by exact Hx. exact IH.
Qed.

Lemma filter_length_one {A}
 (P : A -> Prop) `{!forall x, Decision (P x)}
    (l : list A) :
  length (filter P l) = 1%nat ->
  exists l1 x l2, l = l1 ++ x :: l2 /\ P x
                  /\ Forall (fun y => ~ P y) l1 /\ Forall (fun y => ~ P y) l2.
Proof.
  induction l as [|x l IH]; [discriminate|].
  rewrite filter_cons. destruct (decide (P x)) as [Hx|Hx]; simpl.
  - intros [= Hlen]. exists [], x, l. repeat split; [exact Hx|constructor|].
    apply (filter_length_zero P). exact Hlen.

  - intros Hlen. destruct (IH Hlen) as (l1 & y & l2 & -> & Hy & H1 & H2).
    exists (x :: l1), y, l2. repeat split; [exact Hy| |exact H2].
    constructor; assumption.
Qed.

(** ** Listeners and the debounce flag *)

Section Events.



Variable o : Options.

(** How each kind of callback is registered. *)
Definition ok_listener (l : Listener) : Prop :=
  match li_handler l with
  | HRevaluateAndUpdateOnce =>
      li_delegated l = true /\ li_once l = false /\ li_event l <> EvRender
  | HRemoveNode =>
      li_delegated l = true /\ li_once l = false /\ li_event l = EvRemove
      /\ allowPartialUpdate o = true
  | HRenderOnce =>
      li_delegated l = false /\ li_once l = true /\ li_event l = EvRender
  | HLayerUpdateOnRenderOnce => False
  | HOther _ => li_once l = false
  end.

(** The listeners are registered as they should be, under distinct
    identities below the counter. *)
Definition Wf (s : State) : Prop :=
  Forall ok_listener (cy_listeners s)
  /\ NoDup (map li_id (cy_listeners s))
  /\ Forall (fun l => (li_id l < next_listener s)%nat) (cy_listeners s).

(** The flag is set exactly while one one-shot render listener waits. *)
Definition Pend (s : State) : Prop :=
  pending s = if updateOnRenderOnceEnabled s then 1%nat else 0%nat.

Definition Wired (s : State) : Prop :=
  forall ev, wired o ev = true ->
    Exists (fun l => li_event l = ev /\ li_handler l = HRevaluateAndUpdateOnce)
           (cy_listeners s).

Definition Part (s : State) : Prop :=
  allowPartialUpdate o = true ->
  Exists (fun l => li_handler l = HRemoveNode) (cy_listeners s).

Record Inv (s : State) : Prop := mkInv {
  inv_wf : Wf s;
  inv_pend : Pend s;
  inv_wired : Wired s;
  inv_part : Part s }.

(** *** Registering and unregistering *)

Lemma Wf_register ev del hd once s :
  Wf s -> ok_listener (mkListener (next_listener s) ev del hd once) ->
  Wf (cy_register ev del hd once s).
Proof.
  intros (Hok & Hids & Hnext) Hl. repeat split; simpl.
  - apply Forall_app; split; [exact Hok|]. constructor; [exact Hl|constructor].
  - rewrite map_app. simpl. apply NoDup_app. split; [exact Hids|].
    split; [|apply NoDup_singleton].
    intros x Hx Hx'. apply list_elem_of_singleton in Hx'. subst x.
    apply list_elem_of_fmap in Hx as (l & Hid & Hin).
    rewrite Forall_forall in Hnext. specialize (Hnext _ Hin). lia.
  - apply Forall_app; split.
    + eapply Forall_impl; [exact Hnext|]. simpl. intros; lia.
    + constructor; [simpl; lia|constructor].
Qed.

Lemma Wf_filter (Q : Listener -> Prop) `{!forall l, Decision (Q l)} s :
  Wf s -> Wf (set_cy_listeners (filter Q (cy_listeners s)) s).
Proof.
  intros (Hok & Hids & Hnext). repeat split; simpl.
  - apply Forall_filter_keep, Hok.
  - apply NoDup_map_filter, Hids.
  - apply Forall_filter_keep, Hnext.
Qed.

Lemma pending_register ev del hd once s :
  pending (cy_register ev del hd once s)
  = (pending s + if decide (hd = HRenderOnce) then 1 else 0)%nat.
Proof.
  unfold pending. simpl. rewrite filter_app, length_app, filter_cons. simpl.
  destruct (decide (hd = HRenderOnce)); reflexivity.
Qed.

Lemma filter_filter_keep {A} (P Q : A -> Prop)
    `{!forall x, Decision (P x)} `{!forall x, Decision (Q x)} (l : list A) :
  Forall (fun x => P x -> Q x) l -> filter P (filter Q l) = filter P l.
Proof.
  induction 1 as [|x l Hx _ IH]; [reflexivity|].
  rewrite !filter_cons.
  destruct (decide (Q x)), (decide (P x)); rewrite ?filter_cons;
    try rewrite decide_True by assumption; try rewrite decide_False by assumption;
    rewrite ?IH; tauto.
Qed.

Lemma pending_filter (Q : Listener -> Prop) `{!forall l, Decision (Q l)} s :
  Forall (fun l => li_handler l = HRenderOnce -> Q l) (cy_listeners s) ->
  pending (set_cy_listeners (filter Q (cy_listeners s)) s) = pending s.
Proof.
  intros Hkeep. unfold pending. simpl.
  rewrite filter_filter_keep by exact Hkeep. reflexivity.
Qed.

Lemma Exists_filter_keep {A} (R Q : A -> Prop) `{!forall x, Decision (Q x)}
    (l : list A) :
  Exists R l -> Forall (fun x => R x -> Q x) l -> Exists R (filter Q l).
Proof.
  intros HE HF. apply Exists_exists in HE as (x & Hin & HR).
  apply Exists_exists. exists x. split; [|exact HR].
  apply list_elem_of_filter. split; [|exact Hin].
  rewrite Forall_forall in HF. apply HF; assumption.
Qed.

(** The listeners [cy.off('remove', o.selector, removeNode)] drops *)
Definition off_removeNode (l : Listener) : Prop :=
  ~ (li_event l ∈ [EvRemove] /\ li_delegated l = true /\ li_handler l = HRemoveNode).

(** What a re-evaluation does to the state. *)
Lemma reevaluate_nodes_effect s :
  let s' := reevaluate_nodes o s in
  cy_listeners s'
    = (if allowPartialUpdate o
       then filter off_removeNode (cy_listeners s)
            ++ [mkListener (next_listener s) EvRemove true HRemoveNode false]
       else cy_listeners s)
  /\ next_listener s' = (if allowPartialUpdate o then S (next_listener s)
                         else next_listener s)
  /\ updateOnRenderOnceEnabled s' = updateOnRenderOnceEnabled s
  /\ live s' = live s
  /\ nodes s' = cy_nodes o s
  /\ log s' = log s ++ [EInitCollection (cy_nodes o s); ELayerUpdateOnRenderOnce].
Proof.
  unfold reevaluate_nodes, reevaluateCollection, cy_nodes.
  destruct (element_event o), (allowPartialUpdate o); simpl;
    rewrite <- ?app_assoc; repeat split; reflexivity.
Qed.

Lemma Wf_ext s s' :
  cy_listeners s' = cy_listeners s -> next_listener s' = next_listener s ->
  Wf s -> Wf s'.
Proof. unfold Wf. intros -> ->. tauto. Qed.

Lemma Inv_ext s s' :
  cy_listeners s' = cy_listeners s -> next_listener s' = next_listener s ->
  updateOnRenderOnceEnabled s' = updateOnRenderOnceEnabled s ->
  Inv s -> Inv s'.
Proof.
  intros Hl Hn He [Hwf Hp Hw Hpart]. split.
  - eapply Wf_ext; eassumption.
  - unfold Pend, pending in *. rewrite Hl, He. exact Hp.
  - unfold Wired in *. rewrite Hl. exact Hw.
  - unfold Part in *. rewrite Hl. exact Hpart.
Qed.

Lemma ok_removeNode_listener k :
  allowPartialUpdate o = true ->
  ok_listener (mkListener k EvRemove true HRemoveNode false).
Proof. intros H. repeat split. exact H. Qed.

Lemma Wf_reevaluate s : Wf s -> Wf (reevaluate_nodes o s).
Proof.
  intros Hwf.
  destruct (reevaluate_nodes_effect s) as (Hl & Hn & _).
  destruct (allowPartialUpdate o) eqn:Hpar.
  - eapply (Wf_ext (cy_register EvRemove true HRemoveNode false
                      (set_cy_listeners (filter off_removeNode (cy_listeners s)) s)));
      [exact Hl|exact Hn|].
    apply Wf_register; [apply Wf_filter, Hwf|apply ok_removeNode_listener, Hpar].
  - eapply Wf_ext; eassumption.
Qed.

Lemma pending_reevaluate s : pending (reevaluate_nodes o s) = pending s.
Proof.
  destruct (reevaluate_nodes_effect s) as (Hl & _).
  unfold pending. rewrite Hl. destruct (allowPartialUpdate o); [|reflexivity].
  rewrite filter_app, length_app. simpl. rewrite Nat.add_0_r.
  rewrite filter_filter_keep; [reflexivity|].
  apply Forall_forall. intros l _ Hh (_ & _ & Hh'). congruence.
Qed.

Lemma Wired_reevaluate s : Wired s -> Wired (reevaluate_nodes o s).
Proof.
  intros Hw ev Hev. specialize (Hw ev Hev).
  destruct (reevaluate_nodes_effect s) as (Hl & _). rewrite Hl.
  destruct (allowPartialUpdate o); [|exact Hw].
  apply Exists_app. left. apply Exists_filter_keep; [exact Hw|].
  apply Forall_forall. intros l _ [_ Hh] (_ & _ & Hh'). congruence.
Qed.

Lemma Part_reevaluate s : Part (reevaluate_nodes o s).
Proof.
  intros Hp. destruct (reevaluate_nodes_effect s) as (Hl & _). rewrite Hl, Hp.
  apply Exists_app. right. constructor. reflexivity.
Qed.

Lemma Inv_reevaluate s : Inv s -> Inv (reevaluate_nodes o s).
Proof.
  intros [Hwf Hp Hw _]. split.
  - apply Wf_reevaluate, Hwf.
  - unfold Pend. rewrite pending_reevaluate.
    destruct (reevaluate_nodes_effect s) as (_ & _ & -> & _). exact Hp.
  - apply Wired_reevaluate, Hw.
  - apply Part_reevaluate.
Qed.

(** *** The three closures *)

Lemma Inv_revaluateAndUpdateOnce s : Inv s -> Inv (revaluateAndUpdateOnce s).
Proof.
  intros HI. unfold revaluateAndUpdateOnce.
  destruct (updateOnRenderOnceEnabled s) eqn:E; [exact HI|].
  destruct HI as [Hwf Hp Hw Hpart]. unfold cy_one. split.
  - apply Wf_register; [exact Hwf|repeat split].
  - unfold Pend in *. rewrite pending_register. simpl.
    unfold pending in *. simpl. rewrite E in Hp. rewrite Hp. reflexivity.
  - intros ev Hev. simpl. apply Exists_app. left. apply Hw, Hev.
  - intros Hpar. simpl. apply Exists_app. left. apply Hpart, Hpar.
Qed.

Lemma Inv_removeNode n s : Inv s -> Inv (removeNode n s).
Proof. apply Inv_ext; reflexivity. Qed.

Lemma revaluateAndUpdateOnce_sets s :
  updateOnRenderOnceEnabled (revaluateAndUpdateOnce s) = true.
Proof.
  unfold revaluateAndUpdateOnce.
  destruct (updateOnRenderOnceEnabled s) eqn:E; [exact E|reflexivity].
Qed.

(** Scheduling while an update is pending changes nothing. *)
Lemma revaluateAndUpdateOnce_pending s :
  updateOnRenderOnceEnabled s = true -> revaluateAndUpdateOnce s = s.
Proof. unfold revaluateAndUpdateOnce. intros ->. reflexivity. Qed.

(** *** Emission of ['add'] and ['remove'] *)

(** What a listener does when an event of node [n] reaches it. *)
Definition react (n : NodeId) (l : Listener) (s : State) : State :=
  match li_handler l with
  | HRevaluateAndUpdateOnce => revaluateAndUpdateOnce s
  | HRemoveNode => removeNode n s
  | _ => s
  end.

Lemma fire_element ev n s l :
  ok_listener l -> ev <> EvRender ->
  fire o ev (Some n) s l
  = if listens o ev (Some n) l then react n l s else s.
Proof.
  unfold ok_listener, fire, react, listens. intros Hok Hev.
  destruct (bool_decide (li_event l = ev)) eqn:E; [|reflexivity].
  apply bool_decide_eq_true_1 in E.
  destruct (li_handler l) eqn:Hh; simpl.
  - destruct Hok as (-> & -> & _). reflexivity.
  - destruct Hok as (-> & -> & _). reflexivity.
  - destruct Hok as (_ & _ & He). congruence.
  - contradiction.
  - rewrite Hok. destruct (li_delegated l), (selector o n); reflexivity.
Qed.

Lemma Inv_react n l s : Inv s -> Inv (react n l s).
Proof.
  intros HI. unfold react. destruct (li_handler l); try exact HI.
  - apply Inv_revaluateAndUpdateOnce, HI.
  - apply Inv_removeNode, HI.
Qed.

Lemma react_keeps_flag n l s :
  updateOnRenderOnceEnabled s = true ->
  updateOnRenderOnceEnabled (react n l s) = true.
Proof.
  intros E. unfold react. destruct (li_handler l); try exact E.
  apply revaluateAndUpdateOnce_sets.
Qed.

Lemma fold_element_Inv ev n ls : ev <> EvRender -> Forall ok_listener ls ->
  forall s, Inv s -> Inv (foldl (fire o ev (Some n)) s ls).
Proof.
  intros Hev. induction 1 as [|l ls Hl _ IH]; intros s HI; [exact HI|].
  cbn [foldl]. apply IH. rewrite fire_element by assumption.
  destruct (listens _ _ _ _); [apply Inv_react, HI|exact HI].
Qed.

Lemma fold_element_keeps_flag ev n ls : ev <> EvRender -> Forall ok_listener ls ->
  forall s, updateOnRenderOnceEnabled s = true ->
            updateOnRenderOnceEnabled (foldl (fire o ev (Some n)) s ls) = true.
Proof.
  intros Hev. induction 1 as [|l ls Hl _ IH]; intros s E; [exact E|].
  cbn [foldl]. apply IH. rewrite fire_element by assumption.
  destruct (listens _ _ _ _); [apply react_keeps_flag, E|exact E].
Qed.

Lemma fold_element_sets_flag ev n ls : ev <> EvRender -> Forall ok_listener ls ->
  Exists (fun l => listens o ev (Some n) l = true
                   /\ li_handler l = HRevaluateAndUpdateOnce) ls ->
  forall s, updateOnRenderOnceEnabled (foldl (fire o ev (Some n)) s ls) = true.
Proof.
  intros Hev Hok HE. induction HE as [l ls HP|l ls HE IH]; intros s;
    apply Forall_cons in Hok as [Hokl Hok]; cbn [foldl].
  - destruct HP as [Hl Hh].
    apply fold_element_keeps_flag; [exact Hev|exact Hok|].

    rewrite fire_element by assumption. rewrite Hl. unfold react. rewrite Hh.
    apply revaluateAndUpdateOnce_sets.
  - apply IH, Hok.
Qed.

(** The cached collection and the log over the emission of ['remove']
    for node [n]: every [removeNode] listener takes [n] out and asks the
    layer to update that node. *)
Definition removers (n : NodeId) (ls : list Listener) : list Listener :=
  filter (fun l => listens o EvRemove (Some n) l = true /\ li_handler l = HRemoveNode) ls.

Lemma fold_remove_nodes n ls : Forall ok_listener ls ->
  forall s,
    let s' := foldl (fire o EvRemove (Some n)) s ls in
    nodes s' = (if decide (removers n ls = []) then nodes s
                else filter (fun m => m ≠ n) (nodes s))
    /\ log s' = log s ++ replicate (length (removers n ls)) (ELayerUpdate (Some n))
    /\ live s' = live s.
Proof.
  induction 1 as [|l ls Hl _ IH]; intros s; cbn [foldl].
  - simpl. rewrite app_nil_r. repeat split; reflexivity.
  - specialize (IH (fire o EvRemove (Some n) s l)). cbv zeta in IH.
    destruct IH as (IHn & IHl & IHv). cbv zeta. rewrite IHn, IHl, IHv.
    rewrite fire_element by (assumption || discriminate).
    unfold removers. rewrite filter_cons. fold (removers n ls).
    destruct (decide (listens o EvRemove (Some n) l = true
                      /\ li_handler l = HRemoveNode)) as [[E Hh]|Hno].
    + rewrite E. unfold react. rewrite Hh. simpl.
      rewrite <- app_assoc. simpl.
      split; [|split; reflexivity].
      destruct (decide (removers n ls = [])); [reflexivity|].
      rewrite list_filter_filter. apply list_filter_iff. tauto.
    + assert (Hsame : let s1 := if listens o EvRemove (Some n) l
                                then react n l s else s in
                      nodes s1 = nodes s /\ log s1 = log s /\ live s1 = live s).
      { destruct (listens o EvRemove (Some n) l); [|repeat split; reflexivity].
        unfold react. destruct (li_handler l); try (repeat split; reflexivity).
        - unfold revaluateAndUpdateOnce.
          destruct (updateOnRenderOnceEnabled s); repeat split; reflexivity.
        - exfalso. apply Hno. split; reflexivity. }
      cbv zeta in Hsame. destruct Hsame as (-> & -> & ->).
      repeat split; reflexivity.
Qed.

(** *** Emission of ['render'] *)

Definition drop_listener (l : Listener) (s : State) : State :=
  set_cy_listeners (filter (fun l' => li_id l' ≠ li_id l) (cy_listeners s)) s.

Lemma fire_render_quiet s l :
  ok_listener l -> li_handler l <> HRenderOnce -> fire o EvRender None s l = s.
Proof.
  unfold ok_listener, fire, listens. intros Hok Hh.
  destruct (bool_decide (li_event l = EvRender)); [|reflexivity].
  destruct (li_handler l); simpl.
  - destruct Hok as (-> & _). reflexivity.
  - destruct Hok as (-> & _). reflexivity.
  - congruence.
  - contradiction.
  - rewrite Hok. destruct (li_delegated l); reflexivity.
Qed.

Lemma fire_render_once s l :
  ok_listener l -> li_handler l = HRenderOnce ->
  fire o EvRender None s l = renderOnce o (drop_listener l s).
Proof.
  unfold ok_listener, fire, listens. intros Hok Hh. rewrite Hh in *.
  destruct Hok as (-> & -> & ->).
  rewrite bool_decide_eq_true_2 by reflexivity. reflexivity.
Qed.

Lemma fold_render_quiet ls : Forall ok_listener ls ->
  Forall (fun l => li_handler l <> HRenderOnce) ls ->
  forall s, foldl (fire o EvRender None) s ls = s.
Proof.
  induction 1 as [|l ls Hl _ IH]; intros Hq s; [reflexivity|].
  apply Forall_cons in Hq as [Hql Hq]. cbn [foldl].
  rewrite fire_render_quiet by assumption. apply IH, Hq.
Qed.

(** With no update pending, a render tick leaves the binding alone. *)
Lemma tick_idle s :
  Inv s -> updateOnRenderOnceEnabled s = false -> emit o EvRender None s = s.
Proof.
  intros [(Hok & _) Hp _ _] E. unfold emit.
  apply fold_render_quiet; [exact Hok|].
  unfold Pend, pending in Hp. rewrite E in Hp.
  apply (filter_length_zero (fun l => li_handler l = HRenderOnce)), Hp.
Qed.

(** With an update pending, a render tick runs the one waiting listener,
    once. *)
Lemma tick_pending s :
  Inv s -> updateOnRenderOnceEnabled s = true ->
  exists l1 l l2, cy_listeners s = l1 ++ l :: l2
                  /\ li_handler l = HRenderOnce
                  /\ Forall (fun l' => li_handler l' <> HRenderOnce) l1
                  /\ Forall (fun l' => li_handler l' <> HRenderOnce) l2
                  /\ emit o EvRender None s = renderOnce o (drop_listener l s).
Proof.
  intros [(Hok & _) Hp _ _] E. unfold Pend, pending in Hp. rewrite E in Hp.
  apply (filter_length_one (fun l => li_handler l = HRenderOnce)) in Hp
    as (l1 & l & l2 & Hsplit & Hl & H1 & H2).
  exists l1, l, l2. repeat split; try assumption.
  unfold emit. rewrite Hsplit in Hok |- *.
  apply Forall_app in Hok as [Hok1 Hok2].
  apply Forall_cons in Hok2 as [Hokl Hok2].
  rewrite foldl_app. cbn [foldl].
  rewrite (fold_render_quiet l1) by assumption.
  rewrite fire_render_once by assumption.
  apply fold_render_quiet; assumption.
Qed.


Lemma Inv_dropped s l1 l l2 :
  Inv s -> cy_listeners s = l1 ++ l :: l2 -> li_handler l = HRenderOnce ->
  Forall (fun l' => li_handler l' <> HRenderOnce) l1 ->
  Forall (fun l' => li_handler l' <> HRenderOnce) l2 ->
  Inv (set_enabled false (drop_listener l s)).
Proof.
  intros [Hwf Hp Hw Hpart] Hsplit Hl H1 H2.
  assert (Hin : l ∈ cy_listeners s).
  { rewrite Hsplit. apply elem_of_app. right. apply elem_of_cons. tauto. }
  assert (Hkeep : forall x, x ∈ cy_listeners s -> li_handler x <> HRenderOnce ->
                            li_id x ≠ li_id l).
  { intros x Hx Hh Hid. destruct Hwf as (_ & Hnd & _).
    pose proof (NoDup_map_inj li_id _ _ _ Hnd Hx Hin Hid). congruence. }
  split.
  - eapply (Wf_ext (drop_listener l s)); [reflexivity..|].
    apply (Wf_filter (fun l' => li_id l' ≠ li_id l)), Hwf.
  - unfold Pend, pending. simpl. rewrite Hsplit.
    rewrite !filter_app, filter_cons, decide_False by tauto.
    rewrite length_app.
    rewrite !(filter_none (fun l0 => li_handler l0 = HRenderOnce));
      [reflexivity|apply Forall_filter_keep; assumption..].
  - intros ev Hev. simpl. apply Exists_filter_keep; [apply Hw, Hev|].
    apply Forall_forall. intros x Hx [_ Hh]. apply Hkeep; [exact Hx|congruence].
  - intros Hpar. simpl. apply Exists_filter_keep; [apply Hpart, Hpar|].
    apply Forall_forall. intros x Hx Hh. apply Hkeep; [exact Hx|congruence].
Qed.

Lemma Inv_emit_effect e s : Inv s -> Inv (emit_effect e s).
Proof. apply Inv_ext; reflexivity. Qed.

Lemma Inv_tick s : Inv s -> Inv (emit o EvRender None s).
Proof.
  intros HI. destruct (updateOnRenderOnceEnabled s) eqn:E.
  - destruct (tick_pending s HI E) as (l1 & l & l2 & Hsplit & Hl & H1 & H2 & ->).
    unfold renderOnce. apply Inv_emit_effect, Inv_reevaluate.
    eapply Inv_dropped; eassumption.
  - rewrite tick_idle by assumption. exact HI.
Qed.

(** The effects of a render tick with an update pending: one
    re-evaluation of the collection and one update of the layer. *)
Lemma tick_effects s :
  Inv s -> updateOnRenderOnceEnabled s = true ->
  let s' := emit o EvRender None s in
  log s' = log s ++ [EInitCollection (cy_nodes o s); ELayerUpdateOnRenderOnce;
                     ELayerUpdate None]
  /\ nodes s' = cy_nodes o s
  /\ updateOnRenderOnceEnabled s' = false
  /\ pending s' = 0%nat.
Proof.
  intros HI E.
  pose proof (Inv_tick s HI) as HI'.
  destruct (tick_pending s HI E) as (l1 & l & l2 & Hsplit & Hl & H1 & H2 & Hemit).
  cbv zeta. rewrite Hemit in *. unfold renderOnce in *.
  set (s1 := set_enabled false (drop_listener l s)) in *.
  destruct (reevaluate_nodes_effect s1) as (_ & _ & He & _ & Hn & Hlog).
  assert (Hflag : updateOnRenderOnceEnabled
                    (emit_effect (ELayerUpdate None) (reevaluate_nodes o s1)) = false).
  { change (updateOnRenderOnceEnabled (reevaluate_nodes o s1) = false).
    rewrite He. reflexivity. }
  split; [|split; [|split]].
  - change (log (reevaluate_nodes o s1) ++ [ELayerUpdate None] = 
            log s ++ [EInitCollection (cy_nodes o s); ELayerUpdateOnRenderOnce;
                      ELayerUpdate None]).
    rewrite Hlog. rewrite <- app_assoc. reflexivity.
  - change (nodes (reevaluate_nodes o s1) = cy_nodes o s).
    rewrite Hn. reflexivity.

  - exact Hflag.
  - destruct HI' as [_ Hp _ _]. unfold Pend in Hp. rewrite Hflag in Hp. exact Hp.
Qed.

(** *** Events of the host preserve the invariant *)

Lemma Inv_set_live v s : Inv s -> Inv (set_live v s).
Proof. apply Inv_ext; reflexivity. Qed.

Lemma Inv_host_event s e : Inv s -> Inv (host_event o s e).
Proof.
  intros HI. destruct e as [n|n|]; simpl.
  - unfold emit. apply fold_element_Inv; [discriminate| |apply Inv_set_live, HI].
    apply HI.
  - unfold emit. apply fold_element_Inv; [discriminate| |apply Inv_set_live, HI].
    apply HI.
  - apply Inv_tick, HI.
Qed.

Lemma Inv_play es : forall s, Inv s -> Inv (play o s es).
Proof.
  induction es as [|e es IH]; intros s HI; [exact HI|].
  simpl. apply IH, Inv_host_event, HI.
Qed.

(** *** The binding as [renderPerNode] sets it up *)

Lemma foreign_listeners_wf others : forall i,
  Forall ok_listener (foreign_listeners i others)
  /\ Forall (fun l => (i <= li_id l < i + length others)%nat)
            (foreign_listeners i others)
  /\ NoDup (map li_id (foreign_listeners i others))
  /\ Forall (fun l => li_handler l <> HRenderOnce) (foreign_listeners i others).
Proof.
  induction others as [|[ev k] rest IH]; intros i; simpl.
  - repeat split; constructor.
  - destruct (IH (S i)) as (Hok & Hr & Hnd & Hq). repeat split.
    + constructor; [reflexivity|exact Hok].
    + constructor; [simpl; lia|].
      eapply Forall_impl; [exact Hr|]. simpl. intros; lia.
    + apply NoDup_cons. split; [|exact Hnd].
      intros Hin. apply list_elem_of_fmap in Hin as (l & Hid & Hl).
      rewrite Forall_forall in Hr. specialize (Hr _ Hl). lia.
    + constructor; [discriminate|exact Hq].
Qed.

Lemma Wf_fresh_host ns others : Wf (fresh_host ns others).
Proof.
  destruct (foreign_listeners_wf others 0) as (Hok & Hr & Hnd & _).
  repeat split; simpl; try assumption.
  eapply Forall_impl; [exact Hr|]. simpl. intros; lia.
Qed.

Lemma pending_fresh_host ns others : pending (fresh_host ns others) = 0%nat.
Proof.
  destruct (foreign_listeners_wf others 0) as (_ & _ & _ & Hq).
  unfold pending. simpl.
  rewrite (filter_none (fun l => li_handler l = HRenderOnce)); [reflexivity|].
  exact Hq.
Qed.


Lemma ok_scheduler_listener k ev :
  ev <> EvRender -> ok_listener (mkListener k ev true HRevaluateAndUpdateOnce false).
Proof. intros H. repeat split. exact H. Qed.

Lemma Inv_setup ty ns others :
  queryEachTime o = false -> Inv (renderPerNode o ty (fresh_host ns others)).
Proof.
  intros Hq. unfold renderPerNode. rewrite Hq.
  set (s0 := match updateOn o with
             | URender => set_updateOnRender true _
             | _ => _
             end).
  assert (Hwf0 : Wf s0).
  { eapply (Wf_ext (fresh_host ns others)); [| |apply Wf_fresh_host];
      subst s0; destruct (updateOn o); reflexivity. }
  assert (Hp0 : pending s0 = 0%nat /\ updateOnRenderOnceEnabled s0 = false).
  { rewrite <- (pending_fresh_host ns others).
    subst s0; destruct (updateOn o); split; reflexivity. }
  set (s1 := reevaluate_nodes o s0).
  assert (Hwf1 : Wf s1) by apply Wf_reevaluate, Hwf0.
  assert (Hp1 : pending s1 = 0%nat /\ updateOnRenderOnceEnabled s1 = false).
  { subst s1. rewrite pending_reevaluate.
    destruct (reevaluate_nodes_effect s0) as (_ & _ & -> & _). exact Hp0. }
  assert (Hpart1 : Part s1) by apply Part_reevaluate.
  clearbody s1. clear s0 Hwf0 Hp0.
  set (s2
 := if allowPartialUpdate o && bool_decide (is_Some (element_event o))
             then _ else _).
  assert (HI2 : Inv s2).
  { subst s2.
    destruct (allowPartialUpdate o && bool_decide (is_Some (element_event o))) eqn:E;
      unfold cy_on; cbn [foldl]; split.
    - apply Wf_register; [apply Wf_register; [exact Hwf1|]|].
      + apply ok_scheduler_listener. discriminate.
      + apply ok_removeNode_listener.
        apply andb_true_iff in E as [E _]. exact E.
    - unfold Pend. rewrite !pending_register. simpl.
      destruct Hp1 as [-> ->]. reflexivity.
    - intros ev Hev. destruct ev; simpl in Hev.
      + simpl. apply Exists_app. left. apply Exists_app. right.
        constructor. split; reflexivity.
      + unfold wired in Hev. simpl in Hev. rewrite E in Hev. discriminate.
      + discriminate.
    - intros Hpar. simpl. apply Exists_app. right. constructor. reflexivity.
    - apply Wf_register; [apply Wf_register; [exact Hwf1|]|];
        apply ok_scheduler_listener; discriminate.
    - unfold Pend. rewrite !pending_register. simpl.
      destruct Hp1 as [-> ->]. reflexivity.
    - intros ev Hev. destruct ev; simpl in Hev.
      + simpl. apply Exists_app. left. apply Exists_app. right.
        constructor. split; reflexivity.
      + simpl. apply Exists_app. right. constructor. split; reflexivity.
      + discriminate.
    - intros Hpar. simpl. apply Exists_app. left. apply Exists_app. left.
      apply Hpart1, Hpar. }
  destruct ty; [|destruct (checkBounds o)..];
    (eapply Inv_ext; [| | |exact HI2]; reflexivity).
Qed.

(** *** Bursts of events *)

Lemma host_event_keeps_flag s e :
  Inv s -> e <> Render -> updateOnRenderOnceEnabled s = true ->
  updateOnRenderOnceEnabled (host_event o s e) = true.
Proof.
  intros HI He E. destruct e as [n|n|]; [| |congruence]; simpl; unfold emit;
    (apply fold_element_keeps_flag; [discriminate|apply HI|exact E]).
Qed.

Lemma host_event_sets_flag s e :
  Inv s -> invalidating o e = true ->
  updateOnRenderOnceEnabled (host_event o s e) = true.
Proof.
  intros HI He. destruct e as [n|n|]; [| |discriminate]; simpl in *; unfold emit;
    (apply fold_element_sets_flag; [discriminate|apply HI|]); simpl.
  - destruct HI as [(Hok & _) _ Hw _]. specialize (Hw EvAdd eq_refl).
    rewrite Forall_forall in Hok.
    apply Exists_exists in Hw as (l & Hin & Hev & Hh).
    apply Exists_exists. exists l. split; [exact Hin|]. split; [|exact Hh].
    specialize (Hok _ Hin). unfold ok_listener in Hok. rewrite Hh in Hok.
    destruct Hok as (Hdel & _). unfold listens. rewrite Hdel, He, Hev.
    reflexivity.
  - apply andb_true_iff in He as [Hsel Hwd].
    destruct HI as [(Hok & _) _ Hw _]. specialize (Hw EvRemove Hwd).
    rewrite Forall_forall in Hok.
    apply Exists_exists in Hw as (l & Hin & Hev & Hh).
    apply Exists_exists. exists l. split; [exact Hin|]. split; [|exact Hh].
    specialize (Hok _ Hin). unfold ok_listener in Hok. rewrite Hh in Hok.
    destruct Hok as (Hdel & _). unfold listens. rewrite Hdel, Hsel, Hev.
    reflexivity.
Qed.

Lemma play_keeps_flag es : Forall (fun e => e <> Render) es ->
  forall s, Inv s -> updateOnRenderOnceEnabled s = true ->
            updateOnRenderOnceEnabled (play o s es) = true.
Proof.
  induction 1 as [|e es He _ IH]; intros s HI E; [exact E|].
  simpl. apply IH; [apply Inv_host_event, HI|].
  apply host_event_keeps_flag; assumption.
Qed.

Lemma burst_sets_flag es : Forall (fun e => e <> Render) es ->
  Exists (fun e => invalidating o e = true) es ->
  forall s, Inv s -> updateOnRenderOnceEnabled (play o s es) = true.
Proof.
  intros Hes HE. induction HE as [e es He|e es HE IH]; intros s HI;
    apply Forall_cons in Hes as [Hne Hes]; simpl.
  - apply play_keeps_flag; [exact Hes|apply Inv_host_event, HI|].
    apply host_event_sets_flag; assumption.
  - apply IH; [exact Hes|apply Inv_host_event, HI].
Qed.

(** Without partial updates on an element event, every add or remove
    of a node the selector matches is invalidating. *)
Lemma invalidating_full_requery n :
  allowPartialUpdate o && bool_decide (is_Some (element_event o)) = false ->
  invalidating o (Add n) = selector o n /\ invalidating o (Remove n) = selector o n.
Proof.
  intros H. unfold invalidating, wired. rewrite H. simpl.
  rewrite andb_true_r. split; reflexivity.
Qed.

(** C2: in cached mode, after any history [pre], a burst of add and
    remove events of which at least one invalidates the collection
    leaves exactly one one-shot render listener waiting; scheduling
    again at that point changes nothing; and the next render tick runs
    exactly one re-evaluation ([initCollection] on the re-queried nodes,
    the layer asked once to update on its next render) and exactly one
    update of the layer, and clears the flag. *)
Theorem burst_collapses_to_one_update ty ns others pre burst :
  queryEachTime o = false ->
  Forall (fun e => e <> Render) burst ->
  Exists (fun e => invalidating o e = true) burst ->
  let s1 := play o (renderPerNode o ty (fresh_host ns others)) (pre ++ burst) in
  let s2 := host_event o s1 Render in
  updateOnRenderOnceEnabled s1 = true
  /\ pending s1 = 1%nat
  /\ revaluateAndUpdateOnce s1 = s1
  /\ log s2 = log s1 ++ [EInitCollection (cy_nodes o s1); ELayerUpdateOnRenderOnce;
                         ELayerUpdate None]
  /\ updateOnRenderOnceEnabled s2 = false
  /\ pending s2 = 0%nat.
Proof.
  intros Hq Hburst Hinv s1 s2.
  pose proof (Inv_setup ty ns others Hq) as HI0.
  assert (HI1 : Inv s1) by (apply Inv_play, HI0).
  assert (E : updateOnRenderOnceEnabled s1 = true).
  { subst s1. unfold play. rewrite foldl_app.
    apply burst_sets_flag; [exact Hburst|exact Hinv|apply Inv_play, HI0]. }
  destruct (tick_effects s1 HI1 E) as (Hlog & _ & Hflag & Hpend).
  split; [exact E|]. split.
  { destruct HI1 as [_ Hp _ _]. unfold Pend in Hp. rewrite E in Hp. exact Hp. }
  split; [apply revaluateAndUpdateOnce_pending, E|].
  split; [exact Hlog|]. split; [exact Hflag|exact Hpend].
Qed.

(** A render tick that follows no invalidating event re-evaluates
    nothing. *)
Lemma quiet_tick_does_nothing ty ns others pre :
  queryEachTime o = false ->
  let s1 := host_event o (play o (renderPerNode o ty (fresh_host ns others)) pre)
                       Render in
  host_event o s1 Render = s1.
Proof.
  intros Hq s1.
  assert (HI : Inv (play o (renderPerNode o ty (fresh_host ns others)) pre))
    by (apply Inv_play, Inv_setup, Hq).
  assert (HI1 : Inv s1) by (apply Inv_host_event, HI).
  apply tick_idle; [exact HI1|].
  subst s1. simpl.
  destruct (updateOnRenderOnceEnabled
              (play o (renderPerNode o ty (fresh_host ns others)) pre)) eqn:E.
  - apply (tick_effects _ HI E).
  - rewrite tick_idle by assumption. exact E.
Qed.

(** *** Removal of a node under partial updates *)

Lemma remove_event_excises s n :
  Inv s -> allowPartialUpdate o = true -> selector o n = true ->
  let s' := host_event o s (Remove n) in
  nodes s' = filter (fun m => m ≠ n) (nodes s)
  /\ live s' = filter (fun m => m ≠ n) (live s)
  /\ exists k, log s' = log s ++ replicate (S k) (ELayerUpdate (Some n)).
Proof.
  intros HI Hpar Hsel. cbv zeta. simpl. unfold emit.
  set (s0 := set_live _ s).
  assert (Hls : cy_listeners s0 = cy_listeners s) by reflexivity.
  destruct HI as [(Hok & _) _ _ Hpart].
  destruct (fold_remove_nodes n (cy_listeners s0)) with (s := s0)
    as (Hn & Hl & Hv); [rewrite Hls; exact Hok|].
  assert (Hrem : removers n (cy_listeners s0) <> []).
  { rewrite Hls. specialize (Hpart Hpar).
    apply Exists_exists in Hpart as (l & Hin & Hh).
    rewrite Forall_forall in Hok. specialize (Hok _ Hin).
    unfold ok_listener in Hok. rewrite Hh in Hok.
    destruct Hok as (Hdel & _ & Hev & _).
    assert (Hl' : l ∈ removers n (cy_listeners s)).
    { apply list_elem_of_filter. split; [|exact Hin]. split; [|exact Hh].
      unfold listens. rewrite Hdel, Hev, Hsel. reflexivity. }
    intros Hnil. rewrite Hnil in Hl'. apply elem_of_nil in Hl'. exact Hl'. }
  rewrite Hn, Hl, Hv. rewrite decide_False by exact Hrem.
  repeat split.
  destruct (removers n (cy_listeners s0)) as [|r rs]; [congruence|].
  exists (length rs). reflexivity.
Qed.

(** *** The [remove] handle *)

(** When no update is pending and partial updates come with an element
    event (or are off), [remove] leaves none of the binding's callbacks
    on the core. *)
Lemma result_remove_clears_core s :
  Inv s -> updateOnRenderOnceEnabled s = false ->
  (allowPartialUpdate o = true -> is_Some (element_event o)) ->
  Forall (fun l => exists k, li_handler l = HOther k)
         (cy_listeners (result_remove o s)).
Proof.
  intros [(Hok & _) Hp _ _] E Hcfg.
  unfold Pend, pending in Hp. rewrite E in Hp.
  apply (filter_length_zero (fun l => li_handler l = HRenderOnce)) in Hp.
  rewrite Forall_forall in Hok, Hp. apply Forall_forall. intros l Hl.
  assert (Hin : l ∈ cy_listeners s
                /\ ~ (li_event l ∈ [EvAdd; EvRemove] /\ li_delegated l = true
                      /\ li_handler l = HRevaluateAndUpdateOnce)
                /\ (is_Some (element_event o) -> allowPartialUpdate o = true ->
                    off_removeNode l)).
  { unfold result_remove in Hl. simpl in Hl.
    apply list_elem_of_filter in Hl as [Hoff Hl].
    destruct (element_event o) as [ev|] eqn:Eev.
    - destruct (allowPartialUpdate o) eqn:Epar; simpl in Hl.
      + apply list_elem_of_filter in Hl as [Hoff' Hl].
        split; [exact Hl|split; [exact Hoff|intros _ _; exact Hoff']].
      + split; [exact Hl|split; [exact Hoff|intros _ [=]]].
    - split; [exact Hl|split; [exact Hoff|intros [? [=]]]]. }

  destruct Hin as (Hin & Hoff & Hoff').
  specialize (Hok _ Hin). specialize (Hp _ Hin). unfold ok_listener in Hok.
  destruct (li_handler l) eqn:Hh; try contradiction; [| |eauto].
  - exfalso. apply Hoff. destruct Hok as (Hdel & _ & Hev).
    repeat split; try assumption.
    destruct (li_event l); [| |congruence]; set_solver.
  - exfalso. destruct Hok as (Hdel & _ & Hev & Hpar).
    apply (Hoff' (Hcfg Hpar) Hpar). repeat split; try assumption.
    rewrite Hev. set_solver.
Qed.

End Events.


Lemma burst_collapses_to_one_update_witness :
  let o := default_options in
  let burst := [Add 4; Remove 1; Add 5]%nat in
  let s1 := play o (renderPerNode o canvas (fresh_host [1; 2]%nat [(EvRender, 7%nat)]))
                 ([Add 3%nat; Render] ++ burst) in
  let s2 := host_event o s1 Render in
  queryEachTime o = false
  /\ Forall (fun e => e <> Render) burst
  /\ Exists (fun e => invalidating o e = true) burst
  /\ updateOnRenderOnceEnabled s1 = true
  /\ pending s1 = 1%nat
  /\ revaluateAndUpdateOnce s1 = s1
  /\ log s2 = log s1 ++ [EInitCollection (cy_nodes o s1); ELayerUpdateOnRenderOnce;
                         ELayerUpdate None]
  /\ updateOnRenderOnceEnabled s2 = false
  /\ pending s2 = 0%nat.
Proof.
  cbv zeta.
  assert (H1 : queryEachTime default_options = false) by reflexivity.
  assert (H2 : Forall (fun e => e <> Render) [Add 4; Remove 1; Add 5]%nat)
    by (apply (bool_decide_eq_true_1 _); vm_compute; reflexivity).
  assert (H3 : Exists (fun e => invalidating default_options e = true)
                      [Add 4; Remove 1; Add 5]%nat)
    by (apply (bool_decide_eq_true_1 _); vm_compute; reflexivity).
  split; [exact H1|]. split; [exact H2|]. split; [exact H3|].
  apply (burst_collapses_to_one_update default_options canvas [1; 2]%nat
           [(EvRender, 7%nat)] [Add 3%nat; Render] _ H1 H2 H3).
Defined.

(** The same burst, run: the one re-evaluation sees the nodes
    [2; 3; 4; 5] (listed in the order of the model's pool, which a host
    need not keep) and the layer is updated once. *)

Example burst_run :
  let o := default_options in
  let s1 := play o (renderPerNode o canvas (fresh_host [1; 2]%nat [(EvRender, 7%nat)]))
                 [Add 3; Render; Add 4; Remove 1; Add 5]%nat in
  drop (length (log s1)) (log (host_event o s1 Render))
  = [EInitCollection [2; 3; 4; 5]%nat; ELayerUpdateOnRenderOnce; ELayerUpdate None].
Proof. vm_compute. reflexivity. Qed.


(** ** Removed nodes *)

Section RemovedNodes.

Context {num paint content : Type}.
Variable num_add num_mul : num -> num -> num.
Variable num_show : num -> string.
Variable inVisibleBounds : @BoundingBox num -> bool.

(** The reconciler of the HTML and SVG bindings on a collection whose
    nodes answer [removed()] with [rm]. *)

Lemma match_one_live (root : @Root content) (mo : @MatchOptions num content) n t :
  match_one root mo n = Some t -> n.2 = false /\ t.1 = n.1.
Proof.
  unfold match_one. destruct n as [m b]. cbn [fst snd].
  destruct b; [discriminate|].
  destruct (mo_isVisible mo (mo_bb mo m)); [intros [= <-]; split; reflexivity|].
  destruct (mo_uniqueElements mo); [|discriminate].
  destruct (list_find (fun t0 : NodeId * Elem => t0.1 = m) root) as [[i t']|] eqn:E;
    [|discriminate].
  cbn [fmap option_fmap option_map snd]. intros [= <-].
  apply list_find_Some in E as (_ & E & _). split; [reflexivity|exact E].
Qed.

Lemma match_one_agree o g ty blank init (render render' : @DomRender num content)
    (root : @Root content) n :
  (n.2 = false -> forall e bb, render e n.1 bb = render' e n.1 bb) ->
  match_one root (matchOptions num_show inVisibleBounds o g ty blank init render) n
  = match_one root (matchOptions num_show inVisibleBounds o g ty blank init render') n.
Proof.
  intros Hagree. unfold match_one, matchOptions.
  cbn [mo_bb mo_isVisible mo_uniqueElements mo_enter mo_update].
  destruct n as [m b]. cbn [fst snd] in *. destruct b; [reflexivity|].
  specialize (Hagree eq_refl).
  destruct (isVisible inVisibleBounds o _); [|reflexivity].
  f_equal. f_equal. destruct ty; unfold update_html, update_svg; apply Hagree.
Qed.

Lemma reconcile_agree o g ty blank init (render render' : @DomRender num content)
    (rm : NodeId -> bool) (root : @Root content) ns :
  (forall e m bb, rm m = false -> render e m bb = render' e m bb) ->
  matchNodes_spec root (map (fun n => (n, rm n)) ns)
                  (matchOptions num_show inVisibleBounds o g ty blank init render)
  = matchNodes_spec root (map (fun n => (n, rm n)) ns)
                    (matchOptions num_show inVisibleBounds o g ty blank init render').
Proof.
  intros Hagree.
  assert (Hone : forall n,
            match_one root (matchOptions num_show inVisibleBounds o g ty blank init render)
                      (n, rm n)
            = match_one root (matchOptions num_show inVisibleBounds o g ty blank init render')
                        (n, rm n)).
  { intros n. apply match_one_agree. cbn [fst snd]. intros Hn e bb. apply Hagree, Hn. }
  assert (Hall : forall l : list NodeId,
            omap (match_one root (matchOptions num_show inVisibleBounds o g ty blank
                                               init render))
                 (map (fun n => (n, rm n)) l)
            = omap (match_one root (matchOptions num_show inVisibleBounds o g ty blank
                                                 init render'))
                   (map (fun n => (n, rm n)) l)).
  { induction l as [|a l IH]; [reflexivity|].
    cbn [map]. cbn [omap list_omap]. rewrite Hone.
    change (list_omap ?f ?l) with (omap f l). rewrite IH. reflexivity. }
  unfold matchNodes_spec.
  destruct ns as [|a [|b ns]]; [reflexivity| |apply Hall].
  cbn [map]. cbn [mo_allowPartialUpdate matchOptions].
  destruct (allowPartialUpdate o); [|apply (Hall [a])].
  rewrite Hone. reflexivity.
Qed.

Lemma reconcile_old_targets (rm : NodeId -> bool) (root : @Root content)
    (mo : @MatchOptions num content) ns t :
  t ∈ matchNodes_spec root (map (fun n => (n, rm n)) ns) mo ->
  rm t.1 = true -> t ∈ root.
Proof.
  assert (Hall : forall l : list NodeId,
            t ∈ omap (match_one root mo) (map (fun n => (n, rm n)) l) ->
            rm t.1 = false).
  { intros l Hin. apply list_elem_of_omap in Hin as ([m b] & Hm & Hone).
    apply list_elem_of_fmap in Hm as (m' & [= -> ->] & _).
    apply match_one_live in Hone as [Hb ->]. exact Hb. }
  unfold matchNodes_spec.
  destruct ns as [|a [|b ns]].
  - intros Hin. apply elem_of_nil in Hin. contradiction.
  - cbn [map]. destruct (mo_allowPartialUpdate mo).
    + intros Hin Hrm. apply elem_of_app in Hin as [Hin|Hin].
      * apply list_elem_of_filter in Hin. tauto.
      * destruct (match_one root mo (a, rm a)) as [t'|] eqn:E.
        -- cbn [option_list] in Hin. apply list_elem_of_singleton in Hin. subst t'.
           apply match_one_live in E as [Hb Ht]. cbn [fst snd] in *.
           rewrite Ht in Hrm. congruence.
        -- cbn [option_list] in Hin. apply elem_of_nil in Hin. contradiction.
    + intros Hin Hrm. specialize (Hall [a] Hin). congruence.
  - intros Hin Hrm. specialize (Hall (a :: b :: ns) Hin). congruence.
Qed.

Lemma reconcile_removed_node (rm : NodeId -> bool) (root : @Root content)
    (mo : @MatchOptions num content) m :
  mo_allowPartialUpdate mo = true -> rm m = true ->
  matchNodes_spec root (map (fun n => (n, rm n)) [m]) mo
  = filter (fun t => t.1 ≠ m) root.
Proof.
  intros Hpar Hrm. unfold matchNodes_spec. cbn [map]. rewrite Hpar.
  unfold match_one. cbn [fst snd]. rewrite Hrm. cbn [option_list].
  apply app_nil_r.
Qed.

Lemma dom_renderer_unfold o g ty blank init (render : @DomRender num content)
    s (root : @Root content) node :
  exists s' ns,
    dom_renderer num_show inVisibleBounds matchNodes_spec o g ty blank init render
                 s root node
    = (s', matchNodes_spec root (map (fun n => (n, removed s n)) ns)
             (matchOptions num_show inVisibleBounds o g ty blank init render))
    /\ s' = (if queryEachTime o then reevaluate_nodes o s else s)
    /\ ns = (if queryEachTime o then nodes s'
             else match node with Some n => [n] | None => nodes s end).
Proof.
  unfold dom_renderer. destruct (queryEachTime o).
  - eexists _, _. split; [|split; reflexivity].
    unfold collection. f_equal. f_equal. apply map_ext. intros n.
    unfold removed. pose proof (reevaluate_nodes_effect o s) as H.
    cbv zeta in H. destruct H as (_ & _ & _ & Hlive & _).
    rewrite Hlive. reflexivity.
  - destruct node; eexists _, _; (split; [|split; reflexivity]); reflexivity.
Qed.


(** C8: no removed node is rendered.  In the canvas pass of every
    binding, whatever the options and the hint, [render] is only called
    for nodes of the collection that are not removed.  [removeNode]
    takes exactly the event's target out of the cached collection,
    keeping the others in order, and only then asks the layer to update
    that node.  And in cached mode with [allowPartialUpdate], at any
    time, a remove event for a node the selector matches reaches
    [removeNode]: afterwards the node is out of the collection.
    In a pass of an HTML or SVG binding the renderer itself tests
    nothing: it hands the collection to [matchNodes], each node with its
    [removed()] answer.  With the reconciler modelled from the spec,
    for every state, root and optional node: the pass does not depend on
    what the draw callback does for removed nodes (the callback is not
    called for them); a target of a removed node that is in the result
    is one that was there before (left as it was, not rendered); and
    under [allowPartialUpdate] the pass for a removed node takes exactly
    the targets of this node away. *)
Theorem removed_nodes_are_not_rendered o g (render : @CanvasRender num paint)
    s ctx hint n :

  (let r := canvas_renderer num_add num_mul inVisibleBounds o g render s ctx hint in
   Forall (fun c => removed r.1 (call_node c) = false /\ call_node c ∈ nodes r.1)
          r.2.2)
  /\ (nodes (removeNode n s) = filter (fun m => m ≠ n) (nodes s)
      /\ (n ∉ nodes (removeNode n s))
      /\ (forall m, m ≠ n -> m ∈ nodes (removeNode n s) <-> m ∈ nodes s)
      /\ log (removeNode n s) = log s ++ [ELayerUpdate (Some n)])
  /\ (forall ty ns others pre,
        queryEachTime o = false -> allowPartialUpdate o = true ->
        selector o n = true ->
        let s1 := play o (renderPerNode o ty (fresh_host ns others)) pre in
        let s2 := host_event o s1 (Remove n) in
        nodes s2 = filter (fun m => m ≠ n) (nodes s1)
        /\ (n ∉ nodes s2)
        /\ removed s2 n = true
        /\ exists k, log s2 = log s1 ++ replicate (S k) (ELayerUpdate (Some n)))
  /\ (forall ty blank init (draw draw' : @DomRender num content)
             (root : @Root content) node,
        let pass := dom_renderer num_show inVisibleBounds matchNodes_spec
                                 o g ty blank init in
        ((forall e m bb, removed s m = false -> draw e m bb = draw' e m bb) ->
         pass draw s root node = pass draw' s root node)
        /\ (forall t, t ∈ (pass draw s root node).2 -> removed s t.1 = true ->
                      t ∈ root)
        /\ (forall m, queryEachTime o = false -> allowPartialUpdate o = true ->
                      node = Some m -> removed s m = true ->
                      (pass draw s root node).2 = filter (fun t => t.1 ≠ m) root)).
Proof.
  split; [|split; [|split]].
  4: { intros ty blank init draw draw' root node pass. subst pass.
       destruct (dom_renderer_unfold o g ty blank init draw s root node)
         as (s1 & ns1 & E1 & Hs1 & Hns1).
       destruct (dom_renderer_unfold o g ty blank init draw' s root node)
         as (s2 & ns2 & E2 & Hs2 & Hns2).
       rewrite E1, E2. cbn [snd]. split; [|split].
       - intros Hagree.
         assert (s2 = s1) as -> by congruence.
         assert (ns2 = ns1) as -> by congruence.
         f_equal. apply reconcile_agree. exact Hagree.
       - intros t Hin Hrm.
         apply (reconcile_old_targets (removed s) root _ ns1 t Hin Hrm).
       - intros m Hq Hpar -> Hrm. rewrite Hq in Hns1. subst ns1.
         apply reconcile_removed_node; [exact Hpar|exact Hrm]. }

  - rewrite canvas_renderer_unfold. cbn [fst snd].
    set (s' := if queryEachTime o then _ else _).
    apply (Forall_fmap call_node
             (fun m => removed s' m = false /\ m ∈ nodes s')).
    change (@fmap list _ _ _ call_node) with (@map (@Call num paint) _ call_node).
    rewrite called_nodes. cbn [map app].
    apply Forall_forall. intros m Hm.
    apply list_elem_of_filter in Hm as [Hp Hin]. split; [|exact Hin].
    unfold participates in Hp. apply andb_true_iff in Hp as [Hp _].
    apply negb_true_iff in Hp. exact Hp.
  - split; [reflexivity|]. split; [|split; [|reflexivity]].
    + simpl. rewrite list_elem_of_filter. tauto.
    + intros m Hm. simpl. rewrite list_elem_of_filter. tauto.
  - intros ty ns others pre Hq Hpar Hsel s1 s2.
    assert (HI : Inv o s1) by (apply Inv_play, Inv_setup, Hq).
    destruct (remove_event_excises o s1 n HI Hpar Hsel) as (Hn & Hv & Hlog).
    fold s2 in Hn, Hv, Hlog.
    split; [exact Hn|]. split; [|split; [|exact Hlog]].
    + rewrite Hn, list_elem_of_filter. tauto.
    + unfold removed. apply bool_decide_eq_true_2.
      rewrite Hv, list_elem_of_filter. tauto.
Qed.

End RemovedNodes.

Lemma removed_nodes_are_not_rendered_witness :
  let o := with_allowPartialUpdate true (with_updateOn (UEvent "position") default_options) in
  let s1 := play o (renderPerNode o html (fresh_host [1; 2]%nat [])) [Add 3%nat; Render] in
  let s2 := host_event o s1 (Remove 2%nat) in
  queryEachTime o = false /\ allowPartialUpdate o = true /\ selector o 2%nat = true
  /\ nodes s2 = filter (fun m => m ≠ 2%nat) (nodes s1)
  /\ (2%nat ∉ nodes s2)
  /\ removed s2 2%nat = true
  /\ exists k, log s2 = log s1 ++ replicate (S k) (ELayerUpdate (Some 2%nat)).
Proof.
  cbv zeta. split; [reflexivity|]. split; [reflexivity|]. split; [reflexivity|].
  destruct (removed_nodes_are_not_rendered (content := nat) Z.add Z.mul Z_show
              (fun _ => true)
              (with_allowPartialUpdate true
                 (with_updateOn (UEvent "position") default_options))
              demo_geometry shifting_render
              (demo_state default_options canvas) blank_ctx (mkHint false) 2%nat)
    as (_ & _ & H & _).
  apply (H html [1; 2]%nat [] [Add 3%nat; Render] eq_refl eq_refl eq_refl).
Defined.


(** A stale cached collection in an HTML binding: node [2] has left the
    graph, the tick that re-queries has not come yet, and the pass makes
    and draws a target for node [1] only. *)
Example dom_pass_skips_removed_node :
  let o := default_options in
  let s := play o (renderPerNode o html (fresh_host [1; 2]%nat [])) [Remove 2%nat] in
  nodes s = [1; 2]%nat
  /\ collection s (nodes s) = [(1%nat, false); (2%nat, true)]
  /\ map (fun t => (t.1, el_content t.2))
         (dom_renderer Z_show (fun _ => true) matchNodes_spec o demo_geometry html
                       0%nat None counting_render s [] None).2
     = [(1%nat, 1%nat)].
Proof. vm_compute. repeat split; reflexivity. Qed.

Example remove_event_run :

  let o := with_allowPartialUpdate true (with_updateOn (UEvent "position") default_options) in
  let s1 := play o (renderPerNode o html (fresh_host [1; 2]%nat [])) [Add 3%nat; Render] in
  let s2 := host_event o s1 (Remove 2%nat) in
  nodes s1 = [1; 2; 3]%nat /\ nodes s2 = [1; 3]%nat
  /\ drop (length (log s1)) (log s2) = [ELayerUpdate (Some 2%nat)].
Proof. vm_compute. repeat split; reflexivity. Qed.

(** ** The [remove] handle at a failing input *)


(** C7 (the code at a failing input): with [allowPartialUpdate] and
    [updateOn: 'none'], [renderPerNode] registers [removeNode] on the
    core's ['remove'] event, and the [remove] handle leaves it there: a
    later removal of a node still reaches the binding, which asks the
    layer to update. *)
Theorem remove_leaves_removeNode_listener :
  let o := with_allowPartialUpdate true default_options in
  let s := renderPerNode o html (fresh_host [1; 2]%nat []) in
  let s' := result_remove o s in
  updateOn o = UNone
  /\ own_listeners s
     = [mkListener 0 EvRemove true HRemoveNode false;
        mkListener 1 EvAdd true HRevaluateAndUpdateOnce false;
        mkListener 2 EvRemove true HRevaluateAndUpdateOnce false]
  /\ own_listeners s' = [mkListener 0 EvRemove true HRemoveNode false]
  /\ log (host_event o s' (Remove 1%nat)) = log s' ++ [ELayerUpdate (Some 1%nat)].
Proof. vm_compute. repeat split; reflexivity. Qed.

End BindingFacts.


(** * Further properties of [renderPerNode] *)

Module BindingMore.
Import Binding BindingFacts.

Lemma filter_all {A} (P : A -> Prop) `{!forall x, Decision (P x)} (l : list A) :
  Forall P l -> filter P l = l.
Proof.
  induction 1 as [|x l Hx _ IH]; [reflexivity|].
  rewrite filter_cons, decide_True by exact Hx. rewrite IH. reflexivity.
Qed.

Section Reachable.

Variable o : Options.

(** The state of a binding after [renderPerNode] on a fresh host and a
    history of host events. *)
Definition reach (ty : LayerType) (ns : list NodeId)
    (others : list (EventName * nat)) (pre : list HostEvent) : State :=
  play o (renderPerNode o ty (fresh_host ns others)) pre.

Lemma Inv_reach ty ns others pre :
  queryEachTime o = false -> Inv o (reach ty ns others pre).
Proof. intros Hq. apply Inv_play, Inv_setup, Hq. Qed.

Lemma play_snoc s es e : play o s (es ++ [e]) = host_event o (play o s es) e.
Proof. unfold play. rewrite foldl_app. reflexivity. Qed.

(** *** Events for nodes the selector does not match *)

Lemma fold_unselected ev n ls : ev <> EvRender -> selector o n = false ->
  Forall (ok_listener o) ls ->
  forall s, foldl (fire o ev (Some n)) s ls = s.
Proof.
  intros Hev Hsel. induction 1 as [|l ls Hl _ IH]; intros s; [reflexivity|].
  cbn [foldl]. rewrite fire_element by assumption.
  assert (Hquiet : (if listens o ev (Some n) l then react n l s else s) = s).
  { unfold listens, react, ok_listener in *. rewrite Hsel.
    destruct (bool_decide (li_event l = ev)) eqn:E; [|reflexivity].
    apply bool_decide_eq_true_1 in E.
    destruct (li_handler l); simpl.
    - destruct Hl as (-> & _). reflexivity.
    - destruct Hl as (-> & _). reflexivity.
    - destruct (li_delegated l); reflexivity.
    - destruct (li_delegated l); reflexivity.
    - destruct (li_delegated l); reflexivity. }
  rewrite Hquiet. apply IH.
Qed.

(** What the emission of ['add'] leaves alone. *)
Lemma fold_add_same n ls : Forall (ok_listener o) ls ->
  forall s,
    let s' := foldl (fire o EvAdd (Some n)) s ls in
    nodes s' = nodes s /\ live s' = live s /\ log s' = log s
    /\ ele_listeners s' = ele_listeners s /\ registered s' = registered s.
Proof.
  induction 1 as [|l ls Hl _ IH]; intros s; cbn [foldl]; [repeat split|].
  specialize (IH (fire o EvAdd (Some n) s l)). cbv zeta in IH |- *.
  destruct IH as (-> & -> & -> & -> & ->).
  rewrite fire_element by (assumption || discriminate).
  destruct (listens o EvAdd (Some n) l) eqn:E; [|repeat split].
  unfold react. destruct (li_handler l) eqn:Hh; try (repeat split; reflexivity).
  - unfold revaluateAndUpdateOnce.
    destruct (updateOnRenderOnceEnabled s); repeat split; reflexivity.
  - exfalso. unfold ok_listener in Hl. rewrite Hh in Hl.
    destruct Hl as (_ & _ & Hev & _). unfold listens in E. rewrite Hev in E.
    discriminate E.
Qed.

Lemma tick_live s : Inv o s -> live (emit o EvRender None s) = live s.
Proof.
  intros HI. destruct (updateOnRenderOnceEnabled s) eqn:E.
  - destruct (tick_pending o s HI E) as (l1 & l & l2 & _ & _ & _ & _ & ->).
    unfold renderOnce.
    set (s1 := set_enabled false (drop_listener l s)).
    destruct (reevaluate_nodes_effect o s1) as (_ & _ & _ & Hv & _).
    change (live (reevaluate_nodes o s1) = live s). rewrite Hv. reflexivity.
  - rewrite tick_idle by assumption. reflexivity.
Qed.

Lemma tick_clears_flag s :
  Inv o s -> updateOnRenderOnceEnabled (emit o EvRender None s) = false.
Proof.
  intros HI. destruct (updateOnRenderOnceEnabled s) eqn:E.
  - apply (tick_effects o s HI E).
  - rewrite tick_idle by assumption. exact E.
Qed.

(** *** The cached collection *)

Lemma filter_selected_remove n (l : list NodeId) :
  filter (fun m => m ≠ n) (filter (fun m => selector o m = true) l)
  = filter (fun m => selector o m = true) (filter (fun m => m ≠ n) l).
Proof. rewrite !list_filter_filter. apply list_filter_iff. tauto. Qed.

Lemma filter_selected_unselected n (l : list NodeId) :
  selector o n = false ->
  filter (fun m => selector o m = true) (filter (fun m => m ≠ n) l)
  = filter (fun m => selector o m = true) l.
Proof.
  intros Hsel. rewrite list_filter_filter. apply list_filter_iff.
  intros m. split; [tauto|]. intros Hm. split; [exact Hm|congruence].
Qed.

(** *** The host's pool

    The host keeps the nodes of the graph in a pool and promises no
    order: a removal may move another element into the freed slot.  The
    states a binding can be in are those that [renderPerNode] on a fresh
    host, events of the host and changes of the pool's order lead to. *)
Inductive reachable (ty : LayerType) (ns : list NodeId)
    (others : list (EventName * nat)) : State -> Prop :=
| reach_setup :
    reachable ty ns others (renderPerNode o ty (fresh_host ns others))
| reach_event s e :
    reachable ty ns others s -> reachable ty ns others (host_event o s e)
| reach_reorder s pool :
    reachable ty ns others s -> pool ≡ₚ live s ->
    reachable ty ns others (set_live pool s).

Lemma Inv_reachable ty ns others s :
  queryEachTime o = false -> reachable ty ns others s -> Inv o s.
Proof.
  intros Hq. induction 1 as [|s e _ IH|s pool _ IH _].
  - apply Inv_setup, Hq.
  - apply Inv_host_event, IH.
  - apply Inv_set_live, IH.
Qed.

Lemma reachable_play ty ns others es : forall s,
  reachable ty ns others s -> reachable ty ns others (play o s es).
Proof.
  induction es as [|e es IH]; intros s Hs; [exact Hs|].
  simpl. apply IH, reach_event, Hs.
Qed.

(** Coherence of the cache: unless an update is pending, the cached
    collection holds the nodes the selector gives on the graph as it
    is, each as often, whatever the order of the pool. *)
Definition coherent (s : State) : Prop :=
  updateOnRenderOnceEnabled s = false -> nodes s ≡ₚ cy_nodes o s.

Lemma coherent_setup ty ns others :
  queryEachTime o = false ->
  nodes (renderPerNode o ty (fresh_host ns others))
  = cy_nodes o (renderPerNode o ty (fresh_host ns others)).
Proof.
  intros Hq. unfold renderPerNode. rewrite Hq.
  unfold reevaluate_nodes, reevaluateCollection, cy_nodes, cy_on, element_event.
  destruct (updateOn o), (allowPartialUpdate o), ty, (checkBounds o);
    reflexivity.
Qed.

Lemma coherent_host_event s e :
  Inv o s -> coherent s -> coherent (host_event o s e).
Proof.
  intros HI Hc. destruct e as [n|n|].
  - (* add *)
    destruct (selector o n) eqn:Hsel.
    + intros Hflag. rewrite host_event_sets_flag in Hflag by assumption.
      discriminate.
    + simpl. unfold emit.
      rewrite fold_unselected; [|discriminate|exact Hsel|apply HI].
      intros Hflag. unfold cy_nodes. simpl.
      rewrite (Hc Hflag). unfold cy_nodes.
      destruct (decide (n ∈ live s)); [reflexivity|].
      rewrite filter_app, filter_cons, decide_False by congruence.
      rewrite app_nil_r. reflexivity.
  - (* remove *)
    destruct (selector o n) eqn:Hsel.
    + destruct (updateOnRenderOnceEnabled s) eqn:E.
      { intros Hflag. rewrite host_event_keeps_flag in Hflag;
          [discriminate|assumption|discriminate|assumption]. }
      destruct (wired o EvRemove) eqn:Hw.
      { intros Hflag. rewrite host_event_sets_flag in Hflag; [discriminate|exact HI|].
        unfold invalidating. rewrite Hsel, Hw. reflexivity. }
      assert (Hpar : allowPartialUpdate o = true).
      { unfold wired in Hw. apply negb_false_iff, andb_true_iff in Hw. tauto. }
      destruct (remove_event_excises o s n HI Hpar Hsel) as (Hn & Hv & _).
      intros _. rewrite Hn. unfold cy_nodes. rewrite Hv.
      rewrite <- filter_selected_remove.
      apply filter_Permutation. apply (Hc E).
    + simpl. unfold emit.
      rewrite fold_unselected; [|discriminate|exact Hsel|apply HI].
      intros Hflag. unfold cy_nodes. simpl. rewrite (Hc Hflag).
      unfold cy_nodes. rewrite filter_selected_unselected by exact Hsel.
      reflexivity.
  - (* render *)
    simpl. intros _. destruct (updateOnRenderOnceEnabled s) eqn:E.
    + destruct (tick_effects o s HI E) as (_ & -> & _).
      unfold cy_nodes. rewrite tick_live by exact HI. reflexivity.
    + rewrite tick_idle by assumption. apply Hc, E.
Qed.

Lemma coherent_reorder s pool :
  pool ≡ₚ live s -> coherent s -> coherent (set_live pool s).
Proof.
  intros Hp Hc Hflag. change (nodes s ≡ₚ filter (fun n => selector o n = true) pool).
  rewrite Hp. apply Hc, Hflag.
Qed.

Lemma coherent_reachable ty ns others s :
  queryEachTime o = false -> reachable ty ns others s -> coherent s.
Proof.
  intros Hq Hs. induction Hs as [|s e Hs IH|s pool Hs IH Hp].
  - intros _. rewrite (coherent_setup ty ns others Hq). reflexivity.
  - apply coherent_host_event; [apply (Inv_reachable _ _ _ _ Hq Hs)|exact IH].
  - apply coherent_reorder; assumption.
Qed.

(** X1: in cached mode, for a selector whose matches depend on the node
    alone, after set-up, any events of the host and any changes of the
    order of its pool: whenever no update is pending, the cached
    collection holds exactly the nodes of the graph the selector
    matches (each once per occurrence; the order may differ from the
    pool's); this is so after every render tick, and a tick that finds
    an update pending leaves the cache equal, also in order, to what the
    selector gives on the pool at that time. *)
Theorem cache_is_coherent ty ns others s :
  queryEachTime o = false -> reachable ty ns others s ->
  (updateOnRenderOnceEnabled s = false -> nodes s ≡ₚ cy_nodes o s)
  /\ nodes (host_event o s Render) ≡ₚ cy_nodes o (host_event o s Render)
  /\ (updateOnRenderOnceEnabled s = true ->
      nodes (host_event o s Render) = cy_nodes o s
      /\ live (host_event o s Render) = live s).
Proof.
  intros Hq Hs. pose proof (Inv_reachable _ _ _ _ Hq Hs) as HI.
  split; [apply (coherent_reachable ty ns others s Hq Hs)|]. split.
  - apply (coherent_reachable ty ns others _ Hq (reach_event _ _ _ s Render Hs)).
    apply tick_clears_flag, HI.
  - intros E. split; [apply (tick_effects o s HI E)|apply tick_live, HI].
Qed.

(** X2: in cached mode, at every time, the binding has at most one
    one-shot render listener on the core, and it has one exactly while
    its update flag is set; a render tick always leaves the flag clear,
    and a render tick that finds the flag clear changes nothing. *)
Theorem one_pending_listener_at_most ty ns others pre :
  queryEachTime o = false ->
  let s := reach ty ns others pre in
  pending s = (if updateOnRenderOnceEnabled s then 1 else 0)%nat
  /\ updateOnRenderOnceEnabled (host_event o s Render) = false
  /\ (updateOnRenderOnceEnabled s = false -> host_event o s Render = s).
Proof.
  intros Hq s. pose proof (Inv_reach ty ns others pre Hq) as HI. fold s in HI.
  split; [apply HI|]. split; [apply tick_clears_flag, HI|].
  intros E. apply tick_idle; assumption.
Qed.

Lemma fold_element_keeps ev n ls : ev <> EvRender -> Forall (ok_listener o) ls ->
  forall s,
    let s' := foldl (fire o ev (Some n)) s ls in
    ele_listeners s' = ele_listeners s /\ registered s' = registered s
    /\ layer_updateOnRender s' = layer_updateOnRender s
    /\ layer_updateOnTransform s' = layer_updateOnTransform s.
Proof.
  intros Hev. induction 1 as [|l ls Hl _ IH]; intros s; cbn [foldl]; [repeat split|].
  specialize (IH (fire o ev (Some n) s l)). cbv zeta in IH |- *.
  destruct IH as (-> & -> & -> & ->).
  rewrite fire_element by assumption.
  destruct (listens o ev (Some n) l); [|repeat split].
  unfold react. destruct (li_handler l); try (repeat split; reflexivity).
  unfold revaluateAndUpdateOnce.
  destruct (updateOnRenderOnceEnabled s); repeat split; reflexivity.
Qed.

(** The selected nodes only. *)
Definition selected (s : State) : Prop :=
  Forall (fun n => selector o n = true) (nodes s).

Lemma selected_cy_nodes s : Forall (fun n => selector o n = true) (cy_nodes o s).
Proof.
  apply Forall_forall. intros n Hn. unfold cy_nodes in Hn.
  apply list_elem_of_filter in Hn. tauto.
Qed.

Lemma selected_host_event s e : Inv o s -> selected s -> selected (host_event o s e).
Proof.
  intros HI Hs. unfold selected in *. destruct e as [n|n|]; simpl.
  - unfold emit.
    destruct (fold_add_same n (cy_listeners (set_live
       (if decide (n ∈ live s) then live s else live s ++ [n]) s)))
      with (s := set_live (if decide (n ∈ live s) then live s else live s ++ [n]) s)
      as (-> & _); [apply HI|exact Hs].
  - unfold emit.
    destruct (fold_remove_nodes o n (cy_listeners (set_live
       (filter (fun m => m ≠ n) (live s)) s)))
      with (s := set_live (filter (fun m => m ≠ n) (live s)) s)
      as (-> & _); [apply HI|].
    destruct (decide _); [exact Hs|apply Forall_filter_keep, Hs].
  - destruct (updateOnRenderOnceEnabled s) eqn:E.
    + destruct (tick_effects o s HI E) as (_ & -> & _). apply selected_cy_nodes.
    + rewrite tick_idle by assumption. exact Hs.
Qed.

Lemma selected_play es : forall s, Inv o s -> selected s -> selected (play o s es).
Proof.
  induction es as [|e es IH]; intros s HI Hs; [exact Hs|].
  simpl. apply IH; [apply Inv_host_event, HI|apply selected_host_event; assumption].
Qed.

Lemma selected_reach ty ns others pre :
  queryEachTime o = false -> selected (reach ty ns others pre).
Proof.
  intros Hq. apply selected_play; [apply Inv_setup, Hq|].
  unfold selected. rewrite coherent_setup by exact Hq. apply selected_cy_nodes.
Qed.

(** *** Listeners of other code *)

Definition others_of (s : State) : list Listener :=
  filter (fun l => own (li_handler l) = false) (cy_listeners s).

Lemma others_of_register ev del hd once s :
  own hd = true ->
  others_of (cy_register ev del hd once s) = others_of s.
Proof.
  intros Hown. unfold others_of. simpl.
  rewrite filter_app, filter_cons, decide_False by (simpl; congruence).
  apply app_nil_r.
Qed.

Lemma others_of_reevaluate s : others_of (reevaluate_nodes o s) = others_of s.
Proof.
  destruct (reevaluate_nodes_effect o s) as (Hl & _).
  unfold others_of. rewrite Hl. destruct (allowPartialUpdate o); [|reflexivity].
  rewrite filter_app, filter_cons, decide_False by (simpl; congruence).
  rewrite app_nil_r. apply filter_filter_keep.
  apply Forall_forall. intros l _ Hown (_ & _ & Hh). rewrite Hh in Hown.
  discriminate.
Qed.

Lemma others_of_react n l s : others_of (react n l s) = others_of s.
Proof.
  unfold react. destruct (li_handler l); try reflexivity.
  unfold revaluateAndUpdateOnce.
  destruct (updateOnRenderOnceEnabled s); [reflexivity|].
  unfold cy_one. rewrite others_of_register by reflexivity. reflexivity.
Qed.

Lemma others_of_fold ev n ls : ev <> EvRender -> Forall (ok_listener o) ls ->
  forall s, others_of (foldl (fire o ev (Some n)) s ls) = others_of s.
Proof.
  intros Hev. induction 1 as [|l ls Hl _ IH]; intros s; cbn [foldl]; [reflexivity|].
  rewrite IH. rewrite fire_element by assumption.
  destruct (listens o ev (Some n) l); [apply others_of_react|reflexivity].
Qed.

Lemma others_of_tick s : Inv o s -> others_of (emit o EvRender None s) = others_of s.
Proof.
  intros HI. destruct (updateOnRenderOnceEnabled s) eqn:E.
  - destruct (tick_pending o s HI E) as (l1 & l & l2 & Hsplit & Hl & _ & _ & ->).
    unfold renderOnce.
    change (others_of (reevaluate_nodes o (set_enabled false (drop_listener l s)))
            = others_of s).
    rewrite others_of_reevaluate. unfold others_of. simpl.
    apply filter_filter_keep. apply Forall_forall. intros x Hx Hown Hid.
    destruct HI as [(_ & Hnd & _) _ _ _].
    assert (Hin : l ∈ cy_listeners s).
    { rewrite Hsplit. apply elem_of_app. right. apply elem_of_cons. tauto. }
    pose proof (NoDup_map_inj li_id _ _ _ Hnd Hx Hin Hid). subst x.
    rewrite Hl in Hown. discriminate.
  - rewrite tick_idle by assumption. reflexivity.
Qed.

Lemma others_of_host_event s e :
  Inv o s -> others_of (host_event o s e) = others_of s.
Proof.
  intros HI. destruct e as [n|n|]; simpl.
  - unfold emit. rewrite others_of_fold; [reflexivity|discriminate|apply HI].
  - unfold emit. rewrite others_of_fold; [reflexivity|discriminate|apply HI].
  - apply others_of_tick, HI.
Qed.

Lemma others_of_play es : forall s, Inv o s -> others_of (play o s es) = others_of s.
Proof.
  induction es as [|e es IH]; intros s HI; [reflexivity|].
  simpl. rewrite IH by (apply Inv_host_event, HI).
  apply others_of_host_event, HI.
Qed.

Lemma others_of_foreign others : forall i,
  filter (fun l => own (li_handler l) = false) (foreign_listeners i others)
  = foreign_listeners i others.
Proof.
  induction others as [|[ev k] rest IH]; intros i; simpl; [reflexivity|].
  rewrite filter_cons, decide_True by reflexivity. rewrite IH. reflexivity.
Qed.

Lemma others_of_setup ty ns others :
  others_of (renderPerNode o ty (fresh_host ns others)) = foreign_listeners 0 others.
Proof.
  rewrite <- (others_of_foreign others 0).
  unfold renderPerNode.
  set (s0 := match updateOn o with
             | URender => set_updateOnRender true _
             | _ => _
             end).
  assert (H0 : others_of s0
               = filter (fun l => own (li_handler l) = false)
                        (foreign_listeners 0 others)).
  { subst s0. destruct (updateOn o); reflexivity. }
  set (s2 := if queryEachTime o then s0 else _).
  assert (H2 : others_of s2 = others_of s0).
  { subst s2. destruct (queryEachTime o); [reflexivity|].
    destruct (allowPartialUpdate o && bool_decide (is_Some (element_event o)));
      unfold cy_on; cbn [foldl];
      rewrite !others_of_register by reflexivity;
      apply others_of_reevaluate. }
  rewrite <- H0, <- H2.
  destruct ty; [|destruct (checkBounds o)..]; reflexivity.
Qed.

Lemma others_of_reach ty ns others pre :
  queryEachTime o = false ->
  others_of (reach ty ns others pre) = foreign_listeners 0 others.
Proof.
  intros Hq. unfold reach. rewrite others_of_play by apply Inv_setup, Hq.
  apply others_of_setup.
Qed.

Lemma others_of_result_remove s : others_of (result_remove o s) = others_of s.
Proof.
  unfold others_of, result_remove. simpl.
  assert (Hoff : forall h (ls : list Listener) (evs : list EventName), own h = true ->
            filter (fun l => own (li_handler l) = false)
              (filter (fun l => ~ (li_event l ∈ evs /\ li_delegated l = true
                                   /\ li_handler l = h)) ls)
            = filter (fun l => own (li_handler l) = false) ls).
  { intros h ls evs Hh. apply filter_filter_keep. apply Forall_forall.
    intros l _ Hown (_ & _ & Hh'). rewrite Hh' in Hown. congruence. }
  destruct (element_event o); [destruct (allowPartialUpdate o)|]; simpl;
    rewrite ?Hoff by reflexivity; reflexivity.
Qed.

(** X4: the binding never removes, reorders or adds to the listeners
    other code has on the core: setting the binding up, any history of
    host events, and the [remove] handle leave them as they were. *)
Theorem other_listeners_untouched ty ns others pre :
  queryEachTime o = false ->
  let s := reach ty ns others pre in
  others_of s = foreign_listeners 0 others
  /\ others_of (result_remove o s) = foreign_listeners 0 others.
Proof.
  intros Hq s. split; [apply others_of_reach, Hq|].
  rewrite others_of_result_remove. apply others_of_reach, Hq.
Qed.

(** *** The [remove] handle *)

(** X3: in cached mode, when partial updates are off or come with an
    element event, calling [remove] right after a render tick takes

    every callback of the binding off the core, leaves the callbacks of
    other code in place and in order, and takes the render callback off
    the layer. *)
Theorem remove_after_tick_clears_core ty ns others pre :
  queryEachTime o = false ->
  (allowPartialUpdate o = true -> is_Some (element_event o)) ->
  let s := result_remove o (reach ty ns others (pre ++ [Render])) in
  own_listeners s = []
  /\ cy_listeners s = foreign_listeners 0 others
  /\ registered s = false.
Proof.
  intros Hq Hcfg s.
  set (s1 := reach ty ns others (pre ++ [Render])) in *.
  assert (HI : Inv o s1) by apply Inv_reach, Hq.
  assert (E : updateOnRenderOnceEnabled s1 = false).
  { subst s1. unfold reach. rewrite play_snoc. apply tick_clears_flag.
    apply Inv_play, Inv_setup, Hq. }
  pose proof (result_remove_clears_core o s1 HI E Hcfg) as Hclear. fold s in Hclear.
  split; [|split; [|reflexivity]].
  - unfold own_listeners. apply filter_none.
    eapply Forall_impl; [exact Hclear|]. cbn beta. intros l [k ->]. discriminate.
  - rewrite <- (others_of_reach ty ns others (pre ++ [Render]) Hq).
    fold s1. rewrite <- (others_of_result_remove s1). fold s.
    unfold others_of. symmetry. apply filter_all.
    eapply Forall_impl; [exact Hclear|]. cbn beta. intros l [k ->]. reflexivity.
Qed.


(** *** Listeners on the elements *)

(** The element listeners a binding with full re-queries should have:
    one for the update event on every node of the cached collection. *)
Definition element_listeners_of (ns : list NodeId) : list (NodeId * string * Handler) :=
  match element_event o with
  | Some ev => map (fun n => (n, ev, HLayerUpdateOnRenderOnce)) ns
  | None => []
  end.

Lemma coll_off_all ev (ns : list NodeId) :
  filter (fun l : NodeId * string * Handler =>
            ~ (l.1.1 ∈ ns /\ l.1.2 = ev /\ l.2 = HLayerUpdateOnRenderOnce))
         (map (fun n => (n, ev, HLayerUpdateOnRenderOnce)) ns) = [].
Proof.
  apply filter_none. apply Forall_forall. intros l Hl Hnot. apply Hnot.
  apply list_elem_of_fmap in Hl as (n & -> & Hn). simpl. tauto.
Qed.

Lemma reevaluate_element_listeners s :
  ele_listeners s = element_listeners_of (nodes s) ->
  ele_listeners (reevaluate_nodes o s) = element_listeners_of (cy_nodes o s).
Proof.
  unfold element_listeners_of, reevaluate_nodes, reevaluateCollection, cy_nodes.
  intros He. destruct (element_event o) as [ev|], (allowPartialUpdate o); simpl;
    rewrite He; rewrite ?coll_off_all; reflexivity.
Qed.

Lemma no_removers n ls :
  allowPartialUpdate o = false -> Forall (ok_listener o) ls -> removers o n ls = [].
Proof.
  intros Hpar Hok. apply filter_none. rewrite Forall_forall in *.
  intros l Hl [_ Hh]. specialize (Hok _ Hl). unfold ok_listener in Hok.
  rewrite Hh in Hok. destruct Hok as (_ & _ & _ & Hp). congruence.
Qed.

Definition listening (s : State) : Prop :=
  ele_listeners s = element_listeners_of (nodes s).

Lemma listening_host_event s e :
  allowPartialUpdate o = false -> Inv o s -> listening s ->
  listening (host_event o s e).
Proof.
  intros Hpar HI Hs. unfold listening in *. destruct e as [n|n|]; simpl.
  - unfold emit.
    destruct (fold_add_same n (cy_listeners (set_live
       (if decide (n ∈ live s) then live s else live s ++ [n]) s)))
      with (s := set_live (if decide (n ∈ live s) then live s else live s ++ [n]) s)
      as (-> & _ & _ & -> & _); [apply HI|exact Hs].
  - unfold emit.
    set (s0 := set_live (filter (fun m => m ≠ n) (live s)) s).
    assert (Hok : Forall (ok_listener o) (cy_listeners s0)) by apply HI.
    destruct (fold_remove_nodes o n (cy_listeners s0) Hok s0) as (-> & _).
    destruct (fold_element_keeps EvRemove n (cy_listeners s0)) with (s := s0)
      as (-> & _); [discriminate|exact Hok|].
    rewrite no_removers by assumption. rewrite decide_True by reflexivity.
    exact Hs.
  - destruct (updateOnRenderOnceEnabled s) eqn:E.
    + destruct (tick_pending o s HI E) as (l1 & l & l2 & _ & _ & _ & _ & ->).
      unfold renderOnce.
      set (s1 := set_enabled false (drop_listener l s)).
      change (ele_listeners (reevaluate_nodes o s1)
              = element_listeners_of (nodes (reevaluate_nodes o s1))).
      destruct (reevaluate_nodes_effect o s1) as (_ & _ & _ & _ & -> & _).
      apply reevaluate_element_listeners. exact Hs.
    + rewrite tick_idle by assumption. exact Hs.
Qed.

Lemma listening_play es : allowPartialUpdate o = false ->
  forall s, Inv o s -> listening s -> listening (play o s es).
Proof.
  intros Hpar. induction es as [|e es IH]; intros s HI Hs; [exact Hs|].
  simpl. apply IH; [apply Inv_host_event, HI|apply listening_host_event; assumption].
Qed.

Lemma listening_setup ty ns others :
  queryEachTime o = false -> allowPartialUpdate o = false ->
  listening (renderPerNode o ty (fresh_host ns others)).
Proof.
  intros Hq Hpar. unfold listening, renderPerNode. rewrite Hq, Hpar.
  unfold reevaluate_nodes, reevaluateCollection, cy_nodes, cy_on,
    element_listeners_of, element_event.
  rewrite Hpar.
  destruct (updateOn o), ty, (checkBounds o); reflexivity.
Qed.

(** X5: in cached mode without partial updates, at every time the
    element listeners of the binding are exactly one listener for the
    update event on each node of the cached collection (none when
    [updateOn] is ['none'] or ['render']): re-evaluations do not pile
    listeners up, and the [remove] handle takes all of them off. *)
Theorem element_listeners_follow_collection ty ns others pre :
  queryEachTime o = false -> allowPartialUpdate o = false ->
  let s := reach ty ns others pre in
  ele_listeners s = element_listeners_of (nodes s)
  /\ ele_listeners (result_remove o s) = [].
Proof.
  intros Hq Hpar s.
  assert (Hs : listening s).
  { apply listening_play; [exact Hpar|apply Inv_setup, Hq|].
    apply listening_setup; assumption. }
  split; [exact Hs|].
  unfold result_remove. rewrite Hpar. unfold listening, element_listeners_of in Hs.
  destruct (element_event o) as [ev|]; simpl; rewrite Hs; [|reflexivity].
  apply coll_off_all.
Qed.

(** *** How often [removeNode] is registered *)

Lemma remove_event_log s n :
  Forall (ok_listener o) (cy_listeners s) ->
  log (host_event o s (Remove n))
  = log s ++ replicate (length (removers o n (cy_listeners s)))
                       (ELayerUpdate (Some n)).
Proof.
  intros Hok. simpl. unfold emit.
  set (s0 := set_live (filter (fun m => m ≠ n) (live s)) s).
  destruct (fold_remove_nodes o n (cy_listeners s0) Hok s0) as (_ & -> & _).
  reflexivity.
Qed.

Lemma removers_app n l1 l2 :
  removers o n (l1 ++ l2) = removers o n l1 ++ removers o n l2.
Proof. unfold removers. apply filter_app. Qed.

Lemma removers_off n ls :
  Forall (ok_listener o) ls -> removers o n (filter off_removeNode ls) = [].
Proof.
  intros Hok. apply filter_none. rewrite Forall_forall in *.
  intros l Hl [_ Hh]. apply list_elem_of_filter in Hl as [Hoff Hl].
  specialize (Hok _ Hl). unfold ok_listener in Hok. rewrite Hh in Hok.
  destruct Hok as (Hdel & _ & Hev & _). apply Hoff.
  split; [rewrite Hev; apply list_elem_of_singleton; reflexivity|tauto].
Qed.

Lemma removers_one n k :
  selector o n = true ->
  removers o n [mkListener k EvRemove true HRemoveNode false]
  = [mkListener k EvRemove true HRemoveNode false].
Proof.
  intros Hsel. unfold removers. rewrite filter_cons, decide_True; [reflexivity|].
  unfold listens. simpl. rewrite Hsel. split; reflexivity.
Qed.

Lemma removers_scheduler n k ev :
  removers o n [mkListener k ev true HRevaluateAndUpdateOnce false] = [].
Proof.
  unfold removers. rewrite filter_cons, decide_False; [reflexivity|].
  simpl. intros [_ [=]].
Qed.

Lemma removers_after_reevaluate s n :
  Forall (ok_listener o) (cy_listeners s) ->
  allowPartialUpdate o = true -> selector o n = true ->
  removers o n (cy_listeners (reevaluate_nodes o s))
  = [mkListener (next_listener s) EvRemove true HRemoveNode false].
Proof.
  intros Hok Hpar Hsel.
  destruct (reevaluate_nodes_effect o s) as (-> & _). rewrite Hpar.
  rewrite removers_app, removers_off by exact Hok.
  apply removers_one, Hsel.
Qed.

(** X6: with partial updates on an element event (cached mode),
    [renderPerNode] registers [removeNode] twice, once in the first
    re-evaluation and once itself: a removal right after set-up asks the
    layer twice to update the removed node.  Every re-evaluation leaves
    one registration: after a render tick that ran one, a removal asks
    once. *)
Theorem removeNode_registered_twice_at_first ty ns others pre burst n :
  queryEachTime o = false -> allowPartialUpdate o = true ->
  is_Some (element_event o) -> selector o n = true ->
  Forall (fun e => e <> Render) burst ->
  Exists (fun e => invalidating o e = true) burst ->
  (let s0 := reach ty ns others [] in
   log (host_event o s0 (Remove n))
   = log s0 ++ [ELayerUpdate (Some n); ELayerUpdate (Some n)])
  /\ (let s2 := reach ty ns others ((pre ++ burst) ++ [Render]) in
      log (host_event o s2 (Remove n)) = log s2 ++ [ELayerUpdate (Some n)]).
Proof.
  intros Hq Hpar Hev Hsel Hburst Hinv. split.
  - cbv zeta.
    rewrite remove_event_log by apply (Inv_reach ty ns others [] Hq).
    f_equal. unfold reach, play. cbn [foldl].
    assert (Hls : exists s1 k1 k2,
               Forall (ok_listener o) (cy_listeners s1)
               /\ cy_listeners (renderPerNode o ty (fresh_host ns others))
                  = (cy_listeners (reevaluate_nodes o s1)
                     ++ [mkListener k1 EvAdd true HRevaluateAndUpdateOnce false])
                    ++ [mkListener k2 EvRemove true HRemoveNode false]).
    { unfold renderPerNode. rewrite Hq, Hpar.
      rewrite bool_decide_eq_true_2 by exact Hev. cbn [andb].
      set (s1 := match updateOn o with
                 | URender => set_updateOnRender true _
                 | _ => _
                 end).
      exists s1. eexists _, _. split.
      - assert (Hwf : Wf o s1).
        { eapply (Wf_ext o (fresh_host ns others)); [| |apply Wf_fresh_host];
            subst s1; destruct (updateOn o); reflexivity. }
        apply Hwf.
      - destruct ty; [|destruct (checkBounds o)..]; reflexivity. }
    destruct Hls as (s1 & k1 & k2 & Hok & ->).
    rewrite !removers_app, removers_after_reevaluate by assumption.
    rewrite removers_scheduler, removers_one by exact Hsel. reflexivity.
  - cbv zeta.
    rewrite remove_event_log by apply (Inv_reach ty ns others _ Hq).
    f_equal. unfold reach. rewrite play_snoc.
    set (s1 := play o _ (pre ++ burst)).
    assert (HI : Inv o s1) by apply Inv_play, Inv_setup, Hq.
    assert (E : updateOnRenderOnceEnabled s1 = true).
    { subst s1. unfold play. rewrite foldl_app.
      apply burst_sets_flag; [exact Hburst|exact Hinv|apply Inv_play, Inv_setup, Hq]. }
    destruct (tick_pending o s1 HI E) as (l1 & l & l2 & Hsplit & Hl & H1 & H2 & Hemit).
    set (s1' := set_enabled false (drop_listener l s1)).
    assert (Hr : cy_listeners (host_event o s1 Render)
                 = cy_listeners (reevaluate_nodes o s1')).
    { simpl. rewrite Hemit. reflexivity. }
    rewrite Hr, removers_after_reevaluate; [reflexivity| |exact Hpar|exact Hsel].
    apply (Inv_dropped o s1 l1 l l2 HI Hsplit Hl H1 H2).
Qed.


End Reachable.

(** A binding with partial updates on the element event ["position"]. *)
Definition partial_options : Options :=
  with_allowPartialUpdate true (with_updateOn (UEvent "position") default_options).

(** A binding with partial updates on the nodes [1], [2], [3]; node [1]
    is removed and the host moves the last node of its pool into the
    freed slot. *)
Definition swapped_pool : State :=
  set_live [3; 2]%nat
    (host_event partial_options
       (renderPerNode partial_options canvas (fresh_host [1; 2; 3]%nat []))
       (Remove 1%nat)).

Lemma swapped_pool_reachable :
  reachable partial_options canvas [1; 2; 3]%nat [] swapped_pool.
Proof.
  unfold swapped_pool. apply reach_reorder; [apply reach_event, reach_setup|].
  assert (E : live (host_event partial_options
                      (renderPerNode partial_options canvas
                                     (fresh_host [1; 2; 3]%nat []))
                      (Remove 1%nat)) = [2; 3]%nat) by (vm_compute; reflexivity).
  rewrite E. apply perm_swap.
Qed.

Lemma cache_is_coherent_witness :
  queryEachTime partial_options = false
  /\ reachable partial_options canvas [1; 2; 3]%nat [] swapped_pool
  /\ updateOnRenderOnceEnabled swapped_pool = false
  /\ nodes swapped_pool = [2; 3]%nat
  /\ cy_nodes partial_options swapped_pool = [3; 2]%nat
  /\ nodes swapped_pool ≡ₚ cy_nodes partial_options swapped_pool.
Proof.
  assert (H1 : queryEachTime partial_options = false) by reflexivity.
  assert (H2 : updateOnRenderOnceEnabled swapped_pool = false)
    by (vm_compute; reflexivity).
  split; [exact H1|]. split; [exact swapped_pool_reachable|]. split; [exact H2|].
  split; [vm_compute; reflexivity|]. split; [vm_compute; reflexivity|].
  apply (proj1 (cache_is_coherent partial_options canvas [1; 2; 3]%nat []
                  swapped_pool H1 swapped_pool_reachable) H2).
Defined.


Lemma one_pending_listener_at_most_witness :
  let o := default_options in
  let s := reach o svg [1; 2]%nat [(EvRender, 7%nat)] [Add 3; Render; Remove 1]%nat in
  queryEachTime o = false
  /\ pending s = (if updateOnRenderOnceEnabled s then 1 else 0)%nat
  /\ updateOnRenderOnceEnabled (host_event o s Render) = false.
Proof.
  cbv zeta. split; [reflexivity|].
  pose proof (one_pending_listener_at_most default_options svg [1; 2]%nat
                [(EvRender, 7%nat)] [Add 3; Render; Remove 1]%nat eq_refl) as H.
  cbv zeta in H. destruct H as (H1 & H2 & _). split; assumption.
Defined.

Lemma remove_after_tick_clears_core_witness :
  let o := partial_options in
  let s := result_remove o (reach o html [1; 2]%nat [(EvRender, 7%nat)]
                                  ([Add 3; Remove 1]%nat ++ [Render])) in
  queryEachTime o = false
  /\ (allowPartialUpdate o = true -> is_Some (element_event o))
  /\ own_listeners s = [] /\ registered s = false.
Proof.
  cbv zeta.
  assert (H1 : queryEachTime partial_options = false) by reflexivity.
  assert (H2 : allowPartialUpdate partial_options = true
               -> is_Some (element_event partial_options))
    by (intros _; exists "position"; reflexivity).
  split; [exact H1|]. split; [exact H2|].
  pose proof (remove_after_tick_clears_core partial_options html [1; 2]%nat
                [(EvRender, 7%nat)] [Add 3; Remove 1]%nat H1 H2) as H.
  cbv zeta in H. destruct H as (Ha & _ & Hb). split; assumption.
Defined.

Lemma other_listeners_untouched_witness :
  let o := partial_options in
  let s := reach o canvas [1; 2]%nat [(EvRender, 7%nat); (EvAdd, 8%nat)]
                 [Add 3; Render; Remove 1]%nat in
  queryEachTime o = false
  /\ others_of (result_remove o s)
     = foreign_listeners 0 [(EvRender, 7%nat); (EvAdd, 8%nat)].
Proof.
  cbv zeta. split; [reflexivity|].
  exact (proj2 (other_listeners_untouched partial_options canvas [1; 2]%nat
                  [(EvRender, 7%nat); (EvAdd, 8%nat)]
                  [Add 3; Render; Remove 1]%nat eq_refl)).
Defined.

Lemma element_listeners_follow_collection_witness :
  let o := with_updateOn (UEvent "position") default_options in
  let s := reach o canvas [1; 2]%nat [] [Add 3; Render; Remove 1; Render]%nat in
  queryEachTime o = false /\ allowPartialUpdate o = false
  /\ ele_listeners s = element_listeners_of o (nodes s).
Proof.
  cbv zeta. split; [reflexivity|]. split; [reflexivity|].
  exact (proj1 (element_listeners_follow_collection
                  (with_updateOn (UEvent "position") default_options)
                  canvas [1; 2]%nat [] [Add 3; Render; Remove 1; Render]%nat
                  eq_refl eq_refl)).
Defined.

Lemma removeNode_registered_twice_at_first_witness :
  let o := partial_options in
  let burst := [Add 4; Remove 1]%nat in
  let s0 := reach o canvas [1; 2]%nat [] [] in
  queryEachTime o = false /\ allowPartialUpdate o = true
  /\ is_Some (element_event o) /\ selector o 2%nat = true
  /\ Forall (fun e => e <> Render) burst
  /\ Exists (fun e => invalidating o e = true) burst
  /\ log (host_event o s0 (Remove 2%nat))
     = log s0 ++ [ELayerUpdate (Some 2%nat); ELayerUpdate (Some 2%nat)].
Proof.
  cbv zeta.
  assert (H1 : is_Some (element_event partial_options))
    by (exists "position"; reflexivity).
  assert (H2 : Forall (fun e => e <> Render) [Add 4; Remove 1]%nat)
    by (apply (bool_decide_eq_true_1 _); vm_compute; reflexivity).
  assert (H3 : Exists (fun e => invalidating partial_options e = true)
                      [Add 4; Remove 1]%nat)
    by (apply (bool_decide_eq_true_1 _); vm_compute; reflexivity).
  split; [reflexivity|]. split; [reflexivity|]. split; [exact H1|].
  split; [reflexivity|]. split; [exact H2|]. split; [exact H3|].
  exact (proj1 (removeNode_registered_twice_at_first partial_options canvas
                  [1; 2]%nat [] [Add 3]%nat [Add 4; Remove 1]%nat 2%nat
                  eq_refl eq_refl H1 eq_refl H2 H3)).
Defined.

(** ** The canvas pass *)


Section CanvasMore.

Context {num paint : Type}.
Variable num_add num_mul : num -> num -> num.
Variable inVisibleBounds : @BoundingBox num -> bool.

Abbreviation canvas_pass := (canvas_renderer num_add num_mul inVisibleBounds).

Lemma foldl_pointwise {A B} (f f' : A -> B -> A) (l : list B) :
  (forall a b, f a b = f' a b) -> forall a, foldl f a l = foldl f' a l.
Proof.
  intros Hf. induction l as [|b l IH]; intros a; [reflexivity|].
  cbn [foldl]. rewrite Hf. apply IH.
Qed.

Lemma live_reevaluate o s : live (reevaluate_nodes o s) = live s.
Proof. apply (reevaluate_nodes_effect o s). Qed.

Lemma nodes_reevaluate o s : nodes (reevaluate_nodes o s) = cy_nodes o s.
Proof. apply (reevaluate_nodes_effect o s). Qed.

Lemma filter_iff_in {A} (P Q : A -> Prop) `{!forall x, Decision (P x)}
    `{!forall x, Decision (Q x)} (l : list A) :
  (forall x, x ∈ l -> P x <-> Q x) -> filter P l = filter Q l.
Proof.
  induction l as [|a l IH]; intros Hpq; [reflexivity|].
  rewrite !filter_cons.
  assert (Ha : P a <-> Q a) by (apply Hpq; left).
  rewrite IH by (intros x Hx; apply Hpq; right; exact Hx).
  destruct (decide (P a)), (decide (Q a)); tauto.
Qed.

Lemma pass_nodes o g (render : @CanvasRender num paint) s ctx hint :
  map call_node (canvas_pass o g render s ctx hint).2.2
  = filter (fun n => n ∈ live s
                     /\ (forExport hint = true \/ checkBounds o = false
                         \/ inVisibleBounds (node_boundingBox g n (boundingBox o)) = true))
           (if queryEachTime o then cy_nodes o s else nodes s).
Proof.
  rewrite canvas_renderer_unfold. cbn [snd].
  set (s' := if queryEachTime o then _ else _).
  assert (Hlive : live s' = live s).
  { subst s'. destruct (queryEachTime o); [apply live_reevaluate|reflexivity]. }
  assert (Hnodes : nodes s' = if queryEachTime o then cy_nodes o s else nodes s).
  { subst s'. destruct (queryEachTime o); [apply nodes_reevaluate|reflexivity]. }
  rewrite called_nodes. cbn [map app]. rewrite Hnodes.
  apply list_filter_iff. intros n. unfold participates, removed.
  rewrite Hlive, andb_true_iff, !negb_true_iff, !andb_false_iff,
    !negb_false_iff, bool_decide_eq_false.
  destruct (decide (n ∈ live s)); tauto.
Qed.

(** X7: a canvas pass calls the draw callback exactly for the nodes of

    the collection (the cached one, or the freshly queried one with
    [queryEachTime]) that are in the graph and, unless the pass is for
    export or [checkBounds] is off, have their bounding box in the
    visible bounds: each such node once per occurrence, in collection
    order, with its bounding box. *)
Theorem canvas_renders_exactly o g (render : @CanvasRender num paint) s ctx hint :
  let r := canvas_pass o g render s ctx hint in
  map call_node r.2.2
  = filter (fun n => n ∈ live s
                     /\ (forExport hint = true \/ checkBounds o = false
                         \/ inVisibleBounds (node_boundingBox g n (boundingBox o)) = true))
           (if queryEachTime o then cy_nodes o s else nodes s)
  /\ Forall (fun c => call_bb c = node_boundingBox g (call_node c) (boundingBox o))
            r.2.2.
Proof.
  cbv zeta. split; [apply pass_nodes|].
  rewrite canvas_renderer_unfold. cbn [snd].
  set (s' := if queryEachTime o then _ else _).
  - set (t := ctx_transform ctx). clearbody t.

    generalize (nodes s') (@nil (@Call num paint)) ctx (Forall_nil_2
      (fun c : @Call num paint =>
         call_bb c = node_boundingBox g (call_node c) (boundingBox o))).
    intros ns. induction ns as [|n ns IH]; intros calls c0 Hcalls; [exact Hcalls|].
    cbn [foldl].
    destruct (participates inVisibleBounds o g hint s' n) eqn:E.
    + destruct (draw_node_call num_add num_mul inVisibleBounds o g render hint s'
                  t c0 calls n E) as (c & -> & Hn & Hbb & _).

      apply IH. apply Forall_app. split; [exact Hcalls|].
      constructor; [|constructor]. rewrite Hbb, Hn. reflexivity.
    + rewrite draw_node_skip by exact E. apply IH, Hcalls.
Qed.

(** X8: when the draw callback itself leaves the transform as it found
    it, a canvas pass ends with the transform it started with and every
    iteration starts from it, whatever the position option, also
    ['none']. *)
Theorem canvas_pass_with_tidy_callback o g (render : @CanvasRender num paint)
    s ctx hint :
  (forall c n bb, ctx_transform (render c n bb) = ctx_transform c) ->
  let r := canvas_pass o g render s ctx hint in
  ctx_transform r.2.1 = ctx_transform ctx
  /\ Forall (fun c => call_before c = ctx_transform ctx) r.2.2.
Proof.
  intros Htidy. cbv zeta. rewrite canvas_renderer_unfold. cbn [fst snd].
  set (s' := if queryEachTime o then _ else _).
  set (t := ctx_transform ctx).
  assert (Hgen : forall ns c0 calls,
            ctx_transform c0 = t ->
            Forall (fun c : @Call num paint => call_before c = t) calls ->
            let r := foldl (draw_node num_add num_mul inVisibleBounds o g render
                                      hint s' t) (c0, calls) ns in
            ctx_transform r.1 = t /\ Forall (fun c => call_before c = t) r.2).
  { induction ns as [|n ns IH]; intros c0 calls Hc0 Hcalls; [split; assumption|].
    cbn [foldl].
    destruct (participates inVisibleBounds o g hint s' n) eqn:E.
    - destruct (draw_node_call num_add num_mul inVisibleBounds o g render hint s'
                  t c0 calls n E) as (c & -> & _ & _ & Hb & Ha & _).
      apply IH.
      + destruct (position o) eqn:Hpos; [|reflexivity..].
        rewrite Htidy, Ha. unfold anchored. rewrite Hpos. exact Hc0.
      + apply Forall_app. split; [exact Hcalls|].
        constructor; [congruence|constructor].
    - rewrite draw_node_skip by exact E. apply IH; assumption. }
  apply Hgen; [reflexivity|constructor].
Qed.

(** X9: with [checkBounds] off the render hint makes no difference: the
    pass for export and the normal pass call the draw callback on the
    same nodes with the same contexts and leave the same state. *)
Theorem canvas_hint_irrelevant_without_bounds_check o g
    (render : @CanvasRender num paint) s ctx hint hint' :
  checkBounds o = false ->
  canvas_pass o g render s ctx hint = canvas_pass o g render s ctx hint'.
Proof.
  intros Hcheck. rewrite !canvas_renderer_unfold. f_equal.
  apply foldl_pointwise. intros [c calls] n. unfold draw_node.
  rewrite Hcheck, !andb_false_r. cbn [andb]. reflexivity.
Qed.

(** X14: in cached mode, for a selector whose matches depend on the node
    alone, after set-up, any events of the host and any changes of the
    order of its pool: a canvas pass that finds no update pending (as
    every pass that follows a render tick does) draws exactly the nodes
    that are in the graph now and match the selector (and, with
    [checkBounds] in a pass that is not for export, are in view), each
    once per occurrence; it draws them in the order of the cached
    collection, which need not be the pool's. *)
Theorem cached_pass_draws_current_nodes o g (render : @CanvasRender num paint)
    ns others s ctx hint :
  queryEachTime o = false -> reachable o canvas ns others s ->
  let drawn s := map call_node (canvas_pass o g render s ctx hint).2.2 in
  let current s :=
    filter (fun n => selector o n = true
                     /\ (forExport hint = true \/ checkBounds o = false
                         \/ inVisibleBounds (node_boundingBox g n (boundingBox o)) = true))
           (live s) in
  (updateOnRenderOnceEnabled s = false -> drawn s ≡ₚ current s)
  /\ drawn (host_event o s Render) ≡ₚ current (host_event o s Render).
Proof.
  intros Hq Hs drawn current.
  assert (Hgen : forall s', reachable o canvas ns others s' ->
            updateOnRenderOnceEnabled s' = false -> drawn s' ≡ₚ current s').
  { intros s' Hs' Hflag. subst drawn current. cbv beta.
    rewrite pass_nodes, Hq. cbv iota.
    rewrite (coherent_reachable o canvas ns others s' Hq Hs' Hflag).
    unfold cy_nodes. rewrite list_filter_filter.
    rewrite (filter_iff_in _ (fun n => selector o n = true
                     /\ (forExport hint = true \/ checkBounds o = false
                         \/ inVisibleBounds (node_boundingBox g n (boundingBox o))
                            = true)) (live s')); [reflexivity|].
    intros n Hn. tauto. }
  split; [apply Hgen, Hs|].
  apply Hgen; [apply reach_event, Hs|].
  apply tick_clears_flag, (Inv_reachable o canvas ns others s Hq Hs).
Qed.

End CanvasMore.

(** A draw callback that paints the node and leaves the transform. *)

Definition tidy_render : @CanvasRender Z (list NodeId) :=
  fun ctx node _ => mkCtx (ctx_transform ctx) (ctx_paint ctx ++ [node]).

Lemma canvas_pass_with_tidy_callback_witness :
  let o := with_position PNone default_options in
  let r := canvas_renderer Z.add Z.mul left_part o demo_geometry tidy_render
                           (demo_state o canvas) blank_ctx (mkHint false) in
  (forall c n bb, ctx_transform (tidy_render c n bb) = ctx_transform c)
  /\ ctx_transform r.2.1 = identity_matrix
  /\ ctx_paint r.2.1 = [1; 2]%nat.
Proof.
  cbv zeta.
  assert (H : forall (c : @Ctx Z (list NodeId)) n (bb : @BoundingBox Z),
             ctx_transform (tidy_render c n bb) = ctx_transform c)
    by (intros c n bb; reflexivity).
  split; [exact H|]. split; [|vm_compute; reflexivity].
  exact (proj1 (canvas_pass_with_tidy_callback Z.add Z.mul left_part
                  (with_position PNone default_options) demo_geometry tidy_render
                  (demo_state (with_position PNone default_options) canvas)
                  blank_ctx (mkHint false) H)).
Defined.

Lemma cached_pass_draws_current_nodes_witness :
  queryEachTime partial_options = false
  /\ reachable partial_options canvas [1; 2; 3]%nat [] swapped_pool
  /\ updateOnRenderOnceEnabled swapped_pool = false
  /\ live swapped_pool = [3; 2]%nat
  /\ map call_node (canvas_renderer Z.add Z.mul left_part partial_options
                                    demo_geometry shifting_render swapped_pool
                                    blank_ctx (mkHint false)).2.2
     = [2; 3]%nat
  /\ map call_node (canvas_renderer Z.add Z.mul left_part partial_options
                                    demo_geometry shifting_render swapped_pool
                                    blank_ctx (mkHint false)).2.2
     ≡ₚ filter (fun n => selector partial_options n = true
                         /\ (forExport (mkHint false) = true
                             \/ checkBounds partial_options = false
                             \/ left_part (node_boundingBox demo_geometry n
                                             (boundingBox partial_options)) = true))
               (live swapped_pool).
Proof.
  assert (H1 : queryEachTime partial_options = false) by reflexivity.
  assert (H2 : updateOnRenderOnceEnabled swapped_pool = false)
    by (vm_compute; reflexivity).
  split; [exact H1|]. split; [exact swapped_pool_reachable|]. split; [exact H2|].
  split; [vm_compute; reflexivity|]. split; [vm_compute; reflexivity|].
  apply (proj1 (cached_pass_draws_current_nodes Z.add Z.mul left_part
                  partial_options demo_geometry shifting_render
                  [1; 2; 3]%nat [] swapped_pool blank_ctx (mkHint false)
                  H1 swapped_pool_reachable) H2).
Defined.


Lemma canvas_hint_irrelevant_without_bounds_check_witness :

  let o := default_options in
  checkBounds o = false
  /\ canvas_renderer Z.add Z.mul left_part o demo_geometry shifting_render
                     (demo_state o canvas) blank_ctx (mkHint true)
     = canvas_renderer Z.add Z.mul left_part o demo_geometry shifting_render
                       (demo_state o canvas) blank_ctx (mkHint false).
Proof.
  cbv zeta. split; [reflexivity|].
  apply (canvas_hint_irrelevant_without_bounds_check Z.add Z.mul left_part
           default_options demo_geometry shifting_render
           (demo_state default_options canvas) blank_ctx (mkHint true)
           (mkHint false) eq_refl).
Defined.

End BindingMore.








(** * More on the layer stack: where [append], [insert] and [move] put a layer *)

Module StackMore.
Import Dom Stack Accessor StackFacts.

(** ** Lists of children *)

Lemma filter_ne_fresh (n : nat) (l : list nat) :
  n ∉ l -> filter (fun c => c ≠ n) l = l.
Proof.
  induction l as [|a l IH]; [reflexivity|].
  rewrite not_elem_of_cons. intros [Ha Hl].
  rewrite filter_cons. rewrite decide_True by congruence.
  f_equal. apply IH, Hl.
Qed.

Lemma filter_ne_split (n : nat) (l1 l2 : list nat) :
  NoDup (l1 ++ n :: l2) -> filter (fun c => c ≠ n) (l1 ++ n :: l2) = l1 ++ l2.
Proof.
  intros Hnd. apply NoDup_app in Hnd as (_ & H1 & H2).
  apply NoDup_cons in H2 as [H2 _].
  rewrite filter_app, filter_cons. rewrite decide_False by (intros H; apply H; reflexivity).
  rewrite !filter_ne_fresh; [reflexivity|exact H2|].
  intros Hin. apply (H1 _ Hin). left.
Qed.

Lemma insert_before_in_split (n ref : nat) (l1 l2 : list nat) :
  ref ∉ l1 -> insert_before_in n ref (l1 ++ ref :: l2) = l1 ++ n :: ref :: l2.
Proof.
  induction l1 as [|a l1 IH]; simpl.
  - intros _. rewrite decide_True by reflexivity. reflexivity.
  - rewrite not_elem_of_cons. intros [Ha Hl].
    rewrite decide_False by congruence. f_equal. apply IH, Hl.
Qed.

Lemma insert_after_in_split (n ref : nat) (l1 l2 : list nat) :
  ref ∉ l1 -> insert_after_in n ref (l1 ++ ref :: l2) = l1 ++ ref :: n :: l2.
Proof.
  induction l1 as [|a l1 IH]; simpl.
  - intros _. rewrite decide_True by reflexivity. reflexivity.
  - rewrite not_elem_of_cons. intros [Ha Hl].
    rewrite decide_False by congruence. f_equal. apply IH, Hl.
Qed.

Lemma indexOf_split (x : Layer) (l1 l2 : list Layer) :
  x ∉ l1 -> indexOf x (l1 ++ x :: l2) = Z.of_nat (length l1).
Proof.
  induction l1 as [|a l1 IH]; simpl.
  - intros _. rewrite decide_True by reflexivity. reflexivity.
  - rewrite not_elem_of_cons. intros [Ha Hl].
    rewrite decide_False by congruence. rewrite (IH Hl).
    rewrite decide_False by lia. lia.
Qed.

(** ** The DOM primitives on child lists *)

Lemma kids_detach_eq n d p :
  kids (detach n d) p
  = if decide (d_parent d !! n = Some p) then filter (fun c => c ≠ n) (kids d p)
    else kids d p.
Proof.
  unfold detach. destruct (d_parent d !! n) as [q|] eqn:E.
  - rewrite kids_set_parent, kids_set_kids.
    destruct (decide (q = p)) as [->|Hne].
    + rewrite decide_True by reflexivity. reflexivity.
    + rewrite decide_False by congruence. reflexivity.
  - rewrite decide_False by discriminate. reflexivity.
Qed.

Lemma appendChild_spec p n d :
  exists d', appendChild p n d = (Ok tt, d') /\ placed p n d d'
             /\ kids d' p = kids (detach n d) p ++ [n]
             /\ forall e, e <> p -> kids d' e = kids (detach n d) e.
Proof.
  destruct (appendChild_placed p n d) as (d' & E & Hpl).
  exists d'. split; [exact E|]. split; [exact Hpl|].
  unfold appendChild, modify in E. injection E as <-. split.
  - rewrite kids_set_parent, kids_set_kids, decide_True by reflexivity. reflexivity.
  - intros e He. rewrite kids_set_parent, kids_set_kids, decide_False by congruence.
    reflexivity.
Qed.

Lemma insertBefore_spec p n ref d :
  ref ∈ kids d p -> n <> ref ->
  exists d', insertBefore p n ref d = (Ok tt, d') /\ placed p n d d'
             /\ kids d' p = insert_before_in n ref (kids (detach n d) p).
Proof.
  intros Hin Hne.
  destruct (insertBefore_cases p n ref d) as [[_ H]|[(_ & H & _)|(d' & E & Hpl)]];
    [contradiction..|].
  exists d'. split; [exact E|]. split; [exact Hpl|].
  unfold insertBefore in E. rewrite decide_True in E by exact Hin.
  rewrite decide_False in E by exact Hne. injection E as <-.
  rewrite kids_set_parent, kids_set_kids, decide_True by reflexivity. reflexivity.
Qed.

Lemma insertAdjacentElement_spec ref w n d p :
  d_parent d !! ref = Some p -> n <> ref ->
  exists d', insertAdjacentElement ref w n d = (Ok (Some n), d') /\ placed p n d d'
             /\ kids d' p = match w with
                            | Before => insert_before_in n ref (kids (detach n d) p)
                            | After => insert_after_in n ref (kids (detach n d) p)
                            end.
Proof.
  intros Hp Hne.
  destruct (insertAdjacentElement_cases ref w n d)
    as [[_ H]|[[_ H]|(q & d' & E & Hq & Hpl)]]; [congruence..|].
  assert (q = p) as -> by congruence.
  exists d'. split; [exact E|]. split; [exact Hpl|].
  unfold insertAdjacentElement in E. rewrite Hp in E.
  rewrite decide_False in E by exact Hne. injection E as <-.
  rewrite kids_set_parent, kids_set_kids, decide_True by reflexivity. reflexivity.
Qed.

Lemma placed_doc_ok q n d d' :
  placed q n d d' -> doc_ok d -> (n < d_next d)%nat -> doc_ok d'.
Proof.
  intros [Hl Hx _ _ Hp] [Ht Hpar] Hn. split.
  - rewrite Hl, Hx. exact Ht.
  - intros x v Hv. rewrite Hp in Hv. rewrite Hx.
    destruct (decide (n = x)) as [<-|]; [exact Hn|]. apply (Hpar _ _ Hv).
Qed.

(** ** A new layer object *)

(** What [createLayer] does to a document: the layer's elements are
    fresh, its root is detached and points back at the layer, and every
    element that existed before keeps its children, its parent and its
    back-reference. *)
Definition created (d d' : Document) (l : Layer) : Prop :=
  (d_next d <= l_root l)%nat
  /\ (l_root l < d_next d')%nat
  /\ (d_next d <= d_next d')%nat
  /\ doc_ok d'
  /\ d_layer d' !! l_root l = Some l
  /\ d_parent d' !! l_root l = None
  /\ (forall e, (e < d_next d)%nat ->
        kids d' e = kids d e /\ d_layer d' !! e = d_layer d !! e
        /\ d_parent d' !! e = d_parent d !! e).

Lemma createLayer_created k d :
  doc_ok d -> exists l d', createLayer k d = (Ok l, d') /\ created d d' l.
Proof.
  intros [Ht Hpar].
  assert (Hfree : forall e, (d_next d <= e)%nat -> d_parent d !! e = None).
  { intros e He. destruct (d_parent d !! e) eqn:E; [|reflexivity].
    specialize (Hpar _ _ E). simpl in Hpar. lia. }
  destruct k; run_constructor.
  3: { eexists _, _; split; [reflexivity|].
       unfold created, doc_ok; cbn [l_root l_node d_next d_parent d_children d_layer].
       repeat split; try lia; try done.
       - apply tags_bounded_insert; [|lia]. eapply tags_bounded_mono; [exact Ht|lia].
       - intros x v Hv. specialize (Hpar _ _ Hv). simpl in *. lia.
       - apply lookup_insert_eq.
       - apply Hfree. lia.
       - rewrite lookup_insert_ne by lia. reflexivity. }
  all: match goal with |- context [appendChild ?p ?n ?x] =>
         destruct (appendChild_spec p n x)
           as (d' & -> & [Hl Hx _ _ Hp] & _ & Hko)
       end;
       cbn [d_next d_parent d_children d_layer d_dataid] in *;
       eexists _, d'; (split; [reflexivity|]);
       unfold created, doc_ok; cbn [l_root l_node]; rewrite Hl, Hx;
       repeat split.
  all: try lia.
  all: try (repeat apply tags_bounded_insert; try lia;
            eapply tags_bounded_mono; [exact Ht|lia]).
  all: try (intros x v Hv; rewrite Hp in Hv;
            destruct (decide (S (S (d_next d)) = x)) as [<-|]; [simpl; lia|];
            specialize (Hpar _ _ Hv); simpl in *; lia).
  all: try (rewrite lookup_insert_ne by lia; apply lookup_insert_eq).
  all: try (rewrite Hp, decide_False by lia; apply Hfree; lia).
  all: try (rewrite Hko by lia; rewrite kids_detach_eq;
            cbn [d_parent]; rewrite Hfree by lia;
            rewrite decide_False by discriminate; reflexivity).
  all: try (rewrite !lookup_insert_ne by lia; reflexivity).
  all: try (rewrite Hp, decide_False by lia; reflexivity).
Qed.

(** ** The stack as a list of layers *)

(** [stack_state p r ls d]: in the document [d] the container [r] of the
    plugin [p] holds exactly the roots of the layers [ls], in this
    order; every root points back at its layer and has [r] as parent;
    the host's node layer is among them. *)
Definition stack_state (p : LayersPlugin) (r : nat) (ls : list Layer)
    (d : Document) : Prop :=
  root p d = Some r
  /\ (r < d_next d)%nat
  /\ doc_ok d
  /\ kids d r = map l_root ls
  /\ NoDup (map l_root ls)
  /\ nodeLayer p ∈ ls
  /\ Forall (fun l => d_layer d !! l_root l = Some l
                      /\ d_parent d !! l_root l = Some r) ls.

#[export] Instance stack_state_dec p r ls d : Decision (stack_state p r ls d).
Proof. unfold stack_state, root. apply _. Defined.

Lemma state_member p r ls d l :
  stack_state p r ls d -> l ∈ ls ->
  d_layer d !! l_root l = Some l /\ d_parent d !! l_root l = Some r
  /\ (l_root l < d_next d)%nat.
Proof.
  intros (_ & _ & [Ht _] & _ & _ & _ & Hall) Hl.
  rewrite Forall_forall in Hall. destruct (Hall _ Hl) as [H1 H2].
  split; [exact H1|]. split; [exact H2|]. apply (Ht _ _ H1).
Qed.

Lemma state_node_low p r ls d :
  stack_state p r ls d -> (l_node (nodeLayer p) < d_next d)%nat.
Proof. intros (Hr & _ & [_ Hpar] & _). apply (Hpar _ _ Hr). Qed.

Lemma omap_tags d r (ls : list Layer) :
  Forall (fun l => d_layer d !! l_root l = Some l
                   /\ d_parent d !! l_root l = Some r) ls ->
  omap (fun c => d_layer d !! c) (map l_root ls) = ls.
Proof.
  induction 1 as [|l ls [Hl _] _ IH]; [reflexivity|].
  simpl. rewrite Hl. simpl. f_equal. exact IH.

Qed.

(** Reading a stack returns its layers and leaves the document alone. *)
Lemma state_read p r ls d :
  stack_state p r ls d -> Stack.layers p d = (Ok ls, d).
Proof.
  intros (Hr & _ & _ & Hk & _ & _ & Hall).
  unfold Stack.layers, bind. rewrite Hr. cbn [nonnull ret gets].
  unfold gets. rewrite Hk, (omap_tags _ _ _ Hall). reflexivity.
Qed.

Lemma state_distinct p r l1 x l2 d :
  stack_state p r (l1 ++ x :: l2) d ->
  (l_root x ∉ map l_root l1) /\ (l_root x ∉ map l_root l2) /\ (x ∉ l1) /\ (x ∉ l2).
Proof.
  intros (_ & _ & _ & _ & Hnd & _).
  rewrite map_app in Hnd. cbn [map] in Hnd.
  apply NoDup_app in Hnd as (_ & H1 & H2). apply NoDup_cons in H2 as [H2 _].
  assert (Ha : l_root x ∉ map l_root l1).
  { intros Hin. apply (H1 _ Hin). left. }
  split; [exact Ha|]. split; [exact H2|]. split.
  - intros Hin. apply Ha.
 apply list_elem_of_fmap. exists x. split; [reflexivity|exact Hin].
  - intros Hin. apply H2. apply list_elem_of_fmap. exists x. split; [reflexivity|exact Hin].
Qed.

Lemma state_created p r ls d d1 l :
  stack_state p r ls d -> created d d1 l ->
  stack_state p r ls d1 /\ (l ∉ ls) /\ (l_root l ∉ map l_root ls).
Proof.
  intros Hst (C1 & C2 & C3 & C4 & C5 & C6 & C7).
  pose proof (state_node_low _ _ _ _ Hst) as Hnode.
  assert (Hlow : forall x, x ∈ ls -> (l_root x < d_next d)%nat).
  { intros x Hx. apply (state_member _ _ _ _ _ Hst Hx). }
  assert (Hroot : l_root l ∉ map l_root ls).
  { intros Hin. apply list_elem_of_fmap in Hin as (x & Hx & Hin).
    specialize (Hlow _ Hin). lia. }
  split; [|split; [|exact Hroot]].
  - destruct Hst as (Hr & Hrl & _ & Hk & Hnd & Hn & Hall).
    unfold stack_state, root in *.
    destruct (C7 _ Hnode) as (_ & _ & ->). destruct (C7 _ Hrl) as (-> & _).
    split; [exact Hr|]. split; [lia|]. split; [exact C4|].
    split; [exact Hk|]. split; [exact Hnd|]. split; [exact Hn|].
    rewrite Forall_forall in *. intros x Hx.
    destruct (C7 _ (Hlow _ Hx)) as (_ & -> & ->). apply Hall, Hx.

  - intros Hin. apply Hroot. apply list_elem_of_fmap. exists l. split; [reflexivity|exact Hin].
Qed.

(** Placing the root of [layer] somewhere among the children of the
    container turns a stack into a stack. *)
Lemma state_placed p r ls ls' d d' layer :
  stack_state p r ls d ->
  d_layer d !! l_root layer = Some layer ->
  placed r (l_root layer) d d' ->
  kids d' r = map l_root ls' ->
  NoDup (map l_root ls') ->
  nodeLayer p ∈ ls' ->
  (forall l, l ∈ ls' -> l ∈ ls \/ l = layer) ->
  stack_state p r ls' d'.
Proof.
  intros Hst Htag Hpl Hk' Hnd' Hn' Hsub.
  assert (Hlow : (l_root layer < d_next d)%nat).
  { destruct Hst as (_ & _ & [Ht _] & _). apply (Ht _ _ Htag). }
  pose proof (placed_doc_ok _ _ _ _ Hpl (proj1 (proj2 (proj2 Hst))) Hlow) as Hok.
  destruct Hpl as [Hl Hx _ _ Hp].
  pose proof Hst as (Hr & Hrl & _ & _ & _ & _ & Hall).
  unfold stack_state, root in *. rewrite Hp, Hx.
  split; [|split; [exact Hrl|split; [exact Hok|split; [exact Hk'|
          split; [exact Hnd'|split; [exact Hn'|]]]]]].
  - destruct (decide (l_root layer = l_node (nodeLayer p))); [reflexivity|exact Hr].
  - rewrite Forall_forall in *. intros l Hin. rewrite Hp, Hl.

    destruct (Hsub _ Hin) as [Hold| ->].
    + destruct (Hall _ Hold) as [H1 H2]. split; [exact H1|].
      destruct (decide (l_root layer = l_root l)); [reflexivity|exact H2].
    + split; [exact Htag|]. rewrite decide_True by reflexivity. reflexivity.
Qed.

Lemma at_index_last {A} (ls : list A) (l : A) :
  at_index (ls ++ [l]) (Z.of_nat (length (ls ++ [l])) - 1) = Some l.
Proof.
  unfold at_index. rewrite length_app. cbn [length].
  rewrite decide_True by lia.
  replace (Z.to_nat (Z.of_nat (length ls + 1) - 1)) with (length ls + 0)%nat by lia.
  rewrite lookup_app_r by lia.
  replace (length ls + 0 - length ls)%nat with 0%nat by lia. reflexivity.
Qed.

(** ** [append] *)

Lemma append_state p r ls d k :
  stack_state p r ls d ->
  exists l d', append p k d = (Ok l, d') /\ (l ∉ ls)
               /\ stack_state p r (ls ++ [l]) d'.
Proof.
  intros Hst.
  destruct (createLayer_created k d) as (l & d1 & Hc & Hcr); [apply Hst|].
  destruct (state_created _ _ _ _ _ _ Hst Hcr) as (Hst1 & Hnew & Hroot).
  destruct Hcr as (_ & _ & _ & _ & Htag & Hfree & _).
  unfold append, bind. rewrite Hc.
  pose proof Hst1 as (Hr & _ & _ & Hk & Hnd & Hn & _). rewrite Hr. cbn [nonnull ret].
  destruct (appendChild_spec r (l_root l) d1) as (d2 & -> & Hpl & Hk2 & _).
  exists l, d2. split; [reflexivity|]. split; [exact Hnew|].
  rewrite kids_detach_eq, Hfree, decide_False in Hk2 by discriminate.
  apply (state_placed p r ls (ls ++ [l]) d1 d2 l Hst1 Htag Hpl).
  - rewrite Hk2, Hk, map_app. reflexivity.
  - rewrite map_app. apply NoDup_app. split; [exact Hnd|]. split.
    + intros x Hx Hx'. apply list_elem_of_singleton in Hx'. subst x. exact (Hroot Hx).
    + apply NoDup_singleton.
  - apply elem_of_app. left. exact Hn.
  - intros x Hx. apply elem_of_app in Hx as [Hx|Hx]; [left; exact Hx|].
    apply list_elem_of_singleton in Hx. right. exact Hx.
Qed.

(** X10: [append] on a stack always succeeds; the layer it returns is a
    new one, it becomes the last layer of the stack and the layers that
    were there keep their order; [getLast] then returns it. *)
Theorem append_puts_layer_last p r ls d k :
  stack_state p r ls d ->
  exists l d', append p k d = (Ok l, d')
               /\ (l ∉ ls)
               /\ stack_state p r (ls ++ [l]) d'
               /\ getLayers p d' = (Ok (ls ++ [l]), d')
               /\ getLast p d' = (Ok (Some l), d').
Proof.
  intros Hst. destruct (append_state p r ls d k Hst) as (l & d' & E & Hnew & Hst').
  exists l, d'. split; [exact E|]. split; [exact Hnew|]. split; [exact Hst'|].
  pose proof (state_read _ _ _ _ Hst') as Hread. split; [exact Hread|].
  unfold getLast, bind. rewrite Hread. cbn [ret]. unfold ret.
  rewrite at_index_last. reflexivity.
Qed.

(** ** [insert] *)

Lemma insert_state p r l1 ref l2 d w k :
  stack_state p r (l1 ++ ref :: l2) d ->
  exists l d', insert p w ref k d = (Ok l, d')
               /\ (l ∉ l1 ++ ref :: l2)
               /\ stack_state p r (match w with
                                   | Before => l1 ++ l :: ref :: l2
                                   | After => l1 ++ ref :: l :: l2
                                   end) d'.
Proof.
  intros Hst.
  destruct (createLayer_created k d) as (l & d1 & Hc & Hcr); [apply Hst|].
  destruct (state_created _ _ _ _ _ _ Hst Hcr) as (Hst1 & Hnew & Hroot).
  destruct Hcr as (_ & _ & _ & _ & Htag & Hfree & _).
  unfold insert, bind. rewrite Hc.
  assert (Href : ref ∈ l1 ++ ref :: l2).
  { apply elem_of_app. right. left. }
  destruct (state_member _ _ _ _ _ Hst1 Href) as (_ & Hpar & _).
  destruct (state_distinct _ _ _ _ _ _ Hst1) as (Hd1 & Hd2 & _ & _).
  assert (Hne : l_root l <> l_root ref).
  { intros E. apply Hroot. rewrite E. apply list_elem_of_fmap.
    exists ref. split; [reflexivity|exact Href]. }
  destruct (insertAdjacentElement_spec (l_root ref) w (l_root l) d1 r Hpar Hne)
    as (d2 & -> & Hpl & Hk2).
  exists l, d2. split; [reflexivity|]. split; [exact Hnew|].
  pose proof Hst1 as (_ & _ & _ & Hk & Hnd & Hn & _).
  rewrite kids_detach_eq, Hfree, decide_False, Hk in Hk2 by discriminate.
  rewrite map_app in Hk2, Hnd, Hroot. cbn [map] in Hk2, Hnd, Hroot.
  apply NoDup_app in Hnd as (N1 & N2 & N3). apply NoDup_cons in N3 as (N3 & N4).
  rewrite elem_of_app, elem_of_cons in Hroot.
  apply elem_of_app in Hn.
  apply (state_placed p r (l1 ++ ref :: l2) _ d1 d2 l Hst1 Htag Hpl); destruct w.
  - rewrite Hk2, insert_before_in_split by exact Hd1. rewrite map_app. reflexivity.
  - rewrite Hk2, insert_after_in_split by exact Hd1. rewrite map_app. reflexivity.
  - rewrite map_app. cbn [map]. apply NoDup_app. split; [exact N1|]. split.
    + intros x Hx Hx'. rewrite !elem_of_cons in Hx'.
      destruct Hx' as [->|[->|Hx']]; [tauto|tauto|].
      apply (N2 _ Hx). right. exact Hx'.
    + apply NoDup_cons. split.
      * rewrite elem_of_cons. tauto.
      * apply NoDup_cons. split; [exact N3|exact N4].
  - rewrite map_app. cbn [map]. apply NoDup_app. split; [exact N1|]. split.
    + intros x Hx Hx'. rewrite !elem_of_cons in Hx'.
      destruct Hx' as [->|[->|Hx']]; [tauto|tauto|].
      apply (N2 _ Hx). right. exact Hx'.
    + apply NoDup_cons. split.
      * rewrite elem_of_cons. intros [E|H]; [congruence|tauto].
      * apply NoDup_cons. split; [tauto|exact N4].

  - rewrite elem_of_app, !elem_of_cons. rewrite elem_of_cons in Hn. tauto.
  - rewrite elem_of_app, !elem_of_cons. rewrite elem_of_cons in Hn. tauto.
  - intros x. rewrite !elem_of_app, !elem_of_cons. tauto.
  - intros x. rewrite !elem_of_app, !elem_of_cons. tauto.
Qed.

(** X11: [insert] with a reference layer of the stack itself always
    succeeds; the layer it returns is a new one and lands directly
    before (['before']) or directly behind (['after']) the reference;
    all other layers keep their order. *)
Theorem insert_puts_layer_next_to_reference p r l1 ref l2 d w k :
  stack_state p r (l1 ++ ref :: l2) d ->
  exists l d', insert p w ref k d = (Ok l, d')
               /\ (l ∉ l1 ++ ref :: l2)
               /\ getLayers p d'
                  = (Ok (match w with
                         | Before => l1 ++ l :: ref :: l2
                         | After => l1 ++ ref :: l :: l2
                         end), d')
               /\ stack_state p r (match w with
                                   | Before => l1 ++ l :: ref :: l2
                                   | After => l1 ++ ref :: l :: l2
                                   end) d'.
Proof.
  intros Hst.
  destruct (insert_state p r l1 ref l2 d w k Hst) as (l & d' & E & Hnew & Hst').
  exists l, d'. split; [exact E|]. split; [exact Hnew|].
  split; [|exact Hst']. apply (state_read _ _ _ _ Hst').
Qed.

(** C5 (amended): [insert] makes no ownership check.  For every
    reference layer, in the calling stack or not, it raises nothing and
    returns a layer that did not exist before: a new object whose root
    is a new element pointing back at it.  The new root gets the parent
    the reference's root has and stands directly before (['before']) or
    directly behind (['after']) the reference's root among that
    parent's children, all other children keeping their places; when
    the reference is detached the new root is left without parent and
    no list of children changes. *)
Theorem insert_never_rejects p w ref k d :
  doc_ok d -> (l_root ref < d_next d)%nat ->
  exists l d', insert p w ref k d = (Ok l, d')
               /\ l_id l = d_next d
               /\ (d_next d <= l_root l)%nat
               /\ d_layer d !! l_root l = None
               /\ d_layer d' !! l_root l = Some l
               /\ d_parent d' !! l_root l = d_parent d !! l_root ref
               /\ (forall q, d_parent d !! l_root ref = Some q ->
                             l_root l ∈ kids d' q)
               /\ (forall q l1 l2,
                     d_parent d !! l_root ref = Some q -> (q < d_next d)%nat ->
                     kids d q = l1 ++ l_root ref :: l2 -> l_root ref ∉ l1 ->
                     kids d' q = match w with
                                 | Before => l1 ++ l_root l :: l_root ref :: l2
                                 | After => l1 ++ l_root ref :: l_root l :: l2
                                 end)
               /\ (d_parent d !! l_root ref = None ->
                   forall q, (q < d_next d)%nat -> kids d' q = kids d q).
Proof.
  intros Hok Href.
  destruct (createLayer_created k d Hok) as (l & d1 & Hc & Hcr).
  assert (Hid : l_id l = d_next d).
  { revert Hc. destruct k;
      cbv [createLayer new_SVGLayer new_HTMLLayer new_CanvasLayer bind newObject
           createElement set_cy_layer modify ret appendChild];
      intros [= <- _]; reflexivity. }
  destruct Hcr as (C1 & C2 & C3 & C4 & C5 & C6 & C7).
  assert (Hold : d_layer d !! l_root l = None).
  { destruct Hok as [Ht _]. destruct (d_layer d !! l_root l) eqn:E; [|reflexivity].
    specialize (Ht _ _ E). simpl in Ht. lia. }
  destruct (C7 _ Href) as (_ & _ & Hpref).
  assert (Hne : l_root l <> l_root ref) by lia.
  unfold insert, bind. rewrite Hc.
  destruct (d_parent d !! l_root ref) as [q|] eqn:Hq.
  - destruct (insertAdjacentElement_spec (l_root ref) w (l_root l) d1 q Hpref Hne)
      as (d2 & -> & [Hl Hx Hin _ Hpar] & Hk2).
    exists l, d2. split; [reflexivity|]. split; [exact Hid|]. split; [exact C1|].
    split; [exact Hold|]. split; [rewrite Hl; exact C5|].
    split; [rewrite Hpar, decide_True by reflexivity; reflexivity|].
    split; [intros q' [= <-]; exact Hin|]. split; [|discriminate].
    intros q' l1 l2 [= <-] Hlow Hkids Hfirst.
    rewrite kids_detach_eq, C6, decide_False in Hk2 by discriminate.
    destruct (C7 _ Hlow) as (Hk1 & _). rewrite Hk1, Hkids in Hk2. rewrite Hk2.
    destruct w; [apply insert_before_in_split|apply insert_after_in_split]; exact Hfirst.
  - unfold insertAdjacentElement. rewrite Hpref.
    exists l, d1. split; [reflexivity|]. split; [exact Hid|]. split; [exact C1|].
    split; [exact Hold|]. split; [exact C5|]. split; [exact C6|].
    split; [discriminate|]. split; [discriminate|].
    intros _ q' Hlow. apply (C7 _ Hlow).
Qed.

Lemma insert_never_rejects_witness :
  doc_ok (s_doc demo) /\ (l_root (nodeLayer plugin1) < d_next (s_doc demo))%nat
  /\ d_parent (s_doc demo) !! l_root (nodeLayer plugin1) = Some 6%nat
  /\ kids (s_doc demo) 6 = [7; 8]%nat ++ l_root (nodeLayer plugin1) :: []
  /\ exists l d', insert plugin0 Before (nodeLayer plugin1) KSvg (s_doc demo) = (Ok l, d')
                  /\ l_id l = d_next (s_doc demo)
                  /\ d_layer (s_doc demo) !! l_root l = None
                  /\ d_parent d' !! l_root l = Some 6%nat
                  /\ kids d' 6 = [7; 8]%nat ++ l_root l :: l_root (nodeLayer plugin1) :: [].
Proof.
  assert (H1 : doc_ok (s_doc demo)).
  { apply (bool_decide_eq_true_1 _). vm_compute. reflexivity. }
  assert (H2 : (l_root (nodeLayer plugin1) < d_next (s_doc demo))%nat).
  { apply (bool_decide_eq_true_1 _). vm_compute. reflexivity. }
  assert (H3 : d_parent (s_doc demo) !! l_root (nodeLayer plugin1) = Some 6%nat).
  { vm_compute. reflexivity. }
  assert (H4 : kids (s_doc demo) 6 = [7; 8]%nat ++ l_root (nodeLayer plugin1) :: []).
  { vm_compute. reflexivity. }
  split; [exact H1|]. split; [exact H2|]. split; [exact H3|]. split; [exact H4|].
  destruct (insert_never_rejects plugin0 Before (nodeLayer plugin1) KSvg (s_doc demo)
              H1 H2) as (l & d' & E & Hid & _ & Hold & _ & Hpar & _ & Hexact & _).
  exists l, d'. split; [exact E|]. split; [exact Hid|]. split; [exact Hold|].
  split; [rewrite Hpar; exact H3|].
  apply (Hexact 6%nat [7; 8]%nat [] H3); [vm_compute; lia|exact H4|].
  intros Hin. apply list_elem_of_In in Hin. simpl in Hin.
  destruct Hin as [Hin|[Hin|[]]]; discriminate Hin.
Defined.

(** ** [move] *)

Lemma move_state p r l1 layer l2 d offset :

  stack_state p r (l1 ++ layer :: l2) d ->
  (l1 = [] /\ 0 <= offset -> move p layer offset d = (Ok tt, d))
  /\ (~ (l1 = [] /\ 0 <= offset) -> l2 = [] ->
        exists d', move p layer offset d = (Ok tt, d')
                   /\ stack_state p r (l1 ++ layer :: l2) d')
  /\ (l2 <> [] -> Z.of_nat (length l1) + offset < 0 ->
        move p layer offset d = (Throw TypeError, d))
  /\ (l1 <> [] -> l2 <> [] -> 0 <= Z.of_nat (length l1) + offset ->
        exists d', move p layer offset d = (Ok tt, d')
                   /\ stack_state p r (layer :: l1 ++ l2) d').
Proof.
  intros Hst.
  pose proof (state_read _ _ _ _ Hst) as Hread.
  destruct (state_distinct _ _ _ _ _ _ Hst) as (Hd1 & Hd2 & Hx1 & Hx2).
  assert (Hin : layer ∈ l1 ++ layer :: l2) by (apply elem_of_app; right; left).
  destruct (state_member _ _ _ _ _ Hst Hin) as (Htag & Hpar & _).
  pose proof Hst as (Hr & _ & _ & Hk & Hnd & Hn & _).
  assert (Hlen : Z.of_nat (length (l1 ++ layer :: l2))
                 = Z.of_nat (length l1) + 1 + Z.of_nat (length l2)).
  { rewrite length_app. cbn [length]. lia. }
  assert (Hdet : kids (detach (l_root layer) d) r = map l_root l1 ++ map l_root l2).
  { rewrite kids_detach_eq, decide_True by exact Hpar.
    rewrite Hk, map_app. cbn [map]. apply filter_ne_split.
    rewrite map_app in Hnd. exact Hnd. }
  unfold move, bind. rewrite Hread, (indexOf_split _ _ _ Hx1), Hlen.
  unfold move_target, Math_max1, Math_min3.
  split; [|split; [|split]].
  - intros [-> Hoff]. cbn [length]. rewrite decide_True by lia. reflexivity.
  - intros Hnot ->. cbn [length].
    rewrite decide_False.
    2: { destruct l1; [|cbn [length]; lia].
         assert (offset < 0) by (destruct (decide (0 <= offset)); [tauto|lia]).
         cbn [length]. lia. }
    rewrite decide_True by lia. rewrite Hr. cbn [nonnull ret].
    destruct (appendChild_spec r (l_root layer) d) as (d2 & -> & Hpl & Hk2 & _).
    exists d2. split; [reflexivity|].
    apply (state_placed p r _ _ d d2 layer Hst Htag Hpl); try done.
    + rewrite Hk2, Hdet, map_app. cbn [map]. rewrite app_nil_r. reflexivity.
    + intros l Hl. left. exact Hl.
  - intros Hl2 Hneg.
    assert (0 < Z.of_nat (length l2)) by (destruct l2; [done|cbn [length]; lia]).
    rewrite decide_False by lia. rewrite decide_False by lia.
    rewrite Hr. cbn [nonnull ret]. unfold at_index.
    rewrite decide_False by lia. reflexivity.
  - intros Hl1 Hl2 Hpos.
    assert (0 < Z.of_nat (length l2)) by (destruct l2; [done|cbn [length]; lia]).
    destruct l1 as [|t l1]; [done|]. cbn [length] in *.
    rewrite decide_False by lia. rewrite decide_False by lia.
    rewrite Hr. cbn [nonnull ret]. unfold at_index.
    replace (Z.min (Z.min (Z.of_nat (S (length l1)) + offset)
                          (Z.of_nat (S (length l1)) + 1 + Z.of_nat (length l2))) 0)
      with 0 by lia.
    rewrite decide_True by lia. cbn [Z.to_nat app lookup list_lookup nonnull ret].
    assert (Hne : l_root layer <> l_root t).
    { intros E. apply Hd1. rewrite E. cbn [map]. left. }
    assert (Ht : l_root t ∈ kids d r).
    { rewrite Hk. cbn [app map]. left. }
    destruct (insertBefore_spec r (l_root layer) (l_root t) d Ht Hne)
      as (d2 & E & Hpl & Hk2).
    change ((t :: l1 ++ layer :: l2) !! Z.to_nat 0) with (Some t).
    cbn [nonnull ret]. unfold ret. rewrite E. clear E.

    exists d2. split; [reflexivity|].
    rewrite map_app in Hnd. cbn [map app] in Hnd, Hdet.
    apply NoDup_cons in Hnd as [Nt Hnd].
    apply NoDup_app in Hnd as (N1 & N2 & N3). apply NoDup_cons in N3 as (N3 & N4).
    rewrite elem_of_app, elem_of_cons in Nt. cbn [map] in Hd1.
    rewrite elem_of_cons in Hd1.
    apply (state_placed p r _ _ d d2 layer Hst Htag Hpl).
    + rewrite Hk2, Hdet. cbn [insert_before_in].
      rewrite decide_True by reflexivity. cbn [map app]. rewrite map_app. reflexivity.
    + cbn [map app]. rewrite map_app. apply NoDup_cons. split.
      * rewrite elem_of_cons, elem_of_app. tauto.
      * apply NoDup_cons. split; [rewrite elem_of_app; tauto|].
        apply NoDup_app. split; [exact N1|]. split; [|exact N4].
        intros x Hx Hx'. apply (N2 _ Hx). right. exact Hx'.
    + revert Hn. cbn [app]. rewrite !elem_of_cons, !elem_of_app, !elem_of_cons. tauto.
    + intros x. cbn [app]. rewrite !elem_of_cons, !elem_of_app, !elem_of_cons. tauto.
Qed.

(** X12: what [move] does with a layer of the stack, for every offset.
    With [l1] the layers in front of it and [l2] the layers behind it:
    the first layer with an offset [>= 0] stays (the call returns at
    once); otherwise the last layer is appended again and the order is
    as before; otherwise an offset that leads below index 0 raises a
    TypeError and changes nothing; otherwise the layer becomes the first
    layer.  So [move] never brings a layer to any index but 0. *)
Theorem move_brings_layer_to_front_or_nowhere p r l1 layer l2 d offset :
  stack_state p r (l1 ++ layer :: l2) d ->
  (l1 = [] /\ 0 <= offset -> move p layer offset d = (Ok tt, d))
  /\ (~ (l1 = [] /\ 0 <= offset) -> l2 = [] ->
        exists d', move p layer offset d = (Ok tt, d')
                   /\ getLayers p d' = (Ok (l1 ++ layer :: l2), d'))
  /\ (l2 <> [] -> Z.of_nat (length l1) + offset < 0 ->
        move p layer offset d = (Throw TypeError, d))
  /\ (l1 <> [] -> l2 <> [] -> 0 <= Z.of_nat (length l1) + offset ->
        exists d', move p layer offset d = (Ok tt, d')
                   /\ getLayers p d' = (Ok (layer :: l1 ++ l2), d')).
Proof.
  intros Hst.
  destruct (move_state p r l1 layer l2 d offset Hst) as (H1 & H2 & H3 & H4).
  split; [exact H1|]. split; [|split; [exact H3|]].
  - intros Ha Hb. destruct (H2 Ha Hb) as (d' & E & Hst').
    exists d'. split; [exact E|]. apply (state_read _ _ _ _ Hst').
  - intros Ha Hb Hc. destruct (H4 Ha Hb Hc) as (d' & E & Hst').
    exists d'. split; [exact E|]. apply (state_read _ _ _ _ Hst').
Qed.

(** ** Sessions *)

Lemma move_state_any p r ls layer offset d :
  stack_state p r ls d -> layer ∈ ls ->
  exists ls', stack_state p r ls' (move p layer offset d).2 /\ ls' ≡ₚ ls.
Proof.
  intros Hst Hin. apply list_elem_of_split in Hin as (l1 & l2 & ->).
  destruct (move_state p r l1 layer l2 d offset Hst) as (H1 & H2 & H3 & H4).
  destruct (decide (l1 = [] /\ 0 <= offset)) as [Ha|Ha].
  { rewrite (H1 Ha). exists (l1 ++ layer :: l2). split; [exact Hst|reflexivity]. }
  destruct (decide (l2 = [])) as [Hb|Hb].
  { destruct (H2 Ha Hb) as (d' & -> & Hst').
    exists (l1 ++ layer :: l2). split; [exact Hst'|reflexivity]. }
  destruct (decide (Z.of_nat (length l1) + offset < 0)) as [Hc|Hc].
  { rewrite (H3 Hb Hc). exists (l1 ++ layer :: l2). split; [exact Hst|reflexivity]. }
  assert (Hl1 : l1 <> []).
  { intros ->. apply Ha. split; [reflexivity|]. cbn [length] in Hc. lia. }
  destruct (H4 Hl1 Hb ltac:(lia)) as (d' & -> & Hst').
  exists (layer :: l1 ++ l2). split; [exact Hst'|].
  apply Permutation_middle.
Qed.

Lemma step_state p r ls s op :
  stack_state p r ls (s_doc s) -> Forall (fun h => h ∈ ls) (s_handles s) ->
  exists ls' new, stack_state p r ls' (s_doc (step p s op))
                  /\ s_handles (step p s op) = s_handles s ++ new
                  /\ ls' ≡ₚ ls ++ new.
Proof.
  intros Hst Hh. destruct op as [k|w i k|i offset]; cbn [step].
  - destruct (append_state p r ls (s_doc s) k Hst) as (l & d' & -> & _ & Hst').
    exists (ls ++ [l]), [l]. cbn [s_doc s_handles]. done.
  - destruct (s_handles s !! i) as [ref|] eqn:E.
    2: { exists ls, []. rewrite !app_nil_r. done. }
    assert (Hin : ref ∈ ls).
    { rewrite Forall_forall in Hh. apply Hh. eapply list_elem_of_lookup_2, E. }
    apply list_elem_of_split in Hin as (l1 & l2 & ->).
    destruct (insert_state p r l1 ref l2 (s_doc s) w k Hst) as (l & d' & -> & _ & Hst').
    eexists _, [l]. cbn [s_doc s_handles].
    split; [exact Hst'|]. split; [reflexivity|].
    rewrite <- app_assoc.
    destruct w; apply Permutation_app_head; cbn [app].
    + apply (Permutation_cons_append (ref :: l2) l).
    + apply perm_skip, Permutation_cons_append.

  - destruct (s_handles s !! i) as [layer|] eqn:E.
    2: { exists ls, []. rewrite !app_nil_r. done. }
    assert (Hin : layer ∈ ls).
    { rewrite Forall_forall in Hh. apply Hh. eapply list_elem_of_lookup_2, E. }
    destruct (move_state_any p r ls layer offset (s_doc s) Hst Hin) as (ls' & Hst' & Hp).
    exists ls', []. cbn [s_doc s_handles]. rewrite !app_nil_r. done.
Qed.

Lemma run_state p r ops : forall ls s,
  stack_state p r ls (s_doc s) -> Forall (fun h => h ∈ ls) (s_handles s) ->
  exists ls' new, stack_state p r ls' (s_doc (run p s ops))
                  /\ s_handles (run p s ops) = s_handles s ++ new
                  /\ ls' ≡ₚ ls ++ new.
Proof.
  induction ops as [|op ops IH]; intros ls s Hst Hh.
  - exists ls, []. rewrite !app_nil_r. done.
  - destruct (step_state p r ls s op Hst Hh) as (ls1 & new1 & Hst1 & Hh1 & Hp1).
    destruct (IH ls1 (step p s op) Hst1) as (ls2 & new2 & Hst2 & Hh2 & Hp2).
    { rewrite Hh1. apply Forall_app. split.
      - eapply Forall_impl; [exact Hh|]. intros h Hin. cbn beta in *.
        rewrite Hp1. apply elem_of_app. left. exact Hin.
      - apply Forall_forall. intros h Hin. rewrite Hp1. apply elem_of_app.
        right. exact Hin. }
    exists ls2, (new1 ++ new2). split; [exact Hst2|]. split.
    + unfold run in *. cbn [foldl]. rewrite Hh2, Hh1, app_assoc. reflexivity.
    + rewrite Hp2, Hp1, app_assoc. reflexivity.
Qed.

(** X13: a caller that starts with layers of the stack and passes only
    layers it has been handed never loses or duplicates a layer: after
    any sequence of [append], [insert] and [move] calls, also ones that
    raise, [getLayers] returns without repetition exactly the layers
    that were in the stack at the start and the layers handed out since. *)
Theorem session_neither_loses_nor_duplicates_layers p r ls s ops :
  stack_state p r ls (s_doc s) -> Forall (fun h => h ∈ ls) (s_handles s) ->
  let s' := run p s ops in
  exists ls' new,
    getLayers p (s_doc s') = (Ok ls', s_doc s')
    /\ s_handles s' = s_handles s ++ new
    /\ ls' ≡ₚ ls ++ new
    /\ NoDup ls'.
Proof.
  intros Hst Hh. cbv zeta.
  destruct (run_state p r ops ls s Hst Hh) as (ls' & new & Hst' & Hh' & Hp).
  exists ls', new. split; [apply (state_read _ _ _ _ Hst')|].
  split; [exact Hh'|]. split; [exact Hp|].
  destruct Hst' as (_ & _ & _ & _ & Hnd & _).
  apply (NoDup_fmap_1 l_root), Hnd.
Qed.

(** ** The stack of the first core *)

(** The stack of [plugin0] as the accessor leaves it, and a caller that
    holds its three layers. *)
Definition stack0 : list Layer :=
  [selectBoxLayer plugin0; dragLayer plugin0; nodeLayer plugin0].

Definition own_session : Session := mkSession (w_doc page2) stack0.

Lemma append_puts_layer_last_witness :
  stack_state plugin0 1 stack0 (w_doc page2)
  /\ exists l d', append plugin0 KHtml (w_doc page2) = (Ok l, d')
                  /\ getLayers plugin0 d' = (Ok (stack0 ++ [l]), d')
                  /\ getLast plugin0 d' = (Ok (Some l), d').
Proof.
  assert (H : stack_state plugin0 1 stack0 (w_doc page2))
    by (apply (bool_decide_eq_true_1 _); vm_compute; reflexivity).
  split; [exact H|].
  destruct (append_puts_layer_last plugin0 1 stack0 (w_doc page2) KHtml H)
    as (l & d' & E & _ & _ & Hall & Hlast).
  exists l, d'. split; [exact E|]. split; [exact Hall|exact Hlast].
Defined.

Lemma insert_puts_layer_next_to_reference_witness :
  stack_state plugin0 1 (stack0 ++ layer_a :: [layer_b]) (s_doc demo)
  /\ exists l d', insert plugin0 After layer_a (KRender 0) (s_doc demo) = (Ok l, d')
                  /\ getLayers plugin0 d'
                     = (Ok (stack0 ++ layer_a :: l :: [layer_b]), d').
Proof.
  assert (H : stack_state plugin0 1 (stack0 ++ layer_a :: [layer_b]) (s_doc demo))
    by (apply (bool_decide_eq_true_1 _); vm_compute; reflexivity).
  split; [exact H|].
  destruct (insert_puts_layer_next_to_reference plugin0 1 stack0 layer_a [layer_b]
              (s_doc demo) After (KRender 0) H) as (l & d' & E & _ & Hall & _).
  exists l, d'. split; [exact E|exact Hall].
Defined.

Lemma move_brings_layer_to_front_or_nowhere_witness :
  stack_state plugin0 1 (stack0 ++ layer_a :: [layer_b]) (s_doc demo)
  /\ (exists d', move plugin0 layer_a 1 (s_doc demo) = (Ok tt, d')
                 /\ getLayers plugin0 d'
                    = (Ok (layer_a :: stack0 ++ [layer_b]), d'))
  /\ move plugin0 layer_a (-4) (s_doc demo) = (Throw TypeError, s_doc demo).
Proof.
  assert (H : stack_state plugin0 1 (stack0 ++ layer_a :: [layer_b]) (s_doc demo))
    by (apply (bool_decide_eq_true_1 _); vm_compute; reflexivity).
  split; [exact H|].
  destruct (move_brings_layer_to_front_or_nowhere plugin0 1 stack0 layer_a [layer_b]
              (s_doc demo) 1 H) as (_ & _ & _ & H4).
  destruct (move_brings_layer_to_front_or_nowhere plugin0 1 stack0 layer_a [layer_b]
              (s_doc demo) (-4) H) as (_ & _ & H3 & _).
  split.
  - apply H4; [discriminate|discriminate|simpl; lia].
  - apply H3; [discriminate|simpl; lia].
Defined.

Lemma session_neither_loses_nor_duplicates_layers_witness :
  let s' := run plugin0 own_session
                [OAppend KSvg; OInsert Before 3 KHtml; OMove 3 1; OMove 1 (-5);
                 OInsert After 0 (KRender 0); OMove 4 0] in
  stack_state plugin0 1 stack0 (s_doc own_session)
  /\ Forall (fun h => h ∈ stack0) (s_handles own_session)
  /\ exists ls' new,
       getLayers plugin0 (s_doc s') = (Ok ls', s_doc s')
       /\ s_handles s' = s_handles own_session ++ new
       /\ ls' ≡ₚ stack0 ++ new
       /\ NoDup ls'.
Proof.
  cbv zeta.
  assert (H1 : stack_state plugin0 1 stack0 (s_doc own_session))
    by (apply (bool_decide_eq_true_1 _); vm_compute; reflexivity).
  assert (H2 : Forall (fun h => h ∈ stack0) (s_handles own_session))
    by (apply (bool_decide_eq_true_1 _); vm_compute; reflexivity).
  split; [exact H1|]. split; [exact H2|].
  apply (session_neither_loses_nor_duplicates_layers plugin0 1 stack0 own_session
           _ H1 H2).
Defined.

End StackMore.









(** * More on the accessor: what a plugin leaves on its core *)

Module AccessorMore.
Import Dom Stack Accessor.

Local Open Scope m_scope.

(** The three listeners the constructor of the plugin object [this]
    registers. *)
Definition plugin_listeners (this : nat) : list (string * (nat * PluginMethod)) :=
  [("viewport", (this, Zoomed)); ("resize", (this, Resize));
   ("destroy", (this, Destroy))].

Lemma liftD_cores {A} (m : M Document A) w : w_cores (liftD m w).2 = w_cores w.
Proof. unfold liftD. destruct (m (w_doc w)). reflexivity. Qed.

Lemma new_LayersPlugin_effect cy w p w' c :
  w_cores w !! cy = Some c ->
  new_LayersPlugin cy w = (Ok p, w') ->
  p_id p = d_next (w_doc w) /\ p_cy p = cy
  /\ w_cores w'
     = <[cy := mkCore (c_container c) (c_scratch c)
                      (c_listeners c ++ plugin_listeners (p_id p))]> (w_cores w).
Proof.
  intros Hc.
  unfold new_LayersPlugin, bind, liftD, core, cy_on, set_core, modify, bind,
    core, new_CytoscapeLayer, bind, newObject, createElement, set_cy_layer,
    modify, ret, nonnull, throw. simpl.
  rewrite Hc. simpl.
  destruct (c_container c) as [container|] eqn:Hcont; [|discriminate]. simpl.
  repeat (match goal with
          | |- context [match querySelector ?d ?p ?s with _ => _ end] =>
              destruct (querySelector d p s); simpl
          end; try discriminate).
  repeat (first [rewrite Hc | rewrite lookup_insert_eq]; simpl).
  intros [= <- <-]. simpl. split; [reflexivity|]. split; [reflexivity|].
  rewrite !insert_insert_eq, <- !app_assoc, Hcont. reflexivity.
Qed.

Lemma accessor_cores cy w c p w1 :
  w_cores w !! cy = Some c -> c_scratch c !! "_layers" = None ->
  layers cy w = (Ok p, w1) ->
  p_id p = d_next (w_doc w) /\ p_cy p = cy
  /\ w_cores w1
     = <[cy := mkCore (c_container c) (<["_layers" := p]> (c_scratch c))
                      (c_listeners c ++ plugin_listeners (p_id p))]> (w_cores w).
Proof.
  intros Hc Hs. unfold layers at 1, bind at 1, core at 1. rewrite Hc. cbn [nonnull ret].
  destruct (c_container c) as [container|] eqn:Hcont; [|discriminate].
  rewrite Hs. unfold bind at 1.
  destruct (new_LayersPlugin cy w) as [[plugin|e] w'] eqn:Hnew; [|discriminate].
  destruct (new_LayersPlugin_effect _ _ _ _ _ Hc Hnew) as (Hid & Hcy & Hw').
  unfold cy_scratch_set, bind, core, set_core, modify.
  rewrite Hw', lookup_insert_eq. cbn [nonnull ret].
  intros [= <- <-]. cbn [w_cores c_container c_scratch c_listeners].
  rewrite Hw', insert_insert_eq, Hcont. done.
Qed.

(** X15: the first call of the accessor on a core with a container and

    no plugin yet adds to this core the plugin under ['_layers'] and the
    three listeners of the plugin, ['viewport'], ['resize'] and
    ['destroy'] in this order, behind the listeners that were there; it
    changes nothing else of this core and nothing of any other core. *)
Theorem accessor_first_call_effect cy w c p w1 :
  w_cores w !! cy = Some c -> c_scratch c !! "_layers" = None ->
  layers cy w = (Ok p, w1) ->
  (exists c1, w_cores w1 !! cy = Some c1
              /\ c_listeners c1 = c_listeners c ++ plugin_listeners (p_id p)
              /\ c_scratch c1 = <["_layers" := p]> (c_scratch c)
              /\ c_container c1 = c_container c)
  /\ (forall cy', cy' <> cy -> w_cores w1 !! cy' = w_cores w !! cy')
  /\ p_id p = d_next (w_doc w).
Proof.
  intros Hc Hs Hl.
  destruct (accessor_cores cy w c p w1 Hc Hs Hl) as (Hid & _ & ->).
  split; [|split; [|exact Hid]].
  - eexists. rewrite lookup_insert_eq. split; [reflexivity|]. done.
  - intros cy' Hne. rewrite lookup_insert_ne by congruence. reflexivity.
Qed.


Lemma accessor_first_call_effect_witness :
  w_cores host_page !! 1%nat = Some (mkCore (Some 5%nat) ∅ [])
  /\ layers 1 page1 = (Ok plugin1, page2)
  /\ (exists c1, w_cores page2 !! 1%nat = Some c1
                 /\ c_listeners c1 = plugin_listeners 14)
  /\ w_cores page2 !! 0%nat = w_cores page1 !! 0%nat.
Proof.
  assert (H0 : w_cores host_page !! 1%nat = Some (mkCore (Some 5%nat) ∅ []))
    by (vm_compute; reflexivity).
  assert (H1 : w_cores page1 !! 1%nat = Some (mkCore (Some 5%nat) ∅ []))
    by (vm_compute; reflexivity).
  assert (H2 : c_scratch (mkCore (Some 5%nat) ∅ []) !! "_layers" = None)
    by reflexivity.
  assert (H3 : layers 1 page1 = (Ok plugin1, page2)) by (vm_compute; reflexivity).
  split; [exact H0|]. split; [exact H3|].
  destruct (accessor_first_call_effect 1 page1 _ plugin1 page2 H1 H2 H3)
    as ((c1 & Hc1 & Hl & _) & Hother & _).
  split.
  - exists c1. split; [exact Hc1|exact Hl].
  - apply Hother. discriminate.
Defined.

(** X16: the accessor raises the headless error exactly on a core
    without container, before it looks for a plugin, and then changes
    nothing; no later step of the accessor raises this error. *)
Theorem headless_error_iff_no_container cy w c :
  w_cores w !! cy = Some c ->
  (c_container c = None -> layers cy w = (Throw HeadlessError, w))
  /\ (forall w', layers cy w = (Throw HeadlessError, w') -> c_container c = None).
Proof.
  intros Hc. split.
  - intros Hcont. unfold layers, bind, core. rewrite Hc. cbn [nonnull ret].
    rewrite Hcont. reflexivity.
  - intros w'. destruct (c_container c) as [container|] eqn:Hcont; [|reflexivity].
    unfold layers, bind at 1, core at 1. rewrite Hc. cbn [nonnull ret]. rewrite Hcont.
    destruct (c_scratch c !! "_layers"); [discriminate|].
    unfold new_LayersPlugin, cy_scratch_set, bind, liftD, core, cy_on, set_core,
      modify, bind, core, new_CytoscapeLayer, bind, newObject, createElement,
      set_cy_layer, modify, ret, nonnull, throw. simpl.
    rewrite Hc. simpl. rewrite Hcont. simpl.
    repeat (match goal with
            | |- context [match querySelector ?d ?p ?s with _ => _ end] =>
                destruct (querySelector d p s); simpl
            end; try discriminate).
    repeat (first [rewrite Hc | rewrite lookup_insert_eq]; simpl).
    discriminate.
Qed.

Lemma headless_error_iff_no_container_witness :
  w_cores page2 !! 2%nat = Some (mkCore None ∅ [])
  /\ layers 2 page2 = (Throw HeadlessError, page2).
Proof.
  assert (H : w_cores page2 !! 2%nat = Some (mkCore None ∅ []))
    by (vm_compute; reflexivity).
  split; [exact H|].
  apply (proj1 (headless_error_iff_no_container 2 page2 _ H)). reflexivity.
Defined.

(** ** The [destroy] handler *)

#[export] Instance PluginMethod_eq_dec : EqDecision PluginMethod.
Proof. solve_decision. Defined.

Section Teardown.

(** [layer.remove()] is defined in the layer classes' base class, and
    what [cy.scratch(name, undefined)] does to the storage is decided by
    the host library; neither is among the sources. *)
Variable layer_remove : Layer -> M Document unit.
Variable scratch_unset :
  string -> gmap string LayersPlugin -> gmap string LayersPlugin.

(** [for (const layer of ls) { f(layer) }] *)
Fixpoint for_each (f : Layer -> M Document unit) (ls : list Layer)
  : M Document unit :=
  match ls with
  | [] => ret tt
  | l :: rest => f l ;;; for_each f rest
  end.

(** [cy.off(event, undefined, handler)] *)
Definition cy_off (cy : nat) (ev : string) (h : nat * PluginMethod) : M World unit :=
  c <- core cy ;;
  set_core cy (mkCore (c_container c) (c_scratch c)
                      (filter (fun l => l ≠ (ev, h)) (c_listeners c))).

(** [cy.scratch(name, undefined)] *)
Definition cy_scratch_unset (cy : nat) (name : string) : M World unit :=
  c <- core cy ;;
  set_core cy (mkCore (c_container c) (scratch_unset name (c_scratch c))
                      (c_listeners c)).

(** [private readonly destroy = () => { ... }] *)
Definition destroy (p : LayersPlugin) : M World unit :=
  ls <- liftD (Stack.layers p) ;;
  liftD (for_each layer_remove ls) ;;;
  cy_off (p_cy p) "destroy" (p_id p, Destroy) ;;;
  cy_off (p_cy p) "viewport" (p_id p, Zoomed) ;;;
  cy_off (p_cy p) "resize" (p_id p, Resize) ;;;
  cy_scratch_unset (p_cy p) "_layers".

Lemma filter_older_listeners (n : nat) (ev : string) (m : PluginMethod)
    (ls : list (string * (nat * PluginMethod))) :
  Forall (fun l => (l.2.1 < n)%nat) ls ->
  filter (fun l => l ≠ (ev, (n, m))) ls = ls.
Proof.
  induction 1 as [|l ls Hl _ IH]; [reflexivity|].
  rewrite filter_cons, IH. rewrite decide_True; [reflexivity|].
  intros ->. simpl in Hl. lia.
Qed.

Lemma destroy_cores p w w2 c :
  w_cores w !! p_cy p = Some c ->
  destroy p w = (Ok tt, w2) ->
  w_cores w2
  = <[p_cy p := mkCore (c_container c) (scratch_unset "_layers" (c_scratch c))
                  (filter (fun l => l ≠ ("resize", (p_id p, Resize)))
                     (filter (fun l => l ≠ ("viewport", (p_id p, Zoomed)))
                        (filter (fun l => l ≠ ("destroy", (p_id p, Destroy)))
                                (c_listeners c))))]> (w_cores w).
Proof.
  intros Hc. unfold destroy. unfold bind at 1.
  pose proof (liftD_cores (Stack.layers p) w) as H1.
  destruct (liftD (Stack.layers p) w) as [[ls|e] wa]; [|discriminate].
  cbn [snd] in H1. unfold bind at 1.
  pose proof (liftD_cores (for_each layer_remove ls) wa) as H2.
  destruct (liftD (for_each layer_remove ls) wa) as [[[]|e] wb]; [|discriminate].
  cbn [snd] in H2. rewrite H1 in H2.
  unfold cy_off, cy_scratch_unset, bind, core, set_core, modify.
  rewrite H2, Hc. cbn [nonnull ret w_cores]. rewrite lookup_insert_eq.
  cbn [nonnull ret w_cores]. rewrite lookup_insert_eq.
  cbn [nonnull ret w_cores]. rewrite lookup_insert_eq.
  cbn [nonnull ret w_cores c_container c_scratch c_listeners].
  intros [= <-]. cbn [w_cores]. rewrite !insert_insert_eq, H2. reflexivity.
Qed.

(** X17: [destroy] takes the three listeners of its plugin, and nothing
    else, off the core again: when the accessor has constructed a plugin
    on a core and the plugin's [destroy] runs through later, whatever
    has happened to the document in between, the core has the listeners
    it had before the accessor was called, in their order, and its
    container; other cores are as the accessor found them. *)
Theorem destroy_takes_the_plugin_listeners_off cy w c p w1 w1' w2 :
  w_cores w !! cy = Some c -> c_scratch c !! "_layers" = None ->
  Forall (fun l => (l.2.1 < d_next (w_doc w))%nat) (c_listeners c) ->
  layers cy w = (Ok p, w1) ->
  w_cores w1' = w_cores w1 ->
  destroy p w1' = (Ok tt, w2) ->
  (exists c2, w_cores w2 !! cy = Some c2
              /\ c_listeners c2 = c_listeners c
              /\ c_container c2 = c_container c)
  /\ (forall cy', cy' <> cy -> w_cores w2 !! cy' = w_cores w !! cy').
Proof.
  intros Hc Hs Hold Hl Hsame Hd.
  destruct (accessor_cores cy w c p w1 Hc Hs Hl) as (Hid & Hcy & Hw1).
  assert (Hc1 : w_cores w1' !! p_cy p
                = Some (mkCore (c_container c) (<["_layers" := p]> (c_scratch c))
                               (c_listeners c ++ plugin_listeners (p_id p)))).
  { rewrite Hsame, Hw1, Hcy. apply lookup_insert_eq. }
  rewrite (destroy_cores p w1' w2 _ Hc1 Hd), Hsame, Hw1, Hcy, insert_insert_eq.
  cbn [c_container c_scratch c_listeners]. split.
  - eexists. rewrite lookup_insert_eq. split; [reflexivity|].
    cbn [c_container c_listeners]. split; [|reflexivity].
    rewrite Hid in *. unfold plugin_listeners.
    rewrite !filter_app, !(filter_older_listeners _ _ _ _ Hold).
    rewrite !filter_cons, !filter_nil.
    repeat (first [rewrite decide_True by (intros [=]; discriminate)
                  |rewrite decide_False by (intros H; apply H; reflexivity)];
            cbn [filter list_filter]; rewrite ?filter_cons, ?filter_nil).
    apply app_nil_r.
  - intros cy' Hne. rewrite lookup_insert_ne by congruence. reflexivity.
Qed.

End Teardown.

(** One choice for the two: a [remove] that takes the root of a layer
    the plugin created out of the document and leaves the host's own
    canvases where they are, and a [scratch(name, undefined)] that reads
    the entry and keeps it. *)
Definition detaching_remove (l : Layer) : M Document unit :=
  match l_type l with
  | TCyNode | TCyDrag | TCySelectBox => ret tt
  | _ => modify (detach (l_root l))
  end.

Definition reading_unset (name : string) (m : gmap string LayersPlugin)
  : gmap string LayersPlugin := m.


Lemma destroy_takes_the_plugin_listeners_off_witness :
  let w2 := (destroy detaching_remove reading_unset plugin0 page1).2 in
  w_cores host_page !! 0%nat = Some (mkCore (Some 0%nat) ∅ [])
  /\ layers 0 host_page = (Ok plugin0, page1)
  /\ destroy detaching_remove reading_unset plugin0 page1 = (Ok tt, w2)
  /\ exists c2, w_cores w2 !! 0%nat = Some c2 /\ c_listeners c2 = [].
Proof.
  cbv zeta.
  assert (H0 : w_cores host_page !! 0%nat = Some (mkCore (Some 0%nat) ∅ []))
    by (vm_compute; reflexivity).
  assert (H1 : c_scratch (mkCore (Some 0%nat) ∅ []) !! "_layers" = None)
    by reflexivity.
  assert (H2 : Forall (fun l : string * (nat * PluginMethod) =>
                         (l.2.1 < d_next (w_doc host_page))%nat)
                      (c_listeners (mkCore (Some 0%nat) ∅ [])))
    by constructor.
  assert (H3 : layers 0 host_page = (Ok plugin0, page1)) by (vm_compute; reflexivity).
  assert (H4 : destroy detaching_remove reading_unset plugin0 page1
               = (Ok tt, (destroy detaching_remove reading_unset plugin0 page1).2)).
  { rewrite (surjective_pairing (destroy _ _ _ _)) at 1.
    apply (f_equal (fun r => (r, _))). vm_compute. reflexivity. }

  split; [exact H0|]. split; [exact H3|]. split; [exact H4|].
  destruct (destroy_takes_the_plugin_listeners_off detaching_remove reading_unset
              0 host_page _ plugin0 page1 page1 _ H0 H1 H2 H3 eq_refl H4)
    as ((c2 & Hc2 & Hl & _) & _).
  exists c2. split; [exact Hc2|exact Hl].
Defined.





End AccessorMore.
